(** * Twenty CRM HTTP client (src/src/client.ts)

    A shallow embedding of [TwentyCrmClient]: the request executor, the
    retrying executor, the pagination aggregator, fan-out search, field-match
    lookup and the batch executor, with the properties the specification
    states about them; then the field transforms of client.ts, the helpers of
    tools/engagement.ts and the callbacks of the search, bulk, note and
    upsert_company tools, with further properties read off the code.

    Conventions of the embedding.
    - JavaScript values are the JSON-shaped values of [Js.JsValue]; numbers
      are integers (plus [JNaN]); strings are byte strings (UTF-8), with
      the length and the characters of their bytes.  The lower-case form of
      a string is a built-in of the engine and is taken from the runtime,
      like [fetch] and [JSON.parse].
    - An object is the list of its own properties in the order JavaScript
      lists them (the array indices in ascending order, then the other keys
      as they were created), with distinct keys; [js_ordered] says so, and
      [obj_define] and [obj_assign] put a new key where JavaScript does.
      Inherited members are modelled where the code reads a key it does not
      fix from an object literal ([getResourceEndpoint]).
    - An [async] function that is awaited at once is a function from the
      history of the transport (the trace of [fetch] calls and sleeps so
      far) to a result and the extended history; [await] is sequencing.
    - [async] functions that are started side by side and awaited with
      [Promise.all] are followed from one [await] to the next: each runs up
      to its first [await] when it is started, and the started calls go on
      one at a time in the order the runtime gives.  What a call of [fetch]
      is answered is fixed by the history at the moment of the call. *)

From Stdlib Require Import String Ascii List ZArith Lia Bool DecimalString QArith_base.
From Equations Require Import Equations.
Import ListNotations.

Open Scope string_scope.
Open Scope Z_scope.
Open Scope list_scope.

Infix "+++" := String.append (at level 60, right associativity).

(** ** JavaScript values and the built-ins the client uses *)

Module Js.

#[warnings="-register-all"]
Inductive JsValue : Type :=
| JUndefined
| JNull
| JBool (b : bool)
| JNum (n : Z)
| JNaN
| JStr (s : string)
| JArr (items : list JsValue)
| JObj (props : list (string * JsValue)).

(** [DataObject = Record<string, unknown>] (src/src/types.ts). *)
Definition DataObject : Type := list (string * JsValue).

Definition string_of_Z (n : Z) : string := NilZero.string_of_int (Z.to_int n).

Definition string_of_nat (n : nat) : string := string_of_Z (Z.of_nat n).

(** The double quote character, code 34. *)
Definition dquote : ascii := Ascii false true false false false true false false.

Definition dq : string := String dquote EmptyString.

(** ToBoolean. *)
Definition truthy (v : JsValue) : bool :=
  match v with
  | JUndefined | JNull | JNaN => false
  | JBool b => b
  | JNum n => negb (n =? 0)
  | JStr s => negb (s =? "")%string
  | JArr _ | JObj _ => true
  end.

(** [a || b]. *)
Definition js_or (a b : JsValue) : JsValue := if truthy a then a else b.

Definition isArray (v : JsValue) : bool :=
  match v with JArr _ => true | _ => false end.

(** [String(v)], also the conversion of a template literal. *)
Fixpoint js_String (v : JsValue) : string :=
  match v with
  | JUndefined => "undefined"
  | JNull => "null"
  | JBool true => "true"
  | JBool false => "false"
  | JNum n => string_of_Z n
  | JNaN => "NaN"
  | JStr s => s
  | JArr l =>
      String.concat ","
        (map (fun x => match x with
                       | JUndefined | JNull => ""
                       | _ => js_String x
                       end) l)
  | JObj _ => "[object Object]"
  end.

(** [a + b]: concatenation as soon as one operand converts to a string
    (strings, arrays, objects), numeric addition otherwise. *)
Definition is_stringish (v : JsValue) : bool :=
  match v with JStr _ | JArr _ | JObj _ => true | _ => false end.

Definition to_number (v : JsValue) : option Z :=
  match v with
  | JNum n => Some n
  | JBool b => Some (if b then 1 else 0)
  | JNull => Some 0
  | _ => None
  end.

Definition js_add (a b : JsValue) : JsValue :=
  if is_stringish a || is_stringish b
  then JStr (js_String a +++ js_String b)
  else match to_number a, to_number b with
       | Some x, Some y => JNum (x + y)
       | _, _ => JNaN
       end.

(** [n === v] for a number [n]. *)
Definition num_strict_eq (n : Z) (v : JsValue) : bool :=
  match v with JNum m => n =? m | _ => false end.

(** Own properties of an object. *)
Fixpoint obj_get (k : string) (o : DataObject) : option JsValue :=
  match o with
  | [] => None
  | (k', v) :: o' => if (k' =? k)%string then Some v else obj_get k o'
  end.

Definition obj_prop (k : string) (o : DataObject) : JsValue :=
  match obj_get k o with Some v => v | None => JUndefined end.

(** [o[k] = v]: an existing key keeps its place, a new key goes last. *)
Fixpoint obj_set (k : string) (v : JsValue) (o : DataObject) : DataObject :=
  match o with
  | [] => [(k, v)]
  | (k', v') :: o' =>
      if (k' =? k)%string then (k', v) :: o' else (k', v') :: obj_set k v o'
  end.

(** [delete o[k]]. *)
Definition obj_delete (k : string) (o : DataObject) : DataObject :=
  filter (fun kv => negb (fst kv =? k)%string) o.

Definition keys (o : DataObject) : list string := map fst o.

(** The array index a key stands for: the canonical decimal text of an
    integer from 0 to 2^32 - 2. *)
Definition array_index (k : string) : option Z :=
  match NilZero.uint_of_string k with
  | Some u =>
      let n := Z.of_uint u in
      if (string_of_Z n =? k)%string && (n <? 4294967295) then Some n else None
  | None => None
  end.

(** The order in which JavaScript lists the own keys of an object: the array
    indices in ascending order, then the other keys in the order they were
    created.  [key_before k k'] says that [k] may stand before [k']. *)
Definition key_before (k k' : string) : bool :=
  match array_index k, array_index k' with
  | Some n, Some n' => n <? n'
  | Some _, None => true
  | None, Some _ => false
  | None, None => true
  end.

Fixpoint js_ordered (ks : list string) : bool :=
  match ks with
  | [] => true
  | k :: rest => forallb (key_before k) rest && js_ordered rest
  end.

(** The place of a new key that is the array index [n]: before the first
    key that is a larger index or no index. *)
Fixpoint insert_index (n : Z) (k : string) (v : JsValue) (o : DataObject) : DataObject :=
  match o with
  | [] => [(k, v)]
  | (k', v') :: o' =>
      match array_index k' with
      | Some n' => if n' <? n then (k', v') :: insert_index n k v o' else (k, v) :: o
      | None => (k, v) :: o
      end
  end.

(** Defining the own property [k], as the spread [{ ...a, ...b }] does for
    each key of [b], whatever the key is: an existing key keeps its place, a
    new key goes where JavaScript lists it. *)
Definition obj_define (k : string) (v : JsValue) (o : DataObject) : DataObject :=
  if existsb (String.eqb k) (keys o) then obj_set k v o
  else match array_index k with
       | Some n => insert_index n k v o
       | None => o ++ [(k, v)]
       end.

(** [o[k] = v] for a key the code does not fix, on an object that inherits
    from [Object.prototype]: for [__proto__], unless it is an own key, the
    assignment goes to the setter of the prototype and adds no own property
    (the prototype itself is not part of the model). *)
Definition obj_assign (k : string) (v : JsValue) (o : DataObject) : DataObject :=
  if (k =? "__proto__")%string && negb (existsb (String.eqb k) (keys o)) then o
  else obj_define k v o.

(** Index keys of arrays and strings: ["0"], ["1"], ... *)
Definition index_of_key (k : string) (len : nat) : option nat :=
  find (fun i => (string_of_nat i =? k)%string) (seq 0 len).

Definition chars (s : string) : list JsValue :=
  map (fun c => JStr (String c EmptyString)) (list_ascii_of_string s).

Definition indexed (l : list JsValue) : DataObject :=
  combine (map string_of_nat (seq 0 (List.length l))) l.

(** [{...v}]: the own enumerable properties of [v]. *)
Definition spread (v : JsValue) : DataObject :=
  match v with
  | JObj o => o
  | JArr l => indexed l
  | JStr s => indexed (chars s)
  | _ => []
  end.

(** [v[k]], where reading a property of [null] or [undefined] is a
    TypeError ([None]).  Inherited members are not part of the model. *)
Definition get_prop (v : JsValue) (k : string) : option JsValue :=
  match v with
  | JUndefined | JNull => None
  | JObj o => Some (obj_prop k o)
  | JArr l =>
      if (k =? "length")%string then Some (JNum (Z.of_nat (List.length l)))
      else match index_of_key k (List.length l) with
           | Some i => Some (nth i l JUndefined)
           | None => Some JUndefined
           end
  | JStr s =>
      if (k =? "length")%string then Some (JNum (Z.of_nat (String.length s)))
      else match index_of_key k (String.length s) with
           | Some i => Some (nth i (chars s) JUndefined)
           | None => Some JUndefined
           end
  | _ => Some JUndefined
  end.

(** Case conversions of ASCII letters.  [method.toUpperCase()] is only
    compared with GET and DELETE, and no letter outside ASCII has an upper
    case made of the letters of these two words, so the ASCII conversion
    decides that test as the one of JavaScript does.
    [String.prototype.toLowerCase] is taken from the engine instead (see
    [Runtime]). *)
Definition lower_ascii (c : ascii) : ascii :=
  let n := nat_of_ascii c in
  if ((65 <=? n) && (n <=? 90))%nat then ascii_of_nat (n + 32) else c.

Definition upper_ascii (c : ascii) : ascii :=
  let n := nat_of_ascii c in
  if ((97 <=? n) && (n <=? 122))%nat then ascii_of_nat (n - 32) else c.

Fixpoint string_map (f : ascii -> ascii) (s : string) : string :=
  match s with
  | EmptyString => EmptyString
  | String c s' => String (f c) (string_map f s')
  end.

Definition toUpperCase : string -> string := string_map upper_ascii.

(** Hexadecimal digits. *)
Definition hex_digit (upper : bool) (n : nat) : ascii :=
  if (n <? 10)%nat then ascii_of_nat (48 + n)
  else ascii_of_nat ((if upper then 55 else 87) + n).

Definition hex_byte (upper : bool) (c : ascii) : string :=
  let n := nat_of_ascii c in
  String (hex_digit upper (n / 16)%nat)
    (String (hex_digit upper (n mod 16)%nat) EmptyString).

(** *** JSON.stringify *)

Definition json_escape (c : ascii) : string :=
  let n := nat_of_ascii c in
  if (n =? 34)%nat then "\" +++ dq
  else if (n =? 92)%nat then "\\"
  else if (n =? 8)%nat then "\b"
  else if (n =? 9)%nat then "\t"
  else if (n =? 10)%nat then "\n"
  else if (n =? 12)%nat then "\f"
  else if (n =? 13)%nat then "\r"
  else if (n <? 32)%nat then "\u00" +++ hex_byte false c
  else String c EmptyString.

Fixpoint json_escape_all (s : string) : string :=
  match s with
  | EmptyString => EmptyString
  | String c s' => json_escape c +++ json_escape_all s'
  end.

Definition json_quote (s : string) : string := dq +++ json_escape_all s +++ dq.

(** [JSON.stringify v]; [None] is [undefined].  A member whose value
    serialises to [undefined] is left out of an object and written [null]
    in an array. *)
Fixpoint JSON_stringify (v : JsValue) : option string :=
  match v with
  | JUndefined => None
  | JNull | JNaN => Some "null"
  | JBool true => Some "true"
  | JBool false => Some "false"
  | JNum n => Some (string_of_Z n)
  | JStr s => Some (json_quote s)
  | JArr l =>
      Some ("[" +++
            String.concat ","
              (map (fun x => match JSON_stringify x with
                             | Some s => s
                             | None => "null"
                             end) l)
            +++ "]")
  | JObj o =>
      Some ("{" +++
            String.concat ","
              ((fix members (o : list (string * JsValue)) : list string :=
                  match o with
                  | [] => []
                  | (k, x) :: o' =>
                      match JSON_stringify x with
                      | Some s => (json_quote k +++ ":" +++ s) :: members o'
                      | None => members o'
                      end
                  end) o)
            +++ "}")
  end.

(** The members [JSON.stringify] writes for an object: key and serialised
    value, in order. *)
Fixpoint json_members (o : DataObject) : list (string * string) :=
  match o with
  | [] => []
  | (k, x) :: o' =>
      match JSON_stringify x with
      | Some s => (k, s) :: json_members o'
      | None => json_members o'
      end
  end.

Definition json_member_text (m : string * string) : string :=
  json_quote (fst m) +++ ":" +++ snd m.

(** *** URLSearchParams *)

Definition URLSearchParams : Type := list (string * string).

(** [params.set(k, v)]: the first entry named [k] takes the value and the
    other entries named [k] go; a new name is appended. *)
Fixpoint params_set (k v : string) (p : URLSearchParams) : URLSearchParams :=
  match p with
  | [] => [(k, v)]
  | (k', v') :: p' =>
      if (k' =? k)%string
      then (k', v) :: filter (fun kv => negb (fst kv =? k)%string) p'
      else (k', v') :: params_set k v p'
  end.

(** application/x-www-form-urlencoded byte serialisation. *)
Definition form_unreserved (n : nat) : bool :=
  ((48 <=? n) && (n <=? 57) || (65 <=? n) && (n <=? 90)
   || (97 <=? n) && (n <=? 122)
   || (n =? 42) || (n =? 45) || (n =? 46) || (n =? 95))%nat.

Definition form_encode_byte (c : ascii) : string :=
  let n := nat_of_ascii c in
  if form_unreserved n then String c EmptyString
  else if (n =? 32)%nat then "+"
  else "%" +++ hex_byte true c.

Fixpoint form_encode (s : string) : string :=
  match s with
  | EmptyString => EmptyString
  | String c s' => form_encode_byte c +++ form_encode s'
  end.

Definition params_toString (p : URLSearchParams) : string :=
  String.concat "&"
    (map (fun kv => form_encode (fst kv) +++ "=" +++ form_encode (snd kv)) p).

End Js.

Import Js.

(** ** Errors, transport and promises *)

(** [error.response = { status, headers }] of a Structured API Error. *)
Record ErrorResponse : Type := {
  response_status : Z;
  response_headers : list (string * string)
}.

(** An [Error] object: its message and the fields the client or the
    transport attach to it ([statusCode], [response], a network [code]). *)
Record JsError : Type := {
  message : string;
  statusCode : option Z;
  response : option ErrorResponse;
  code : option string
}.

(** [new Error(msg)]. *)
Definition new_Error (msg : string) : JsError :=
  {| message := msg; statusCode := None; response := None; code := None |}.

(** What a [throw] carries: an instance of [Error] or any other value. *)
Inductive Thrown : Type :=
| ThrownError (e : JsError)
| ThrownValue (v : JsValue).

Inductive Result (A : Type) : Type :=
| Return (a : A)
| Throw (t : Thrown).
Arguments Return {A} a.
Arguments Throw {A} t.

(** [error instanceof Error ? error.message : "Unknown error"]. *)
Definition error_message (error : Thrown) : string :=
  match error with
  | ThrownError e => message e
  | ThrownValue _ => "Unknown error"
  end.

Definition TypeError (msg : string) : Thrown := ThrownError (new_Error msg).

(** [v[k]] as a computation that may throw. *)
Definition read_prop (v : JsValue) (k : string) : Result JsValue :=
  match get_prop v k with
  | Some x => Return x
  | None =>
      Throw (TypeError ("Cannot read properties of " +++ js_String v +++
                        " (reading '" +++ k +++ "')"))
  end.

(** [RequestInit] as the client fills it. *)
Record RequestInit : Type := {
  method : string;
  headers : list (string * string);
  body : option string
}.

(** The part of a [Response] the client reads. *)
Record Response : Type := {
  ok : bool;
  status : Z;
  text : string;
  entries : list (string * string)
}.

Inductive FetchResult : Type :=
| Resolved (r : Response)
| Rejected (t : Thrown).

(** What the client does to the outside world, in order. *)
Inductive Event : Type :=
| EvFetch (url : string) (options : RequestInit)
| EvSleep (ms : Z).

Definition Trace : Type := list Event.

Definition is_fetch (ev : Event) : bool :=
  match ev with EvFetch _ _ => true | EvSleep _ => false end.

Definition fetches (tr : Trace) : Trace := filter is_fetch tr.

Definition sleeps (tr : Trace) : Trace := filter (fun ev => negb (is_fetch ev)) tr.

(** An [async] computation. *)
Definition Promise (A : Type) : Type := Trace -> Result A * Trace.

Definition ret {A} (a : A) : Promise A := fun tr => (Return a, tr).

Definition throw {A} (t : Thrown) : Promise A := fun tr => (Throw t, tr).

Definition bind {A B} (m : Promise A) (k : A -> Promise B) : Promise B :=
  fun tr =>
    match m tr with
    | (Return a, tr') => k a tr'
    | (Throw t, tr') => (Throw t, tr')
    end.

Definition try_catch {A} (m : Promise A) (handler : Thrown -> Promise A) : Promise A :=
  fun tr =>
    match m tr with
    | (Return a, tr') => (Return a, tr')
    | (Throw t, tr') => handler t tr'
    end.

Definition lift {A} (r : Result A) : Promise A := fun tr => (r, tr).

Notation "x <- m ;; k" := (bind m (fun x => k))
  (at level 100, m at next level, right associativity).

(** *** Calls that run side by side

    Where the client starts several calls before it awaits any of them
    ([batch.map(async ...)] and [objectTypes.map(async ...)], then
    [Promise.all]), a call is followed from one [await] to the next.  A call
    that has been started is settled, or it is suspended at an [await] of
    the transport or of a timer; a suspended call holds what it does when it
    is resumed, given the history at that moment: it adds the events of the
    calls it makes then, and is settled or suspended again. *)
#[warnings="-register-all"]
Inductive Task (A : Type) : Type :=
| Settled (r : Result A)
| Suspended (resume : Trace -> Task A * Trace).
Arguments Settled {A} r.
Arguments Suspended {A} resume.

(** An [async] function as something to start: it runs up to its first
    [await]. *)
Definition Async (A : Type) : Type := Trace -> Task A * Trace.

Definition ret_async {A} (a : A) : Async A := fun tr => (Settled (Return a), tr).

Definition throw_async {A} (t : Thrown) : Async A := fun tr => (Settled (Throw t), tr).

Definition lift_async {A} (r : Result A) : Async A := fun tr => (Settled r, tr).

(** What follows a started call: [k] is started with the result as soon as
    the call has settled. *)
Fixpoint then_task {A B} (t : Task A) (k : Result A -> Async B) (tr : Trace)
  : Task B * Trace :=
  match t with
  | Settled r => k r tr
  | Suspended resume =>
      (Suspended (fun tr' => let (t', tr'') := resume tr' in then_task t' k tr''), tr)
  end.

(** [const a = await m; ...k]. *)
Definition bind_async {A B} (m : Async A) (k : A -> Async B) : Async B :=
  fun tr =>
    let (t, tr') := m tr in
    then_task t (fun r => match r with
                          | Return a => k a
                          | Throw e => throw_async e
                          end) tr'.

(** [try { ...m } catch (error) { ...handler }]. *)
Definition try_catch_async {A} (m : Async A) (handler : Thrown -> Async A) : Async A :=
  fun tr =>
    let (t, tr') := m tr in
    then_task t (fun r => match r with
                          | Return a => ret_async a
                          | Throw e => handler e
                          end) tr'.

Notation "x <~~ m ;; k" := (bind_async m (fun x => k))
  (at level 100, m at next level, right associativity).



(** The calls [Promise.all] waits for, taken together: all settled, with the
    values in the order of the calls or with the rejection that came first;
    or [n] of them suspended, with what resuming the [i]-th of these does
    (an [i] past the last one resumes the last one). *)
#[warnings="-register-all"]
Inductive Group (A : Type) : Type :=
| AllSettled (r : Result (list A))
| SomePending (n : nat) (resume : nat -> Trace -> Group A * Trace).
Arguments AllSettled {A} r.
Arguments SomePending {A} n resume.

(** A call that has returned [a], put before the calls of [g]. *)
Fixpoint add_value {A} (a : A) (g : Group A) : Group A :=
  match g with
  | AllSettled (Return l) => AllSettled (Return (a :: l))
  | AllSettled (Throw t) => AllSettled (Throw t)
  | SomePending n resume =>
      SomePending n (fun i tr => let (g', tr') := resume i tr in (add_value a g', tr'))
  end.

(** The started call [t] put before the calls of [g].  As soon as one call
    is rejected the whole is: [Promise.all] does not wait for the others,
    and what the others do afterwards is left out.  The calls this client
    hands to [Promise.all] catch their own errors and are never rejected. *)
Fixpoint join {A} (t : Task A) : Group A -> Group A :=
  match t with
  | Settled (Return a) => add_value a
  | Settled (Throw e) => fun _ => AllSettled (Throw e)
  | Suspended resume =>
      fix join_pending (g : Group A) : Group A :=
        match g with
        | AllSettled (Throw e) => AllSettled (Throw e)
        | AllSettled (Return l) =>
            SomePending 1
              (fun _ tr => let (t', tr') := resume tr in
                           (join t' (AllSettled (Return l)), tr'))
        | SomePending n others =>
            SomePending (S n)
              (fun i tr =>
                 match i with
                 | O => let (t', tr') := resume tr in (join t' (SomePending n others), tr')
                 | S j => let (g', tr') := others j tr in (join_pending g', tr')
                 end)
        end
  end.

(** [list.map(async ...)]: the calls are started one after the other, each
    up to its first [await]. *)
Fixpoint start_all {A} (calls : list (Async A)) (tr : Trace) : Group A * Trace :=
  match calls with
  | [] => (AllSettled (Return []), tr)
  | call :: rest =>
      let (t, tr1) := call tr in
      let (g, tr2) := start_all rest tr1 in
      (join t g, tr2)
  end.

(** The suspended calls are resumed one at a time, in the order in which
    what they wait for settles; [next tr n] is the one of the [n] suspended
    calls that is resumed after the history [tr]. *)
Fixpoint run_group {A} (next : Trace -> nat -> nat) (g : Group A) (tr : Trace)
  : Result (list A) * Trace :=
  match g with
  | AllSettled r => (r, tr)
  | SomePending n resume =>
      let (g', tr') := resume (next tr n) tr in run_group next g' tr'
  end.

(** Induction on a started call, through what it does when it is resumed. *)
Section TaskInduction.

Context {A : Type} (P : Task A -> Prop).

Hypothesis Hsettled : forall r, P (Settled r).

Hypothesis Hsuspended :
  forall resume, (forall tr, P (fst (resume tr))) -> P (Suspended resume).

Fixpoint Task_induction (t : Task A) : P t :=
  match t with
  | Settled r => Hsettled r
  | Suspended resume =>
      Hsuspended resume
        (fun tr =>
           match resume tr as p return P (fst p) with
           | (t', _) => Task_induction t'
           end)
  end.

End TaskInduction.

(** Induction on the calls taken together. *)
Section GroupInduction.

Context {A : Type} (P : Group A -> Prop).

Hypothesis Hsettled : forall r, P (AllSettled r).

Hypothesis Hpending :
  forall n resume, (forall i tr, P (fst (resume i tr))) -> P (SomePending n resume).

Fixpoint Group_induction (g : Group A) : P g :=
  match g with
  | AllSettled r => Hsettled r
  | SomePending n resume =>
      Hpending n resume
        (fun i tr =>
           match resume i tr as p return P (fst p) with
           | (g', _) => Group_induction g'
           end)
  end.

End GroupInduction.

(** [tr'] continues [tr]. *)
Definition extends (tr tr' : Trace) : Prop := exists evs, tr' = tr ++ evs.

(** A started call keeps to [P] and [Q] from the history [tr0] on: whenever
    it is resumed, at a history that continues [tr0], it only adds events
    that satisfy [P], and when it has settled, [Q] holds of the history and
    of the result. *)
Fixpoint keeps {A} (P : Event -> Prop) (Q : Trace -> Result A -> Prop)
  (t : Task A) (tr0 : Trace) : Prop :=
  match t with
  | Settled r => Q tr0 r
  | Suspended resume =>
      forall tr, extends tr0 tr ->
        let (t', tr') := resume tr in
        exists evs, tr' = tr ++ evs /\ Forall P evs /\ keeps P Q t' tr'
  end.

(** The same for a call that is started at [tr]. *)
Definition starts_keeping {A} (P : Event -> Prop) (Q : Trace -> Result A -> Prop)
  (call : Async A) (tr : Trace) : Prop :=
  let (t, tr') := call tr in
  exists evs, tr' = tr ++ evs /\ Forall P evs /\ keeps P Q t tr'.

(** The same for the calls taken together. *)
Fixpoint group_keeps {A} (P : Event -> Prop) (Q : Trace -> Result (list A) -> Prop)
  (g : Group A) (tr0 : Trace) : Prop :=
  match g with
  | AllSettled r => Q tr0 r
  | SomePending n resume =>
      forall i tr, extends tr0 tr ->
        let (g', tr') := resume i tr in
        exists evs, tr' = tr ++ evs /\ Forall P evs /\ group_keeps P Q g' tr'
  end.

(** What holds of a result holds on, whatever happens later. *)
Definition lasting {A} (Q : Trace -> A -> Prop) : Prop :=
  forall tr tr' a, extends tr tr' -> Q tr a -> Q tr' a.

(** [items.slice(i, j)]. *)
Definition slice {A} (i j : nat) (l : list A) : list A := firstn (j - i) (skipn i l).

(** ** Retry policy (src/src/retry.ts is not among the sources) *)

(** Modelled from the spec: [IRetryConfig], the retry configuration
    {maxRetries, baseDelayMs, maxDelayMs, jitter factor} of section 3. *)
Record IRetryConfig : Type := {
  maxRetries : Z;
  baseDelayMs : Z;
  maxDelayMs : Z;
  jitterFactor : Q
}.

(** [Partial<IRetryConfig>]: the fields a caller overrides. *)
Record PartialRetryConfig : Type := {
  maxRetries_opt : option Z;
  baseDelayMs_opt : option Z;
  maxDelayMs_opt : option Z;
  jitterFactor_opt : option Q
}.

Definition no_override : PartialRetryConfig :=
  {| maxRetries_opt := None; baseDelayMs_opt := None;
     maxDelayMs_opt := None; jitterFactor_opt := None |}.

(** [{ ...defaults, ...retryConfig }]. *)
Definition merge_config (defaults : IRetryConfig) (retryConfig : PartialRetryConfig)
  : IRetryConfig :=
  {| maxRetries := match maxRetries_opt retryConfig with Some x => x | None => maxRetries defaults end;
     baseDelayMs := match baseDelayMs_opt retryConfig with Some x => x | None => baseDelayMs defaults end;
     maxDelayMs := match maxDelayMs_opt retryConfig with Some x => x | None => maxDelayMs defaults end;
     jitterFactor := match jitterFactor_opt retryConfig with Some x => x | None => jitterFactor defaults end |}.

(** The result of [extractRateLimitInfo]. *)
Record RateLimitInfo : Type := { retryAfter : option Z }.

Module RetrySpec.

(** Whether [needle] occurs in [s]. *)
Fixpoint includes (needle s : string) : bool :=
  prefix needle s ||
  match s with
  | EmptyString => false
  | String _ s' => includes needle s'
  end.

(** The network-level codes of section 4.2: connection refused, timed out,
    connection reset, host not found. *)
Definition network_codes : list string :=
  ["ECONNREFUSED"; "ETIMEDOUT"; "ECONNRESET"; "ENOTFOUND"].

Definition transient_indicators : list string :=
  ["timeout"; "socket hang up"; "network error"] ++ network_codes.

(** Modelled from the spec: [isRetryableError] of retry.ts, by section 4.2:
    HTTP status in {429, 502, 503, 504}, a network-level error code, or a
    message containing a transient-failure indicator; nothing else. *)
Definition isRetryableError (error : Thrown) : bool :=
  match error with
  | ThrownError e =>
      match statusCode e with
      | Some s => existsb (Z.eqb s) [429; 502; 503; 504]
      | None => false
      end
      || match code e with
         | Some c => existsb (String.eqb c) network_codes
         | None => false
         end
      || existsb (fun ind => includes ind (message e)) transient_indicators
  | ThrownValue _ => false
  end.

End RetrySpec.

(** ** The client *)

(** [ITwentyCrmCredentials] (src/src/types.ts). *)
Record ITwentyCrmCredentials : Type := {
  apiUrl : string;
  credentials_apiKey : string
}.

Record TwentyCrmClient : Type := {
  baseUrl : string;
  apiKey : string
}.

(** [s.replace(/\/$/, "")]: one slash at the very end goes. *)
Fixpoint strip_trailing_slash (s : string) : string :=
  match s with
  | EmptyString => EmptyString
  | String c EmptyString => if Ascii.eqb c "/" then EmptyString else s
  | String c rest => String c (strip_trailing_slash rest)
  end.

Definition constructor (credentials : ITwentyCrmCredentials) : TwentyCrmClient :=
  {| baseUrl := strip_trailing_slash (apiUrl credentials);
     apiKey := credentials_apiKey credentials |}.

(** [getResourceEndpoint] (src/src/transforms.ts). *)
Definition endpoints : list (string * string) :=
  [("company", "/rest/companies"); ("person", "/rest/people");
   ("opportunity", "/rest/opportunities"); ("note", "/rest/notes");
   ("task", "/rest/tasks"); ("activity", "/rest/activities");
   ("attachment", "/rest/attachments")].

Fixpoint table_get (k : string) (t : list (string * string)) : option string :=
  match t with
  | [] => None
  | (k', v) :: t' => if (k' =? k)%string then Some v else table_get k t'
  end.

(** What [endpoints[resource]] finds when [resource] is no key of the table:
    the members the object literal inherits from [Object.prototype].  They
    are functions, and [__proto__] is the prototype itself, so all are
    truthy and [||] takes them; the client only ever puts the endpoint into
    a template literal, so each member is given by the text [String] makes
    of it (a built-in function as V8 prints it). *)
Definition Object_prototype : list (string * string) :=
  [("constructor", "function Object() { [native code] }");
   ("__defineGetter__", "function __defineGetter__() { [native code] }");
   ("__defineSetter__", "function __defineSetter__() { [native code] }");
   ("hasOwnProperty", "function hasOwnProperty() { [native code] }");
   ("__lookupGetter__", "function __lookupGetter__() { [native code] }");
   ("__lookupSetter__", "function __lookupSetter__() { [native code] }");
   ("isPrototypeOf", "function isPrototypeOf() { [native code] }");
   ("propertyIsEnumerable", "function propertyIsEnumerable() { [native code] }");
   ("toString", "function toString() { [native code] }");
   ("valueOf", "function valueOf() { [native code] }");
   ("__proto__", "[object Object]");
   ("toLocaleString", "function toLocaleString() { [native code] }")].

(** [endpoints[resource] || `/rest/${resource}`], as the text the client
    puts into the URL. *)
Definition getResourceEndpoint (resource : string) : string :=
  match table_get resource endpoints with
  | Some e => e
  | None =>
      match table_get resource Object_prototype with
      | Some member => member
      | None => "/rest/" +++ resource
      end
  end.

Inductive Operation : Type := create | update | delete.

(** The query filter of [request]:
    [value !== undefined && value !== null && value !== ""]. *)
Definition is_blank (v : JsValue) : bool :=
  match v with
  | JUndefined | JNull => true
  | JStr s => (s =? "")%string
  | _ => false
  end.

(** The loop over [Object.entries(qs)] filling [params]. *)
Fixpoint fill_params (qs : DataObject) (params : URLSearchParams) : URLSearchParams :=
  match qs with
  | [] => params
  | (key, value) :: qs' =>
      fill_params qs'
        (if is_blank value then params else params_set key (js_String value) params)
  end.

Definition query_params (qs : DataObject) : URLSearchParams := fill_params qs [].

(** The URL [request] calls. *)
Definition request_url (this : TwentyCrmClient) (endpoint : string)
  (qs : option DataObject) : string :=
  let url := baseUrl this +++ endpoint in
  match qs with
  | Some q =>
      if (0 <? List.length (keys q))%nat then
        let queryString := params_toString (query_params q) in
        if negb (queryString =? "")%string then url +++ "?" +++ queryString else url
      else url
  | None => url
  end.

(** The body [request] attaches: none for GET and DELETE, none for an
    absent or empty mapping, [JSON.stringify(body)] otherwise. *)
Definition request_body (method : string) (body : option DataObject) : option string :=
  match body with
  | Some b =>
      if (0 <? List.length (keys b))%nat
         && negb (existsb (String.eqb (toUpperCase method)) ["GET"; "DELETE"])
      then JSON_stringify (JObj b)
      else None
  | None => None
  end.

Definition request_options (this : TwentyCrmClient) (method : string)
  (body : option DataObject) : RequestInit :=
  {| method := method;
     headers := [("Authorization", "Bearer " +++ apiKey this);
                 ("Content-Type", "application/json")];
     body := request_body method body |}.

(** The Structured API Error [request] throws on a response that is not ok. *)
Definition api_error (r : Response) : JsError :=
  {| message := "Twenty CRM API error (" +++ string_of_Z (status r) +++ "): " +++ text r;
     statusCode := Some (status r);
     response := Some {| response_status := status r; response_headers := entries r |};
     code := None |}.

(** The query part of a URL: nothing for an empty query string. *)
Definition query_suffix (params : URLSearchParams) : string :=
  let queryString := params_toString params in
  if (queryString =? "")%string then "" else "?" +++ queryString.

(** The text of a JSON object with the given members. *)
Definition json_object_text (members : list (string * string)) : string :=
  "{" +++ String.concat "," (map json_member_text members) +++ "}".

Definition first_is_slash (s : string) : bool :=
  match get 0 s with
  | Some c => Ascii.eqb c "/"
  | None => false
  end.

Definition last_is_slash (s : string) : bool :=
  match String.length s with
  | O => false
  | S i => match get i s with
           | Some c => Ascii.eqb c "/"
           | None => false
           end
  end.

(** Whether [url] has a slash at index [j] and another one just before it. *)
Definition doubled_slash_at (j : nat) (url : string) : bool :=
  match j with
  | O => false
  | S i =>
      match get i url, get j url with
      | Some a, Some c => Ascii.eqb a "/" && Ascii.eqb c "/"
      | _, _ => false
      end
  end.

(** ** Field transformations (the transforms part of the source) *)

(** The loop of [cleanObject] and of [buildFilterQuery]: an entry whose value
    is not [undefined], [null] or the empty string is assigned to the result
    ([cleaned[key] = value]). *)
Fixpoint copy_non_blank (entries : DataObject) (result : DataObject) : DataObject :=
  match entries with
  | [] => result
  | (key, value) :: rest =>
      copy_non_blank rest
        (if is_blank value then result else obj_assign key value result)
  end.

(** [buildFilterQuery(filters)]. *)
Definition buildFilterQuery (filters : DataObject) : DataObject :=
  copy_non_blank filters [].

(** [cleanObject(obj)]. *)
Definition cleanObject (obj : DataObject) : DataObject :=
  copy_non_blank obj [].

(** [toLinkObject(url)]; [None] is [undefined], as argument and as result. *)
Definition toLinkObject (url : option string) : option DataObject :=
  match url with
  | None => None
  | Some u =>
      if (u =? "")%string then None
      else
        let formattedUrl :=
          if negb (prefix "http://" u) && negb (prefix "https://" u)
          then "https://" +++ u
          else u in
        Some [("primaryLinkLabel", JStr "");
              ("primaryLinkUrl", JStr formattedUrl);
              ("secondaryLinks", JArr [])]
  end.

(** A link object or [undefined] as a value. *)
Definition link_or_undefined (link : option DataObject) : JsValue :=
  match link with
  | Some linkObj => JObj linkObj
  | None => JUndefined
  end.

(** The two blocks of [transformCompanyFields] for [linkedinUrl] and [xUrl]:
    a string under [from] becomes a link object under [to] when there is
    one, and [from] goes. *)
Definition move_link (from to : string) (transformed : DataObject) : DataObject :=
  match obj_prop from transformed with
  | JStr url =>
      obj_delete from
        (match toLinkObject (Some url) with
         | Some linkObj => obj_set to (JObj linkObj) transformed
         | None => transformed
         end)
  | _ => transformed
  end.

(** [transformCompanyFields(fields)]. *)
Definition transformCompanyFields (fields : DataObject) : DataObject :=
  let transformed := fields in
  let transformed :=
    match obj_prop "domainName" transformed with
    | JStr url =>
        match toLinkObject (Some url) with
        | Some linkObj => obj_set "domainName" (JObj linkObj) transformed
        | None => obj_delete "domainName" transformed
        end
    | _ => transformed
    end in
  let transformed := move_link "linkedinUrl" "linkedinLink" transformed in
  move_link "xUrl" "xLink" transformed.

(** [typeof v === "string" && v], with the string. *)
Definition non_empty_string (v : JsValue) : option string :=
  match v with
  | JStr s => if (s =? "")%string then None else Some s
  | _ => None
  end.

Definition directFields : list string :=
  ["jobTitle"; "city"; "avatarUrl"; "companyId"; "position"].

(** The loop over [directFields] of [transformPersonFields]. *)
Fixpoint copy_direct (names : list string) (fields transformed : DataObject)
  : DataObject :=
  match names with
  | [] => transformed
  | field :: rest =>
      copy_direct rest fields
        (if is_blank (obj_prop field fields) then transformed
         else obj_set field (obj_prop field fields) transformed)
  end.

(** [transformPersonFields(fields)]. *)
Definition transformPersonFields (fields : DataObject) : DataObject :=
  let transformed : DataObject := [] in
  let transformed :=
    if truthy (js_or (obj_prop "firstName" fields) (obj_prop "lastName" fields))
    then obj_set "name"
           (JObj [("firstName", js_or (obj_prop "firstName" fields) (JStr ""));
                  ("lastName", js_or (obj_prop "lastName" fields) (JStr ""))])
           transformed
    else transformed in
  let transformed :=
    match non_empty_string (obj_prop "email" fields) with
    | Some email =>
        obj_set "emails"
          (JObj [("primaryEmail", JStr email); ("additionalEmails", JArr [])])
          transformed
    | None => transformed
    end in
  let transformed :=
    match non_empty_string (obj_prop "phone" fields) with
    | Some phone =>
        obj_set "phones"
          (JObj [("primaryPhoneNumber", JStr phone);
                 ("primaryPhoneCountryCode", JStr "");
                 ("primaryPhoneCallingCode", JStr "");
                 ("additionalPhones", JArr [])])
          transformed
    | None => transformed
    end in
  let transformed :=
    match non_empty_string (obj_prop "linkedinUrl" fields) with
    | Some url =>
        obj_set "linkedinLink" (link_or_undefined (toLinkObject (Some url))) transformed
    | None => transformed
    end in
  let transformed :=
    match non_empty_string (obj_prop "xUrl" fields) with
    | Some url =>
        obj_set "xLink" (link_or_undefined (toLinkObject (Some url))) transformed
    | None => transformed
    end in
  copy_direct directFields fields transformed.

(** [transformNoteFields(fields)]. *)
Definition transformNoteFields (fields : DataObject) : DataObject :=
  let transformed := fields in
  if existsb (String.eqb "body") (keys transformed)
  then obj_delete "body" transformed
  else transformed.

(** ** JSON.stringify(value, null, 2) *)

(** The line feed, code 10. *)
Definition nl : string := String (Ascii false true false true false false false false) EmptyString.

(** [JSON.stringify(v, null, 2)] at the given indentation: an empty array or
    object on one line, otherwise one element or member per line, two spaces
    deeper, and a space after the colon of a member. *)
Fixpoint JSON_stringify_indented (indent : string) (v : JsValue) : option string :=
  match v with
  | JArr l =>
      match l with
      | [] => Some "[]"
      | _ :: _ =>
          let inner := indent +++ "  " in
          Some ("[" +++ nl +++ inner +++
                String.concat ("," +++ nl +++ inner)
                  (map (fun x => match JSON_stringify_indented inner x with
                                 | Some s => s
                                 | None => "null"
                                 end) l)
                +++ nl +++ indent +++ "]")
      end
  | JObj o =>
      let inner := indent +++ "  " in
      match
        (fix members (o : list (string * JsValue)) : list string :=
           match o with
           | [] => []
           | (k, x) :: o' =>
               match JSON_stringify_indented inner x with
               | Some s => (json_quote k +++ ": " +++ s) :: members o'
               | None => members o'
               end
           end) o
      with
      | [] => Some "{}"
      | m :: ms =>
          Some ("{" +++ nl +++ inner +++
                String.concat ("," +++ nl +++ inner) (m :: ms)
                +++ nl +++ indent +++ "}")
      end
  | _ => JSON_stringify v
  end.

(** [JSON.stringify(value, null, 2)]. *)
Definition JSON_stringify_2 (value : JsValue) : option string :=
  JSON_stringify_indented "" value.

(** ** The helpers of the engagement tools (src/src/tools/engagement.ts) *)

Record ListArgs : Type := {
  limit_arg : option Z;
  returnAll_arg : option bool
}.

(** [args.limit || 20]. *)
Definition limit_or_20 (limit : option Z) : Z :=
  match limit with
  | Some n => if n =? 0 then 20 else n
  | None => 20
  end.

(** [eqFilter(field, value)]. *)
Definition eqFilter (field value : string) : DataObject :=
  [("filter", JStr (field +++ "[eq]:" +++ value))].

(** [typeof v === "object"]. *)
Definition typeof_object (v : JsValue) : bool :=
  match v with JNull | JArr _ | JObj _ => true | _ => false end.

(** [a ?? b]. *)
Definition nullish_or (a b : JsValue) : JsValue :=
  match a with
  | JUndefined | JNull => b
  | _ => a
  end.

(** [extractItems(response, nestedKey)]. *)
Definition extractItems (response : JsValue) (nestedKey : string)
  : Result (list JsValue) :=
  if negb (truthy response) || negb (typeof_object response) then Return []
  else
    match read_prop response "data" with
    | Throw t => Throw t
    | Return d =>
        let data := nullish_or d response in
        match data with
        | JArr items => Return items
        | _ =>
            if truthy data && typeof_object data then
              match read_prop data nestedKey with
              | Throw t => Throw t
              | Return (JArr items) => Return items
              | Return _ => Return []
              end
            else Return []
        end
    end.

(** [items.map((item) => item[idField])]. *)
Fixpoint map_prop (idField : string) (items : list JsValue) : Result (list JsValue) :=
  match items with
  | [] => Return []
  | item :: rest =>
      match read_prop item idField with
      | Throw t => Throw t
      | Return value =>
          match map_prop idField rest with
          | Throw t => Throw t
          | Return values => Return (value :: values)
          end
      end
  end.

(** [.filter((value) => typeof value === "string")]. *)
Fixpoint strings_of (values : list JsValue) : list string :=
  match values with
  | [] => []
  | JStr s :: rest => s :: strings_of rest
  | _ :: rest => strings_of rest
  end.

(** [Array.from(new Set(ids))]: the first occurrence of each id, in order;
    [seen] holds the ids already in the set. *)
Fixpoint set_of (seen ids : list string) : list string :=
  match ids with
  | [] => []
  | id :: rest =>
      if existsb (String.eqb id) seen then set_of seen rest
      else id :: set_of (id :: seen) rest
  end.

(** [uniqueIds(items, idField)]. *)
Definition uniqueIds (items : list JsValue) (idField : string) : Result (list string) :=
  match map_prop idField items with
  | Throw t => Throw t
  | Return values => Return (set_of [] (strings_of values))
  end.

(** [`${name}[in]:${JSON.stringify(ids)}`] as a query. *)
Definition inFilter (name : string) (ids : list string) : DataObject :=
  [("filter",
    JStr (name +++ "[in]:" +++
          match JSON_stringify (JArr (map JStr ids)) with
          | Some s => s
          | None => "undefined"
          end))].

(** ** Tool results *)

(** What a tool callback returns: [{ content: [{ type: "text", text }] }],
    with [isError: true] on the error paths; [text] is [undefined] when
    [JSON.stringify] answers [undefined]. *)
Record CallToolResult : Type := {
  content_text : option string;
  isError : bool
}.

(** [error instanceof Error ? error.message : String(error)]. *)
Definition error_text (error : Thrown) : string :=
  match error with
  | ThrownError e => message e
  | ThrownValue v => js_String v
  end.

(** The result of a callback that went through. *)
Definition tool_ok (result : JsValue) : CallToolResult :=
  {| content_text := JSON_stringify_2 result; isError := false |}.

(** The result of a callback on an error path. *)
Definition tool_error (text : string) : CallToolResult :=
  {| content_text := Some text; isError := true |}.

(** [{ ...a, ...b }]: the keys of [a], then each key of [b] defined on
    top. *)
Definition merge (a b : DataObject) : DataObject :=
  fold_left (fun result kv => obj_define (fst kv) (snd kv) result) b a.

(** The cast of a parsed value to [DataObject]. *)
Definition as_record (item : JsValue) : DataObject :=
  match item with
  | JObj o => o
  | _ => []
  end.

(** An [async] computation around a loop that need not end: [None] when
    the rounds allowed did not suffice. *)
Definition Looping (A : Type) : Type := Trace -> option (Result A * Trace).

Definition looping {A} (m : Promise A) : Looping A := fun tr => Some (m tr).

Definition bind_looping {A B} (m : Looping A) (k : A -> Looping B) : Looping B :=
  fun tr =>
    match m tr with
    | None => None
    | Some (Return a, tr') => k a tr'
    | Some (Throw t, tr') => Some (Throw t, tr')
    end.

Notation "x <~ m ;; k" := (bind_looping m (fun x => k))
  (at level 100, m at next level, right associativity).

(** The [try { ... } catch (error) { ... }] of a tool callback: what the
    body returns, or the error result with the text of the error after
    [label]. *)
Definition catching (label : string) (m : Promise CallToolResult)
  : Trace -> CallToolResult * Trace :=
  fun tr =>
    match m tr with
    | (Return r, tr') => (r, tr')
    | (Throw error, tr') => (tool_error (label +++ error_text error), tr')
    end.

Definition catching_looping (label : string) (m : Looping CallToolResult)
  : Trace -> option (CallToolResult * Trace) :=
  fun tr =>
    match m tr with
    | None => None
    | Some (Return r, tr') => Some (r, tr')
    | Some (Throw error, tr') => Some (tool_error (label +++ error_text error), tr')
    end.

(** ** The environment of the client *)

(** What the client takes from its environment: the global [fetch] and
    [JSON.parse], [String.prototype.toLowerCase] (the case mapping of
    Unicode is the engine's), and the exports of retry.ts it imports.
    [fetch] answers given all that happened before it was called;
    [calculateDelay] draws its jitter from [Math.random] and
    [extractRateLimitInfo] may read the clock, so both see the history too.
    A SyntaxError of [JSON.parse] is a [Throw].  Where several calls are
    under way at once, the environment also decides which of them goes on
    first: [settles tr n] is the one of the [n] suspended calls whose
    request or timer settles first after the history [tr]. *)
Class Runtime : Type := {
  fetch : Trace -> string -> RequestInit -> FetchResult;
  JSON_parse : string -> Result JsValue;
  toLowerCase : string -> string;
  settles : Trace -> nat -> nat;
  defaultMaxDelayMs : Z;
  isRetryableError : Thrown -> bool;
  calculateDelay : Trace -> Z -> IRetryConfig -> Z;
  extractRateLimitInfo : Trace -> Thrown -> RateLimitInfo;
  getErrorContext : Thrown -> Z -> Z -> string
}.

(** ** A scripted transport, after the helpers of tests/client.test.ts *)

Module Mock.

(** [mockResponse(data, status)]. *)
Definition mockResponse (data : JsValue) (status : Z) : Response :=
  {| ok := (200 <=? status) && (status <? 300);
     status := status;
     text := match JSON_stringify data with Some s => s | None => "" end;
     entries := [] |}.

(** [mockErrorResponse(status, body, headers)]. *)
Definition mockErrorResponse (status : Z) (body : string)
  (headers : list (string * string)) : Response :=
  {| ok := false; status := status; text := body; entries := headers |}.

(** [mockFetch.mockResolvedValueOnce(r1)...mockResolvedValue(r)]: the n-th
    call of [fetch] gets the n-th scripted result, later calls the last one. *)
Definition mockFetch (once : list FetchResult) (always : FetchResult)
  : Trace -> string -> RequestInit -> FetchResult :=
  fun tr _ _ => nth (List.length (fetches tr)) once always.

(** [JSON.parse] on the texts [JSON.stringify] writes for the given values;
    any other text is a SyntaxError. *)
Fixpoint parse_among (values : list JsValue) (text : string) : Result JsValue :=
  match values with
  | [] => Throw (ThrownError (new_Error "Unexpected token in JSON"))
  | v :: values' =>
      match JSON_stringify v with
      | Some s => if (s =? text)%string then Return v else parse_among values' text
      | None => parse_among values' text
      end
  end.

Definition credentials : ITwentyCrmCredentials :=
  {| apiUrl := "https://crm.example.com"; credentials_apiKey := "test-key" |}.

Definition client : TwentyCrmClient := constructor credentials.

(** A retry policy for the scripted runs: the classifier of section 4.2,
    backoff without jitter, no [Retry-After], the phrases of section 4.2. *)
Definition backoff (_ : Trace) (attempt : Z) (config : IRetryConfig) : Z :=
  Z.min (baseDelayMs config * 2 ^ attempt) (maxDelayMs config).

Definition context (error : Thrown) (attempt _ : Z) : string :=
  match error with
  | ThrownError e =>
      match statusCode e with
      | Some 429 => "Rate limit exceeded. "
      | Some 503 => "Service temporarily unavailable. "
      | Some 502 | Some 504 => "Server gateway error. "
      | _ => ""
      end
  | ThrownValue _ => ""
  end +++
  (if 0 <? attempt
   then "Failed after " +++ string_of_Z (attempt + 1) +++ " attempt(s). "
   else "").

(** [toLowerCase] for the scripted runs, whose texts are made of ASCII and
    of letters of the Latin-1 supplement: the capital letters of ASCII and,
    in UTF-8, those of the Latin-1 supplement (the byte C3 followed by a
    byte from 80 to 9E other than 97, the multiplication sign) go to their
    small letters; every other byte is kept. *)
Fixpoint lowerCase (s : string) : string :=
  match s with
  | EmptyString => EmptyString
  | String c s' =>
      match s' with
      | String c' s'' =>
          if ((nat_of_ascii c =? 195) && (128 <=? nat_of_ascii c')
              && (nat_of_ascii c' <=? 158) && negb (nat_of_ascii c' =? 151))%nat
          then String c (String (ascii_of_nat (nat_of_ascii c' + 32)) (lowerCase s''))
          else String (lower_ascii c) (lowerCase s')
      | EmptyString => String (lower_ascii c) EmptyString
      end
  end.



(** The order of the scripted runs: of the calls under way, the one that
    was started first goes on first. *)
Definition first_started (_ : Trace) (_ : nat) : nat := 0%nat.

(** [mockFetch.mock.calls.map(call => call[0])]: the URLs fetched. *)
Fixpoint urls (tr : Trace) : list string :=
  match tr with
  | [] => []
  | EvFetch url _ :: tr' => url :: urls tr'
  | EvSleep _ :: tr' => urls tr'
  end.

(** The options of the GET requests of [client]. *)
Definition get_options : RequestInit :=
  {| method := "GET";
     headers := [("Authorization", "Bearer test-key");
                 ("Content-Type", "application/json")];
     body := None |}.

(** [{ data: rows }]. *)
Definition page (rows : list JsValue) : JsValue := JObj [("data", JArr rows)].

(** [{ id, name }]. *)
Definition company (id : Z) (name : string) : JsValue :=
  JObj [("id", JNum id); ("name", JStr name)].

(** [Array.from({ length: n }, (_, i) => ({ id: i }))]. *)
Definition numbered (n : nat) : list JsValue :=
  map (fun i => JObj [("id", JNum (Z.of_nat i))]) (seq 0 n).

(** The two methods every scenario looks at: what was returned or thrown,
    and the URLs fetched. *)
Definition observed {A} (run : Result A * Trace) : Result A * list string :=
  (fst run, urls (snd run)).

Definition runtime (once : list FetchResult) (always : FetchResult)
  (values : list JsValue) : Runtime :=
  {| fetch := mockFetch once always;
     JSON_parse := parse_among values;
     toLowerCase := lowerCase;
     settles := first_started;
     defaultMaxDelayMs := 30000;
     isRetryableError := RetrySpec.isRetryableError;
     calculateDelay := backoff;
     extractRateLimitInfo := fun _ _ => {| retryAfter := None |};
     getErrorContext := context |}.

End Mock.

Definition inspect {A} (a : A) : {b : A | a = b} := exist _ a eq_refl.

Section Client.

Context {runtime : Runtime}.

Variable this : TwentyCrmClient.

(** Modelled from the spec: [DEFAULT_RETRY_CONFIG] of retry.ts, by section
    4.2: three retries, base delay 1000 ms, jitter of a quarter; the cap on
    the delay is not given there and stays a parameter. *)
Definition DEFAULT_RETRY_CONFIG : IRetryConfig :=
  {| maxRetries := 3; baseDelayMs := 1000; maxDelayMs := defaultMaxDelayMs;
     jitterFactor := Qmake 1 4 |}.

(** [await fetch(url, options)]. *)
Definition await_fetch (url : string) (options : RequestInit) : Promise Response :=
  fun tr =>
    match fetch tr url options with
    | Resolved r => (Return r, tr ++ [EvFetch url options])
    | Rejected t => (Throw t, tr ++ [EvFetch url options])
    end.

(** [await sleep(ms)]. *)
Definition sleep (ms : Z) : Promise unit :=
  fun tr => (Return tt, tr ++ [EvSleep ms]).

(** [request(method, endpoint, body, qs)]. *)
Definition request (method endpoint : string) (body qs : option DataObject)
  : Promise JsValue :=
  let url := request_url this endpoint qs in
  let options := request_options this method body in
  response <- await_fetch url options ;;
  if negb (ok response) then throw (ThrownError (api_error response))
  else if (text response =? "")%string then ret (JObj [])
  else lift (JSON_parse (text response)).

(** [rateLimitInfo.retryAfter || calculateDelay(attempt, config)]. *)
Definition retry_delay (tr : Trace) (error : Thrown) (attempt : Z)
  (config : IRetryConfig) : Z :=
  match retryAfter (extractRateLimitInfo tr error) with
  | Some ms => if ms =? 0 then calculateDelay tr attempt config else ms
  | None => calculateDelay tr attempt config
  end.

(** The error the retrying executor throws when it gives up. *)
Definition wrapped_error (error : Thrown) (attempt : Z) (config : IRetryConfig)
  : Thrown :=
  ThrownError
    (new_Error ("Twenty CRM API error: "
                +++ getErrorContext error attempt (maxRetries config)
                +++ error_message error)).

(** The [for] loop of [requestWithRetry], entered at [attempt] with the
    current [lastError]. *)
Equations? retry_loop (method endpoint : string) (body qs : option DataObject)
  (config : IRetryConfig) (attempt : Z) (lastError : Thrown) (tr : Trace)
  : Result JsValue * Trace
  by wf (Z.to_nat (maxRetries config + 1 - attempt)) lt :=
retry_loop method endpoint body qs config attempt lastError tr
  with (attempt <=? maxRetries config) := {
  | false := (Throw lastError, tr)
  | true with request method endpoint body qs tr := {
    | (Return v, tr') := (Return v, tr')
    | (Throw error, tr')
        with inspect (isRetryableError error && (attempt <? maxRetries config)) := {
      | exist _ false giveUp := (Throw (wrapped_error error attempt config), tr')
      | exist _ true shouldRetry :=
          retry_loop method endpoint body qs config (attempt + 1) error
            (snd (sleep (retry_delay tr' error attempt config) tr')) } } }.
Proof.
  apply andb_prop in shouldRetry. destruct shouldRetry as [_ Hlt].
  apply Z.ltb_lt in Hlt. lia.
Qed.

(** [requestWithRetry(method, endpoint, body, qs, retryConfig)];
    [lastError] starts [undefined]. *)
Definition requestWithRetry (method endpoint : string) (body qs : option DataObject)
  (retryConfig : PartialRetryConfig) : Promise JsValue :=
  retry_loop method endpoint body qs (merge_config DEFAULT_RETRY_CONFIG retryConfig)
    0 (ThrownValue JUndefined).

(** *** The same calls, started and followed from one [await] to the next *)

(** [await fetch(url, options)], started: the call of [fetch] is made at
    once, and the transport fixes its answer given the history at the call;
    the caller goes on when it is resumed.  [await response.text()], which
    follows it, makes no call of its own and is taken together with it. *)
Definition fetch_task (url : string) (options : RequestInit) : Async Response :=
  fun tr =>
    let answer := fetch tr url options in
    (Suspended (fun tr' => (Settled (match answer with
                                     | Resolved r => Return r
                                     | Rejected t => Throw t
                                     end), tr')),
     tr ++ [EvFetch url options]).

(** [await sleep(ms)], started: the timer is set at once. *)
Definition sleep_task (ms : Z) : Async unit :=
  fun tr => (Suspended (fun tr' => (Settled (Return tt), tr')), tr ++ [EvSleep ms]).

(** [request(method, endpoint, body, qs)], started. *)
Definition request_task (method endpoint : string) (body qs : option DataObject)
  : Async JsValue :=
  let url := request_url this endpoint qs in
  let options := request_options this method body in
  response <~~ fetch_task url options ;;
  if negb (ok response) then throw_async (ThrownError (api_error response))
  else if (text response =? "")%string then ret_async (JObj [])
  else lift_async (JSON_parse (text response)).

(** The [for] loop of [requestWithRetry], started at [attempt] with
    [rounds] rounds to go ([maxRetries + 1 - attempt] of them); the delay of
    a wait is computed when the failed attempt is known, with the history
    at that moment. *)
Fixpoint retry_task (rounds : nat) (method endpoint : string)
  (body qs : option DataObject) (config : IRetryConfig) (attempt : Z)
  (lastError : Thrown) : Async JsValue :=
  match rounds with
  | O => throw_async lastError
  | S rounds' =>
      try_catch_async (request_task method endpoint body qs)
        (fun error =>
           if isRetryableError error && (attempt <? maxRetries config)
           then fun tr =>
                  (_ <~~ sleep_task (retry_delay tr error attempt config) ;;
                   retry_task rounds' method endpoint body qs config (attempt + 1) error)
                    tr
           else throw_async (wrapped_error error attempt config))
  end.

(** [requestWithRetry(method, endpoint, body, qs, retryConfig)], started. *)
Definition requestWithRetry_task (method endpoint : string)
  (body qs : option DataObject) (retryConfig : PartialRetryConfig) : Async JsValue :=
  let config := merge_config DEFAULT_RETRY_CONFIG retryConfig in
  retry_task (Z.to_nat (maxRetries config + 1)) method endpoint body qs config
    0 (ThrownValue JUndefined).

(** [await Promise.all(promises)] for calls that are started by the [map]
    before it: they are started in order, then each goes on when the
    environment lets it. *)
Definition Promise_all {A} (promises : list (Async A)) : Promise (list A) :=
  fun tr => let (g, tr') := start_all promises tr in run_group settles g tr'.

(** [response.data || response]; reading [data] of [null] throws. *)
Definition response_data (response : JsValue) : Result JsValue :=
  match read_prop response "data" with
  | Return d => Return (js_or d response)
  | Throw t => Throw t
  end.

(** [Array.isArray(data) ? data : [data]]. *)
Definition to_items (data : JsValue) : list JsValue :=
  match data with JArr l => l | _ => [data] end.

(** The [while] condition of [requestAllItems]:
    [d && Array.isArray(d) && d.length === limit] for [d = responseData.data]. *)
Definition more_pages (d limit : JsValue) : bool :=
  truthy d && isArray d &&
  match d with
  | JArr l => num_strict_eq (Z.of_nat (List.length l)) limit
  | _ => false
  end.

(** The [do ... while] loop of [requestAllItems]; [None] when [fuel] rounds
    were not enough. *)
Fixpoint paginate (fuel : nat) (method endpoint : string) (body : option DataObject)
  (paginatedQs : DataObject) (returnData : list JsValue) (tr : Trace)
  : option (Result (list JsValue) * Trace) :=
  match fuel with
  | O => None
  | S fuel' =>
      match requestWithRetry method endpoint body (Some paginatedQs) no_override tr with
      | (Throw t, tr') => Some (Throw t, tr')
      | (Return responseData, tr') =>
          match read_prop responseData "data" with
          | Throw t => Some (Throw t, tr')
          | Return d =>
              let data := js_or d responseData in
              let returnData' := returnData ++ to_items data in
              let paginatedQs' :=
                obj_set "offset"
                  (js_add (obj_prop "offset" paginatedQs) (obj_prop "limit" paginatedQs))
                  paginatedQs in
              if more_pages d (obj_prop "limit" paginatedQs')
              then paginate fuel' method endpoint body paginatedQs' returnData' tr'
              else Some (Return returnData', tr')
          end
      end
  end.

(** [{ ...qs }] with [limit = limit || 200] and [offset = 0]. *)
Definition first_page_qs (qs : option DataObject) : DataObject :=
  let paginatedQs := match qs with Some q => q | None => [] end in
  let paginatedQs := obj_set "limit" (js_or (obj_prop "limit" paginatedQs) (JNum 200)) paginatedQs in
  obj_set "offset" (JNum 0) paginatedQs.

(** [requestAllItems(method, endpoint, body, qs)]. *)
Definition requestAllItems (fuel : nat) (method endpoint : string)
  (body qs : option DataObject) (tr : Trace)
  : option (Result (list JsValue) * Trace) :=
  paginate fuel method endpoint body (first_page_qs qs) [] tr.

(** [{ ...item, _objectType: objectType }]. *)
Definition tag (objectType : string) (item : JsValue) : JsValue :=
  JObj (obj_set "_objectType" (JStr objectType) (spread item)).

(** The query of a search request: [{ search: query, limit }]. *)
Definition search_qs (query : string) (limit : Z) : DataObject :=
  [("search", JStr query); ("limit", JNum limit)].

(** The [try] block of one element of [searchPromises]. *)
Definition search_body (query : string) (limit : Z) (objectType : string)
  : Async (list JsValue) :=
  response <~~ requestWithRetry_task "GET" ("/rest/" +++ objectType) None
                 (Some (search_qs query limit)) no_override ;;
  data <~~ lift_async (response_data response) ;;
  ret_async (map (tag objectType) (to_items data)).

(** One element of [searchPromises]: the call the [map] starts for a type. *)
Definition search_call (query : string) (limit : Z) (objectType : string)
  : Async (list JsValue) :=
  try_catch_async (search_body query limit objectType) (fun _ => ret_async []).


(** [searchRecords(query, objectTypes, limit = 20)]. *)
Definition searchRecords (query : string) (objectTypes : list string)
  (limit : option Z) : Promise (list JsValue) :=
  let limit := match limit with Some n => n | None => 20 end in
  searchResults <- Promise_all (map (search_call query limit) objectTypes) ;;
  ret (concat searchResults).

(** The comparison of the callback of [data.find] in the fallback of
    [findRecordByField]: without regard to case when the value of the field
    is a string, on [String(itemValue)] otherwise. *)
Definition field_value_matches (fieldValue : string) (itemValue : JsValue) : bool :=
  match itemValue with
  | JStr s => (toLowerCase s =? toLowerCase fieldValue)%string
  | _ => (js_String itemValue =? fieldValue)%string
  end.

(** The callback itself; [item[fieldName]] throws on [null]. *)
Definition field_matches (fieldName fieldValue : string) (item : JsValue)
  : Result bool :=
  match read_prop item fieldName with
  | Throw t => Throw t
  | Return itemValue => Return (field_value_matches fieldValue itemValue)
  end.

(** [data.find(callback)]: the first item the callback accepts, [undefined]
    when there is none; an exception of the callback ends the scan. *)
Fixpoint array_find (callback : JsValue -> Result bool) (data : list JsValue)
  : Result JsValue :=
  match data with
  | [] => Return JUndefined
  | item :: data' =>
      match callback item with
      | Throw t => Throw t
      | Return true => Return item
      | Return false => array_find callback data'
      end
  end.

(** The query of the primary path:
    [{ filter: JSON.stringify({ [fieldName]: { eq: fieldValue } }), limit: 1 }]. *)
Definition filter_qs (fieldName fieldValue : string) : DataObject :=
  [("filter",
    match JSON_stringify (JObj [(fieldName, JObj [("eq", JStr fieldValue)])]) with
    | Some s => JStr s
    | None => JUndefined
    end);
   ("limit", JNum 1)].

(** The primary path of [findRecordByField]. *)
Definition find_by_filter (endpoint fieldName fieldValue : string) : Promise JsValue :=
  response <- requestWithRetry "GET" endpoint None
                (Some (filter_qs fieldName fieldValue)) no_override ;;
  data <- lift (response_data response) ;;
  match data with
  | JArr (first :: _) => ret first
  | _ => ret JNull
  end.

(** The fallback path of [findRecordByField]. *)
Definition find_by_search (endpoint fieldName fieldValue : string) : Promise JsValue :=
  response <- requestWithRetry "GET" endpoint None
                (Some (search_qs fieldValue 10)) no_override ;;
  data <- lift (response_data response) ;;
  match data with
  | JArr rows =>
      found <- lift (array_find (field_matches fieldName fieldValue) rows) ;;
      ret (js_or found JNull)
  | _ => ret JNull
  end.

(** [findRecordByField(resource, fieldName, fieldValue)]. *)
Definition findRecordByField (resource fieldName fieldValue : string) : Promise JsValue :=
  let endpoint := getResourceEndpoint resource in
  try_catch (find_by_filter endpoint fieldName fieldValue)
    (fun _ =>
       try_catch (find_by_search endpoint fieldName fieldValue)
         (fun _ => ret JNull)).

(** The request [bulkOperation] issues for one item. *)
Definition bulk_request (operation : Operation) (endpoint : string) (item : DataObject)
  : Async JsValue :=
  match operation with
  | create => requestWithRetry_task "POST" endpoint (Some item) None no_override
  | update =>
      let id := obj_prop "id" item in
      let updateData := obj_delete "id" item in
      requestWithRetry_task "PUT" (endpoint +++ "/" +++ js_String id) (Some updateData)
        None no_override
  | delete =>
      let id := obj_prop "id" item in
      requestWithRetry_task "DELETE" (endpoint +++ "/" +++ js_String id) None None
        no_override
  end.

Definition success_result (response : JsValue) : JsValue :=
  JObj [("success", JBool true); ("data", response)].

Definition failure_result (error : Thrown) (item : DataObject) : JsValue :=
  JObj [("success", JBool false); ("error", JStr (error_message error));
        ("item", JObj item)].

(** One element of [promises]: the call the [map] starts for an item. *)
Definition bulk_item (operation : Operation) (endpoint : string) (item : DataObject)
  : Async JsValue :=
  try_catch_async
    (response <~~ bulk_request operation endpoint item ;;
     ret_async (success_result response))
    (fun error => ret_async (failure_result error item)).

Definition concurrencyLimit : nat := 5.

(** The [for] loop of [bulkOperation], entered at index [i]. *)
Equations? bulk_loop (operation : Operation) (endpoint : string)
  (items : list DataObject) (i : nat) (results : list JsValue) (tr : Trace)
  : Result (list JsValue) * Trace
  by wf (List.length items - i)%nat lt :=
bulk_loop operation endpoint items i results tr
  with inspect (i <? List.length items)%nat := {
  | exist _ false outside := (Return results, tr)
  | exist _ true inside
      with Promise_all
             (map (bulk_item operation endpoint)
                (slice i (i + concurrencyLimit) items)) tr := {
    | (Return batchResults, tr') :=
        bulk_loop operation endpoint items (i + concurrencyLimit)%nat
          (results ++ batchResults) tr'
    | (Throw t, tr') := (Throw t, tr') } }.
Proof.
  apply Nat.ltb_lt in inside. unfold concurrencyLimit. lia.
Qed.

(** [bulkOperation(operation, resource, items)]. *)
Definition bulkOperation (operation : Operation) (resource : string)
  (items : list DataObject) : Promise (list JsValue) :=
  bulk_loop operation (getResourceEndpoint resource) items 0%nat [].

(** The shape of a run of attempts: a fetch, then a sleep and a fetch for
    each retry ([true] is a fetch, [false] a sleep). *)
Fixpoint attempts_shape (retries : nat) : list bool :=
  true :: match retries with
          | O => []
          | S n => false :: attempts_shape n
          end.


(** The attempt made at [attempt] with history [tr], and the ones that
    follow it up to [retries] in all, fail on a retryable error; the attempt
    after them returns [v] and leaves the history [final]. *)
Fixpoint attempts_recover (meth endpoint : string) (payload qs : option DataObject)
  (config : IRetryConfig) (retries : nat) (attempt : Z) (tr : Trace)
  (v : JsValue) (final : Trace) : Prop :=
  match retries with
  | O => request meth endpoint payload qs tr = (Return v, final)
  | S n =>
      match request meth endpoint payload qs tr with
      | (Throw error, tr') =>
          isRetryableError error = true /\
          attempts_recover meth endpoint payload qs config n (attempt + 1)
            (snd (sleep (retry_delay tr' error attempt config) tr')) v final
      | (Return _, _) => False
      end
  end.

(** A wait of the retry loop: the [retryAfter] of the rate limit
    information when there is one other than 0, the computed backoff
    otherwise. *)
Definition is_retry_wait (config : IRetryConfig) (ms : Z) : Prop :=
  exists tr0 error attempt,
    0 <= attempt < maxRetries config /\
    isRetryableError error = true /\
    match retryAfter (extractRateLimitInfo tr0 error) with
    | Some after => if after =? 0 then ms = calculateDelay tr0 attempt config
                    else ms = after
    | None => ms = calculateDelay tr0 attempt config
    end.

(** The one call of [fetch] that [request] makes. *)
Definition request_event (meth endpoint : string) (payload qs : option DataObject)
  : Event :=
  EvFetch (request_url this endpoint qs) (request_options this meth payload).

(** The call of [fetch] that [bulkOperation] makes for an item, at each
    attempt. *)
Definition bulk_event (operation : Operation) (endpoint : string) (item : DataObject)
  : Event :=
  match operation with
  | create => request_event "POST" endpoint (Some item) None
  | update =>
      request_event "PUT" (endpoint +++ "/" +++ js_String (obj_prop "id" item))
        (Some (obj_delete "id" item)) None
  | delete =>
      request_event "DELETE" (endpoint +++ "/" +++ js_String (obj_prop "id" item))
        None None
  end.

(** *** The engagement helpers that call the client *)

(** [const limit = 200] of [listAllNested]. *)
Definition nested_limit : Z := 200.

(** The query of a round of [listAllNested]:
    [{ ...baseQs, limit, offset }]. *)
Definition nested_qs (baseQs : DataObject) (offset : Z) : DataObject :=
  obj_set "offset" (JNum offset) (obj_set "limit" (JNum nested_limit) baseQs).

(** The [while (true)] loop of [listAllNested], entered with [offset] and
    [all]. *)
Fixpoint listAllNested_loop (fuel : nat) (endpoint nestedKey : string)
  (baseQs : DataObject) (offset : Z) (all : list JsValue) : Looping (list JsValue) :=
  fun tr =>
    match fuel with
    | O => None
    | S fuel' =>
        match request "GET" endpoint None (Some (nested_qs baseQs offset)) tr with
        | (Throw t, tr') => Some (Throw t, tr')
        | (Return response, tr') =>
            match extractItems response nestedKey with
            | Throw t => Some (Throw t, tr')
            | Return items =>
                let all' := all ++ items in
                if Z.of_nat (List.length items) <? nested_limit
                then Some (Return all', tr')
                else listAllNested_loop fuel' endpoint nestedKey baseQs
                       (offset + nested_limit) all' tr'
            end
        end
    end.

(** [listAllNested(client, endpoint, nestedKey, baseQs)]. *)
Definition listAllNested (fuel : nat) (endpoint nestedKey : string)
  (baseQs : DataObject) : Looping (list JsValue) :=
  listAllNested_loop fuel endpoint nestedKey baseQs 0 [].

(** [listByIds(client, endpoint, nestedKey, ids, args)]. *)
Definition listByIds (fuel : nat) (endpoint nestedKey : string) (ids : list string)
  (args : ListArgs) : Looping (list JsValue) :=
  match ids with
  | [] => looping (ret [])
  | _ :: _ =>
      let qs := inFilter "id" ids in
      if match returnAll_arg args with Some b => b | None => false end
      then listAllNested fuel endpoint nestedKey qs
      else
        let qs := obj_set "limit" (JNum (limit_or_20 (limit_arg args))) qs in
        looping (response <- request "GET" endpoint None (Some qs) ;;
                 lift (extractItems response nestedKey))
  end.

(** [getPeopleIdsByCompany(client, companyId)]. *)
Definition getPeopleIdsByCompany (fuel : nat) (companyId : string)
  : Looping (list string) :=
  people <~ listAllNested fuel "/rest/people" "people" (eqFilter "companyId" companyId) ;;
  looping (lift (uniqueIds people "id")).

(** [listParticipantRowsByPersonIds(client, endpoint, nestedKey, personIds)]. *)
Definition listParticipantRowsByPersonIds (fuel : nat) (endpoint nestedKey : string)
  (personIds : list string) : Looping (list JsValue) :=
  match personIds with
  | [] => looping (ret [])
  | [personId] =>
      listAllNested fuel endpoint nestedKey (eqFilter "personId" personId)
  | _ :: _ :: _ =>
      listAllNested fuel endpoint nestedKey (inFilter "personId" personIds)
  end.

(** *** Tool callbacks *)

(** The callback of [get_messages_by_company] (engagement.ts). *)
Definition get_messages_by_company (fuel : nat) (companyId : string) (args : ListArgs)
  : Trace -> option (CallToolResult * Trace) :=
  catching_looping "Error getting messages by company: "
    (personIds <~ getPeopleIdsByCompany fuel companyId ;;
     participants <~ listParticipantRowsByPersonIds fuel
                       "/rest/messageParticipants" "messageParticipants" personIds ;;
     messageIds <~ looping (lift (uniqueIds participants "messageId")) ;;
     result <~ listByIds fuel "/rest/messages" "messages" messageIds args ;;
     looping (ret (tool_ok (JArr result)))).

(** The object types the [search] tool takes when none are given. *)
Definition default_objectTypes : list string :=
  ["people"; "companies"; "opportunities"; "notes"; "tasks"].

(** The callback of [search] (search.ts). *)
Definition search_tool (query : string) (objectTypes : option (list string))
  (limit : option Z) : Trace -> CallToolResult * Trace :=
  catching "Error searching: "
    (let objectTypes :=
       match objectTypes with
       | Some types => types
       | None => default_objectTypes
       end in
     let limit := limit_or_20 limit in
     result <- searchRecords query objectTypes (Some limit) ;;
     ret (tool_ok (JArr result))).

(** [items.filter((item) => !item.id)]. *)
Fixpoint missing_ids (items : list JsValue) : Result (list JsValue) :=
  match items with
  | [] => Return []
  | item :: rest =>
      match read_prop item "id" with
      | Throw t => Throw t
      | Return id =>
          match missing_ids rest with
          | Throw t => Throw t
          | Return missing =>
              Return (if truthy id then missing else item :: missing)
          end
      end
  end.

(** The callback of [bulk_update] (tools/bulk.ts). *)
Definition bulk_update_tool (resourceType items_text : string)
  : Trace -> CallToolResult * Trace :=
  catching "Error in bulk update: "
    (parsed <- lift (JSON_parse items_text) ;;
     match parsed with
     | JArr items =>
         missingIds <- lift (missing_ids items) ;;
         if (0 <? List.length missingIds)%nat
         then ret (tool_error ("Error: all items must have an " +++ dq +++ "id"
                               +++ dq +++ " field"))
         else
           result <- bulkOperation update resourceType (map as_record items) ;;
           ret (tool_ok (JArr result))
     | _ => ret (tool_error "Error: items must be a JSON array")
     end).

(** The callback of [bulk_delete] (tools/bulk.ts). *)
Definition bulk_delete_tool (resourceType : string) (ids : list string)
  : Trace -> CallToolResult * Trace :=
  catching "Error in bulk delete: "
    (let items := map (fun id => [("id", JStr id)]) ids in
     result <- bulkOperation delete resourceType items ;;
     ret (tool_ok (JArr result))).

(** The callback of [create_note] (tools/note.ts). *)
Definition create_note_tool (args : DataObject) : Trace -> CallToolResult * Trace :=
  catching "Error creating note: "
    (let body := transformNoteFields (cleanObject args) in
     result <- request "POST" "/rest/notes" (Some body) None ;;
     ret (tool_ok result)).

(** The body [upsert_company] sends: [args] without [matchField],
    [matchValue] and [customFields], with the custom fields merged in,
    cleaned and transformed. *)
Definition upsert_company_body (args : DataObject) : DataObject :=
  let customFields := obj_prop "customFields" args in
  let fields :=
    obj_delete "customFields" (obj_delete "matchValue" (obj_delete "matchField" args)) in
  transformCompanyFields (cleanObject (merge fields (spread customFields))).

(** The callback of [upsert_company] (tools/company.ts); the schema makes
    [matchField] and [matchValue] strings. *)
Definition upsert_company_tool (args : DataObject) : Trace -> CallToolResult * Trace :=
  catching "Error upserting company: "
    (let matchField := js_String (obj_prop "matchField" args) in
     let matchValue := js_String (obj_prop "matchValue" args) in
     existing <- findRecordByField "company" matchField matchValue ;;
     let body := upsert_company_body args in
     if truthy existing then
       id <- lift (read_prop existing "id") ;;
       result <- request "PUT" ("/rest/companies/" +++ js_String id) (Some body) None ;;
       ret (tool_ok (JObj (obj_set "_upsertAction" (JStr "updated") (spread result))))
     else
       result <- request "POST" "/rest/companies" (Some body) None ;;
       ret (tool_ok (JObj (obj_set "_upsertAction" (JStr "created") (spread result))))).

(** What a call of [requestWithRetry] that was started at the history
    [start] has come to by the history [tr]: the outcome [r] is that of one
    of its own attempts, the request made at some history [h] between
    [start] and [tr]; a value is the value that request returned, an error
    is the wrapped error of that request, which was not retryable or was the
    last attempt allowed. *)
Definition retried_outcome (meth endpoint : string) (payload qs : option DataObject)
  (config : IRetryConfig) (start tr : Trace) (r : Result JsValue) : Prop :=
  exists h,
    extends start h /\
    extends (h ++ [request_event meth endpoint payload qs]) tr /\
    match r with
    | Return v =>
        request meth endpoint payload qs h =
        (Return v, h ++ [request_event meth endpoint payload qs])
    | Throw t =>
        exists error attempt,
          request meth endpoint payload qs h =
          (Throw error, h ++ [request_event meth endpoint payload qs]) /\
          0 <= attempt <= maxRetries config /\
          (isRetryableError error = false \/ attempt = maxRetries config) /\
          t = wrapped_error error attempt config
    end.

(** The events of a call of [requestWithRetry]: its own request, and its
    waits. *)
Definition retry_event (meth endpoint : string) (payload qs : option DataObject)
  (config : IRetryConfig) (ev : Event) : Prop :=
  match ev with
  | EvFetch _ _ => ev = request_event meth endpoint payload qs
  | EvSleep ms => is_retry_wait config ms
  end.

(** Method, path and body of the request [bulkOperation] issues for an
    item. *)
Definition bulk_method (operation : Operation) : string :=
  match operation with
  | create => "POST"
  | update => "PUT"
  | delete => "DELETE"
  end.

Definition bulk_path (operation : Operation) (endpoint : string) (item : DataObject)
  : string :=
  match operation with
  | create => endpoint
  | update | delete => endpoint +++ "/" +++ js_String (obj_prop "id" item)
  end.

Definition bulk_body (operation : Operation) (item : DataObject) : option DataObject :=
  match operation with
  | create => Some item
  | update => Some (obj_delete "id" item)
  | delete => None
  end.

(** What the result of an item is by the history [tr], in a run of the
    batch executor started at [start]: one of the item's own requests was
    made at a history [h] between the two, and the result is the success
    object around what that request returned, or the failure object with
    the item and the message of what that request threw, in its wrapping;
    that request was then not retryable, or the last of the four
    attempts. *)
Definition item_outcome (operation : Operation) (endpoint : string) (start tr : Trace)
  (item : DataObject) (result : JsValue) : Prop :=
  exists h,
    extends start h /\
    extends (h ++ [bulk_event operation endpoint item]) tr /\
    match fst (request (bulk_method operation) (bulk_path operation endpoint item)
                 (bulk_body operation item) None h) with
    | Return response => result = JObj [("success", JBool true); ("data", response)]
    | Throw error =>
        exists attempt,
          0 <= attempt <= 3 /\
          (isRetryableError error = false \/ attempt = 3) /\
          result = JObj [("success", JBool false);
                         ("error", JStr ("Twenty CRM API error: "
                                         +++ getErrorContext error attempt 3
                                         +++ match error with
                                             | ThrownError e => message e
                                             | ThrownValue _ => "Unknown error"
                                             end));
                         ("item", JObj item)]
    end.

(** The events of a run of the batch executor: the request of one of the
    items, or a wait of the retry loop. *)
Definition bulk_events_of (operation : Operation) (endpoint : string)
  (items : list DataObject) (ev : Event) : Prop :=
  match ev with
  | EvFetch _ _ => exists item, In item items /\ ev = bulk_event operation endpoint item
  | EvSleep ms => is_retry_wait (merge_config DEFAULT_RETRY_CONFIG no_override) ms
  end.

(** What [searchRecords] takes from the response of a type: nothing from
    [null] or [undefined], where reading [data] throws; otherwise the
    elements of [response.data || response] when that is an array and that
    value alone when it is not, each with [_objectType] set. *)
Definition search_items (objectType : string) (response : JsValue) : list JsValue :=
  match get_prop response "data" with
  | None => []
  | Some d =>
      match (if truthy d then d else response) with
      | JArr rows => map (tag objectType) rows
      | data => [tag objectType data]
      end
  end.

(** The request of [searchRecords] for a type. *)
Definition search_event (query : string) (limit : Z) (objectType : string) : Event :=
  request_event "GET" ("/rest/" +++ objectType) None (Some (search_qs query limit)).

(** What a type contributes by the history [tr], in a run of
    [searchRecords] started at [start]: one of the type's own requests was
    made at a history [h] between the two, and the contribution is what is
    taken from the response of that request, or nothing when that request
    threw. *)
Definition search_outcome (query : string) (limit : Z) (start tr : Trace)
  (objectType : string) (rows : list JsValue) : Prop :=
  exists h,
    extends start h /\
    extends (h ++ [search_event query limit objectType]) tr /\
    match fst (request "GET" ("/rest/" +++ objectType) None
                 (Some (search_qs query limit)) h) with
    | Return response => rows = search_items objectType response
    | Throw _ => rows = []
    end.

(** The events of a run of [searchRecords]: the request of one of the
    types, or a wait of the retry loop. *)
Definition search_events_of (query : string) (limit : Z) (objectTypes : list string)
  (ev : Event) : Prop :=
  match ev with
  | EvFetch _ _ =>
      exists objectType,
        In objectType objectTypes /\ ev = search_event query limit objectType
  | EvSleep ms => is_retry_wait (merge_config DEFAULT_RETRY_CONFIG no_override) ms
  end.

(** The query of a round of [requestAllItems] sent with the given offset. *)
Definition page_qs (qs : option DataObject) (offset : JsValue) : DataObject :=
  obj_set "offset" offset (first_page_qs qs).

(** The limit in force: [qs.limit || 200]. *)
Definition effective_limit (qs : option DataObject) : JsValue :=
  js_or (obj_prop "limit" (match qs with Some q => q | None => [] end)) (JNum 200).

(** A page after which [requestAllItems] asks for another one. *)
Definition is_full_page (limit : Z) (response : JsValue) : bool :=
  match get_prop response "data" with
  | Some d => more_pages d (JNum limit)
  | None => false
  end.

(** The items [requestAllItems] takes from a page. *)
Definition page_items (response : JsValue) : list JsValue :=
  match get_prop response "data" with
  | Some d => to_items (js_or d response)
  | None => []
  end.

(** A server that, asked for the pages at offsets [k * limit],
    [(k + 1) * limit], ... in turn, answers with the given responses. *)
Inductive served (meth endpoint : string) (payload qs : option DataObject) (limit : Z)
  : nat -> Trace -> list JsValue -> Trace -> Prop :=
| served_none : forall k tr,
    served meth endpoint payload qs limit k tr [] tr
| served_page : forall k tr response tr1 pages tr2,
    requestWithRetry meth endpoint payload
      (Some (page_qs qs (JNum (Z.of_nat k * limit)))) no_override tr =
    (Return response, tr1) ->
    served meth endpoint payload qs limit (S k) tr1 pages tr2 ->
    served meth endpoint payload qs limit k tr (response :: pages) tr2.

(** The items [listAllNested] takes from a response. *)
Definition nested_items (nestedKey : string) (response : JsValue) : list JsValue :=
  match extractItems response nestedKey with
  | Return items => items
  | Throw _ => []
  end.

(** A server that, asked by [listAllNested] for the pages at offsets
    [k * 200], [(k + 1) * 200], ... in turn, each with one request, answers
    with the given responses. *)
Inductive nested_served (endpoint : string) (baseQs : DataObject)
  : nat -> Trace -> list JsValue -> Trace -> Prop :=
| nested_none : forall k tr,
    nested_served endpoint baseQs k tr [] tr
| nested_page : forall k tr response tr1 pages tr2,
    request "GET" endpoint None
      (Some (nested_qs baseQs (Z.of_nat k * nested_limit))) tr = (Return response, tr1) ->
    nested_served endpoint baseQs (S k) tr1 pages tr2 ->
    nested_served endpoint baseQs k tr (response :: pages) tr2.

(** ** Properties *)

(** *** Strings, objects and query parameters *)

Lemma append_empty_r : forall s, s +++ "" = s.
Proof. induction s as [ | c s IH ]; simpl; [ | rewrite IH ]; reflexivity. Qed.

Lemma append_assoc : forall a b c, (a +++ b) +++ c = a +++ b +++ c.
Proof. induction a as [ | x a IH ]; intros; simpl; [ | rewrite IH ]; reflexivity. Qed.

Lemma strip_trailing_slash_append :
  forall b, strip_trailing_slash (b +++ "/") = b.
Proof.
  induction b as [ | c b IH ]; [ reflexivity | ].
  destruct b as [ | c' b' ]; [ reflexivity | ].
  change (strip_trailing_slash (String c (String c' b') +++ "/"))
    with (String c (strip_trailing_slash (String c' b' +++ "/"))).
  rewrite IH. reflexivity.
Qed.

Lemma doubled_slash_at_join :
  forall b rest,
    doubled_slash_at (String.length b) (b +++ rest) =
    last_is_slash b && first_is_slash rest.
Proof.
  intros b rest. unfold doubled_slash_at, last_is_slash, first_is_slash.
  destruct (String.length b) as [ | i ] eqn:Hlen; [ reflexivity | ].
  rewrite <- (append_correct1 b rest i) by lia.
  replace (get (S i) (b +++ rest)) with (get 0 rest)
    by (rewrite (append_correct2 b rest 0), Hlen; reflexivity).
  destruct (get i b) as [ a | ]; [ | reflexivity ].
  destruct (get 0 rest) as [ c | ]; [ reflexivity | ].
  rewrite andb_false_r. reflexivity.
Qed.

Lemma first_is_slash_append :
  forall a b, a <> "" -> first_is_slash (a +++ b) = first_is_slash a.
Proof. intros [ | c a ] b Ha; [ congruence | reflexivity ]. Qed.

Lemma request_url_suffix :
  forall client endpoint qs,
    request_url client endpoint qs =
    (baseUrl client +++ endpoint) +++
    match qs with
    | Some q => query_suffix (query_params q)
    | None => ""
    end.
Proof.
  intros client endpoint [ q | ]; unfold request_url, query_suffix;
    [ | rewrite append_empty_r; reflexivity ].
  destruct q as [ | kv q ].
  - simpl. rewrite append_empty_r. reflexivity.
  - change (0 <? List.length (keys (kv :: q)))%nat with true. cbv iota.
    destruct (params_toString (query_params (kv :: q)) =? "")%string;
      simpl; [ rewrite append_empty_r | ]; reflexivity.
Qed.

Lemma params_set_keys :
  forall k v p k',
    In k' (map fst (params_set k v p)) <-> k' = k \/ In k' (map fst p).
Proof.
  intros k v p k'. induction p as [ | [k1 v1] p IH ]; simpl.
  - intuition.
  - destruct (String.eqb_spec k1 k) as [ -> | Hne ]; simpl.
    + split.
      * intros [ H | H ]; [ auto | ].
        apply in_map_iff in H. destruct H as ([k2 v2] & Hk2 & Hin).
        apply filter_In in Hin. destruct Hin as [Hin _]. simpl in Hk2. subst k2.
        right; right. apply in_map_iff. exists (k', v2). auto.
      * intros [ H | [ H | H ] ]; auto.
        destruct (String.eqb_spec k' k) as [ -> | Hne' ]; [ auto | ].
        right. apply in_map_iff in H. destruct H as ([k2 v2] & Hk2 & Hin).
        simpl in Hk2. subst k2. apply in_map_iff. exists (k', v2). split; [ reflexivity | ].
        apply filter_In. split; [ exact Hin | ]. simpl.
        destruct (String.eqb_spec k' k); [ contradiction | reflexivity ].
    + rewrite IH. intuition.
Qed.

Lemma fill_params_keys :
  forall qs params k,
    In k (map fst (fill_params qs params)) <->
    In k (map fst params) \/ exists v, In (k, v) qs /\ is_blank v = false.
Proof.
  induction qs as [ | [key value] qs IH ]; intros params k; simpl.
  - split; [ auto | intros [ H | (v & [] & _) ]; exact H ].
  - rewrite IH. destruct (is_blank value) eqn:Hblank.
    + split.
      * intros [ H | (v & Hin & Hv) ]; [ auto | right; exists v; auto ].
      * intros [ H | (v & [ Heq | Hin ] & Hv) ]; [ auto | | right; exists v; auto ].
        inversion Heq; subst. congruence.
    + rewrite params_set_keys. split.
      * intros [ [ -> | H ] | (v & Hin & Hv) ]; [ | auto | ].
        -- right. exists value. auto.
        -- right. exists v. auto.
      * intros [ H | (v & [ Heq | Hin ] & Hv) ]; [ auto | | right; exists v; auto ].
        inversion Heq; subst. auto.
Qed.

Lemma query_params_keys :
  forall qs k,
    In k (map fst (query_params qs)) <-> exists v, In (k, v) qs /\ is_blank v = false.
Proof.
  intros qs k. unfold query_params. rewrite fill_params_keys. simpl. tauto.
Qed.

Lemma JSON_stringify_undefined :
  forall v, JSON_stringify v = None <-> v = JUndefined.
Proof.
  intros v. split; [ | intros ->; reflexivity ].
  destruct v as [ | | [ | ] | | | | | ]; simpl; congruence.
Qed.

Lemma JSON_stringify_object :
  forall o, JSON_stringify (JObj o) = Some (json_object_text (json_members o)).
Proof.
  intros o. unfold json_object_text. cbn [JSON_stringify]. do 4 f_equal.
  induction o as [ | [k x] o IH ]; [ reflexivity | ].
  cbn [json_members]. rewrite IH.
  destruct (JSON_stringify x); reflexivity.
Qed.

Lemma json_members_keys :
  forall o k,
    In k (map fst (json_members o)) <-> exists v, In (k, v) o /\ v <> JUndefined.
Proof.
  induction o as [ | [k1 x] o IH ]; intros k; simpl.
  - split; [ intros [] | intros (v & [] & _) ].
  - destruct (JSON_stringify x) as [ s | ] eqn:Hx; simpl; rewrite IH.
    + assert (x <> JUndefined) by (intros ->; discriminate).
      split.
      * intros [ -> | (v & Hin & Hv) ]; [ exists x; auto | exists v; auto ].
      * intros (v & [ Heq | Hin ] & Hv); [ inversion Heq; auto | right; exists v; auto ].
    + apply JSON_stringify_undefined in Hx. subst x. split.
      * intros (v & Hin & Hv). exists v. auto.
      * intros (v & [ Heq | Hin ] & Hv); [ inversion Heq; congruence | exists v; auto ].
Qed.

Lemma obj_get_delete_same :
  forall k o, obj_get k (obj_delete k o) = None.
Proof.
  intros k o. induction o as [ | [k1 v1] o IH ]; simpl; [ reflexivity | ].
  destruct (String.eqb_spec k1 k) as [ -> | Hne ]; simpl; [ exact IH | ].
  destruct (String.eqb_spec k1 k); [ contradiction | exact IH ].
Qed.

Lemma obj_get_delete_other :
  forall k k' o, k' <> k -> obj_get k' (obj_delete k o) = obj_get k' o.
Proof.
  intros k k' o Hne. induction o as [ | [k1 v1] o IH ]; simpl; [ reflexivity | ].
  destruct (String.eqb_spec k1 k) as [ -> | Hne1 ]; simpl.
  - destruct (String.eqb_spec k k'); [ congruence | exact IH ].
  - rewrite IH. reflexivity.
Qed.

Lemma obj_get_set_same :
  forall k v o, obj_get k (obj_set k v o) = Some v.
Proof.
  intros k v o. induction o as [ | [k1 v1] o IH ]; simpl.
  - rewrite String.eqb_refl. reflexivity.
  - destruct (String.eqb_spec k1 k) as [ -> | Hne ]; simpl.
    + rewrite String.eqb_refl. reflexivity.
    + destruct (String.eqb_spec k1 k); [ contradiction | exact IH ].
Qed.

Lemma obj_get_set_other :
  forall k k' v o, k' <> k -> obj_get k' (obj_set k v o) = obj_get k' o.
Proof.
  intros k k' v o Hne. induction o as [ | [k1 v1] o IH ]; simpl.
  - destruct (String.eqb_spec k k'); [ congruence | reflexivity ].
  - destruct (String.eqb_spec k1 k) as [ -> | Hne1 ]; simpl.
    + destruct (String.eqb_spec k k'); [ congruence | reflexivity ].
    + rewrite IH. reflexivity.
Qed.

Lemma obj_set_set :
  forall k v w o, obj_set k v (obj_set k w o) = obj_set k v o.
Proof.
  intros k v w o. induction o as [ | [k1 v1] o IH ]; simpl.
  - rewrite String.eqb_refl. reflexivity.
  - destruct (String.eqb_spec k1 k) as [ -> | Hne ]; simpl.
    + rewrite String.eqb_refl. reflexivity.
    + destruct (String.eqb_spec k1 k); [ contradiction | rewrite IH; reflexivity ].
Qed.

(** *** The request executor *)

Lemma request_run :
  forall meth endpoint payload qs tr,
    snd (request meth endpoint payload qs tr) =
    tr ++ [request_event meth endpoint payload qs].
Proof.
  intros. unfold request, bind, await_fetch, request_event.
  destruct (fetch tr _ _) as [r | t]; [ | reflexivity ].
  destruct (ok r); [ | reflexivity ].
  simpl. destruct (text r =? "")%string; reflexivity.
Qed.

Lemma request_throw_run :
  forall meth endpoint payload qs tr error tr',
    request meth endpoint payload qs tr = (Throw error, tr') ->
    tr' = tr ++ [request_event meth endpoint payload qs].
Proof.
  intros * H. rewrite <- request_run, H. reflexivity.
Qed.

(** A response that is not ok becomes a Structured API Error. *)
Lemma request_not_ok :
  forall meth endpoint payload qs tr r,
    fetch tr (request_url this endpoint qs) (request_options this meth payload) =
    Resolved r ->
    ok r = false ->
    request meth endpoint payload qs tr =
    (Throw (ThrownError (api_error r)), tr ++ [request_event meth endpoint payload qs]).
Proof.
  intros * Hfetch Hok. unfold request, bind, await_fetch, request_event.
  rewrite Hfetch, Hok. reflexivity.
Qed.

(** An ok response with a text that parses is the parsed payload. *)
Lemma request_ok :
  forall meth endpoint payload qs tr r v,
    fetch tr (request_url this endpoint qs) (request_options this meth payload) =
    Resolved r ->
    ok r = true ->
    (text r =? "")%string = false ->
    JSON_parse (text r) = Return v ->
    request meth endpoint payload qs tr =
    (Return v, tr ++ [request_event meth endpoint payload qs]).
Proof.
  intros * Hfetch Hok Htext Hparse. unfold request, bind, await_fetch, request_event.
  rewrite Hfetch, Hok. simpl. rewrite Htext. unfold lift. rewrite Hparse. reflexivity.
Qed.

(** C1. [request] calls [fetch] once.  In the URL, the query parameters are
    the keys of [qs] that have a value other than [undefined], [null] and
    the empty string.  The body, when one is attached, is
    [JSON.stringify(body)]: its members are the keys that have a value other
    than [undefined], so a key whose value is [null] or the empty string is
    among them. *)
Theorem C1_query_drops_blank_body_drops_undefined :
  forall meth endpoint payload qs tr,
    snd (request meth endpoint payload qs tr) =
    tr ++ [EvFetch (request_url this endpoint qs) (request_options this meth payload)]
    /\
    (forall q, qs = Some q ->
       request_url this endpoint qs =
       (baseUrl this +++ endpoint) +++ query_suffix (query_params q) /\
       forall k, In k (map fst (query_params q)) <->
                 exists v, In (k, v) q /\ is_blank v = false)
    /\
    (forall sent, body (request_options this meth payload) = Some sent ->
       exists b,
         payload = Some b /\
         sent = json_object_text (json_members b) /\
         forall k, In k (map fst (json_members b)) <->
                   exists v, In (k, v) b /\ v <> JUndefined).
Proof.
  intros meth endpoint payload qs tr. split; [ apply request_run | split ].
  - intros q ->. split; [ apply request_url_suffix | apply query_params_keys ].
  - intros sent Hsent. simpl in Hsent. unfold request_body in Hsent.
    destruct payload as [ b | ]; [ | discriminate ].
    exists b. split; [ reflexivity | ]. split; [ | apply json_members_keys ].
    destruct (_ && _); [ | discriminate ].
    rewrite JSON_stringify_object in Hsent. congruence.
Qed.

(** *** The retrying executor *)

Lemma retry_loop_step :
  forall meth endpoint payload qs config attempt lastError tr,
    retry_loop meth endpoint payload qs config attempt lastError tr =
    if attempt <=? maxRetries config then
      match request meth endpoint payload qs tr with
      | (Return v, tr') => (Return v, tr')
      | (Throw error, tr') =>
          if isRetryableError error && (attempt <? maxRetries config)
          then retry_loop meth endpoint payload qs config (attempt + 1) error
                 (snd (sleep (retry_delay tr' error attempt config) tr'))
          else (Throw (wrapped_error error attempt config), tr')
      end
    else (Throw lastError, tr).
Proof.
  intros meth endpoint payload qs config attempt lastError tr.
  funelim (retry_loop meth endpoint payload qs config attempt lastError tr);
    try clear Heqcall;
    repeat match goal with
           | H : (_ <=? _) = _ |- _ => rewrite H; clear H
           | H : request _ _ _ _ _ = _ |- _ => rewrite H; clear H
           end;
    try rewrite shouldRetry; try rewrite giveUp; reflexivity.
Qed.


(** A failure that is not retried ends the loop at once. *)
Lemma retry_loop_gives_up :
  forall meth endpoint payload qs config attempt lastError tr error tr',
    attempt <= maxRetries config ->
    request meth endpoint payload qs tr = (Throw error, tr') ->
    isRetryableError error && (attempt <? maxRetries config) = false ->
    retry_loop meth endpoint payload qs config attempt lastError tr =
    (Throw (wrapped_error error attempt config), tr').
Proof.
  intros * Hle Hreq Hno.
  rewrite retry_loop_step, Hreq, Hno.
  apply Z.leb_le in Hle. rewrite Hle. reflexivity.
Qed.





Lemma attempts_shape_counts :
  forall (k : nat) evs,
    map is_fetch evs = attempts_shape k ->
    List.length (fetches evs) = S k /\ List.length (sleeps evs) = k.
Proof.
  unfold fetches, sleeps.
  induction k as [ | k IH ]; intros evs Hshape.
  - destruct evs as [ | e1 [ | e2 rest ] ]; try discriminate.
    simpl in *. inversion Hshape as [He1]. rewrite He1. simpl. auto.
  - destruct evs as [ | e1 [ | e2 rest ] ]; try discriminate.
    simpl in Hshape. inversion Hshape as [[He1 He2 Hrest]].
    apply IH in Hrest. destruct Hrest as [Hf Hs].
    cbn [filter]. rewrite He1, He2. simpl. rewrite Hf, Hs. auto.
Qed.




(** The events of the retrying executor: each call of [fetch] is the call
    of [request] for the same arguments. *)
Lemma retry_loop_events :
  forall meth endpoint payload qs config (n : nat) attempt lastError tr,
    Z.to_nat (maxRetries config + 1 - attempt) = n ->
    exists evs,
      snd (retry_loop meth endpoint payload qs config attempt lastError tr) = tr ++ evs /\
      Forall (fun ev => is_fetch ev = true ->
                        ev = request_event meth endpoint payload qs) evs.
Proof.
  intros meth endpoint payload qs config n.
  induction n as [ | n IH ]; intros attempt lastError tr Hn; rewrite retry_loop_step.
  - replace (attempt <=? maxRetries config) with false
      by (symmetry; apply Z.leb_gt; lia).
    exists []. rewrite app_nil_r. auto.
  - replace (attempt <=? maxRetries config) with true
      by (symmetry; apply Z.leb_le; lia).
    pose proof (request_run meth endpoint payload qs tr) as Hrun.
    destruct (request meth endpoint payload qs tr) as [[v | error] tr1];
      simpl in Hrun; subst tr1.
    + exists [request_event meth endpoint payload qs]. simpl. auto.
    + destruct (isRetryableError error && (attempt <? maxRetries config)).
      * unfold sleep; simpl snd.
        match goal with
        | |- context [retry_loop _ _ _ _ _ _ _ (?t ++ [?ev])] =>
            destruct (IH (attempt + 1) error (t ++ [ev])) as (evs & Hevs & Hall);
              [ lia | ];
            exists (request_event meth endpoint payload qs :: ev :: evs)
        end.
        rewrite Hevs, <- !app_assoc. split; [ reflexivity | ].
        constructor; [ auto | constructor; [ discriminate | exact Hall ] ].
      * exists [request_event meth endpoint payload qs]. simpl. auto.
Qed.

Lemma requestWithRetry_events :
  forall meth endpoint payload qs retryConfig tr,
    exists evs,
      snd (requestWithRetry meth endpoint payload qs retryConfig tr) = tr ++ evs /\
      Forall (fun ev => is_fetch ev = true ->
                        ev = request_event meth endpoint payload qs) evs.
Proof.
  intros. unfold requestWithRetry. eapply retry_loop_events. reflexivity.
Qed.

Lemma retry_delay_is_retry_wait :
  forall config tr0 error attempt,
    0 <= attempt < maxRetries config ->
    isRetryableError error = true ->
    is_retry_wait config (retry_delay tr0 error attempt config).
Proof.
  intros config tr0 error attempt Hattempt Hretryable.
  exists tr0, error, attempt. split; [ exact Hattempt | ]. split; [ exact Hretryable | ].
  unfold retry_delay. destruct (retryAfter (extractRateLimitInfo tr0 error)) as [ after | ];
    [ destruct (after =? 0) | ]; reflexivity.
Qed.

(** *** Calls that run side by side *)

Lemma extends_refl : forall tr, extends tr tr.
Proof. intros tr. exists []. symmetry. apply app_nil_r. Qed.

Lemma extends_app : forall tr evs, extends tr (tr ++ evs).
Proof. intros tr evs. exists evs. reflexivity. Qed.

Lemma extends_trans :
  forall tr1 tr2 tr3, extends tr1 tr2 -> extends tr2 tr3 -> extends tr1 tr3.
Proof.
  intros tr1 tr2 tr3 [ evs1 -> ] [ evs2 -> ]. exists (evs1 ++ evs2).
  symmetry. apply app_assoc.
Qed.

Lemma keeps_later :
  forall A (P : Event -> Prop) (Q : Trace -> Result A -> Prop) (t : Task A) tr0 tr1,
    lasting Q -> keeps P Q t tr0 -> extends tr0 tr1 -> keeps P Q t tr1.
Proof.
  intros A P Q t tr0 tr1 HQ Hkeeps Hext. destruct t as [ r | resume ]; simpl in *.
  - eapply HQ; eauto.
  - intros tr Htr. apply Hkeeps. eapply extends_trans; eauto.
Qed.

Lemma group_keeps_later :
  forall A (P : Event -> Prop) (Q : Trace -> Result (list A) -> Prop) (g : Group A)
         tr0 tr1,
    lasting Q -> group_keeps P Q g tr0 -> extends tr0 tr1 -> group_keeps P Q g tr1.
Proof.
  intros A P Q g tr0 tr1 HQ Hkeeps Hext. destruct g as [ r | n resume ]; simpl in *.
  - eapply HQ; eauto.
  - intros i tr Htr. apply Hkeeps. eapply extends_trans; eauto.
Qed.

(** What follows a call keeps to [P] and [Q'] when the call keeps to [P] and
    [Q] and the continuation, started on a result that [Q] allows, keeps to
    [P] and [Q']. *)
Lemma then_task_keeps :
  forall A B (P : Event -> Prop) (Q : Trace -> Result A -> Prop)
         (Q' : Trace -> Result B -> Prop) (k : Result A -> Async B) (t : Task A)
         tr0,
    lasting Q ->
    keeps P Q t tr0 ->
    (forall tr r, extends tr0 tr -> Q tr r -> starts_keeping P Q' (k r) tr) ->
    starts_keeping P Q' (then_task t k) tr0.
Proof.
  intros A B P Q Q' k t. induction t as [ r | resume IH ] using Task_induction;
    intros tr0 HQ Hkeeps Hk.
  - simpl in *. apply Hk; [ apply extends_refl | exact Hkeeps ].
  - unfold starts_keeping. cbn [then_task]. exists [].
    split; [ symmetry; apply app_nil_r | ]. split; [ constructor | ].
    cbn [keeps]. intros tr Htr. cbn [keeps] in Hkeeps. specialize (Hkeeps tr Htr).
    specialize (IH tr). destruct (resume tr) as [ t' tr' ]. cbn [fst] in IH.
    destruct Hkeeps as (evs1 & -> & Hevs1 & Hkeeps').
    assert (Hstart : starts_keeping P Q' (then_task t' k) (tr ++ evs1)).
    { apply IH; [ exact HQ | exact Hkeeps' | ].
      intros tr2 r Hext HQr. apply Hk; [ | exact HQr ].
      eapply extends_trans; [ exact Htr | ].
      eapply extends_trans; [ apply extends_app | exact Hext ]. }
    unfold starts_keeping in Hstart.
    destruct (then_task t' k (tr ++ evs1)) as [ t2 tr2 ].
    destruct Hstart as (evs2 & -> & Hevs2 & Hkeeps2).
    exists (evs1 ++ evs2). split; [ symmetry; apply app_assoc | ].
    split; [ apply Forall_app; auto | exact Hkeeps2 ].
Qed.

Lemma bind_async_keeps :
  forall A B (P : Event -> Prop) (Q : Trace -> Result A -> Prop)
         (Q' : Trace -> Result B -> Prop) (m : Async A) (k : A -> Async B) tr0,
    lasting Q ->
    starts_keeping P Q m tr0 ->
    (forall tr a, extends tr0 tr -> Q tr (Return a) -> starts_keeping P Q' (k a) tr) ->
    (forall tr e, extends tr0 tr -> Q tr (Throw e) -> Q' tr (Throw e)) ->
    starts_keeping P Q' (bind_async m k) tr0.
Proof.
  intros A B P Q Q' m k tr0 HQ Hm Hk Hthrow. unfold starts_keeping, bind_async in *.
  destruct (m tr0) as [ t tr1 ]. destruct Hm as (evs1 & -> & Hevs1 & Hkeeps).
  pose proof (then_task_keeps A B P Q Q'
                (fun r => match r with
                          | Return a => k a
                          | Throw e => throw_async e
                          end) t (tr0 ++ evs1) HQ Hkeeps) as Hthen.
  unfold starts_keeping in Hthen.
  destruct (then_task t _ (tr0 ++ evs1)) as [ t2 tr2 ].
  destruct Hthen as (evs2 & -> & Hevs2 & Hkeeps2).
  - intros tr [ a | e ] Hext HQr.
    + apply Hk; [ eapply extends_trans; [ apply extends_app | exact Hext ] | exact HQr ].
    + unfold starts_keeping, throw_async. exists [].
      split; [ symmetry; apply app_nil_r | ]. split; [ constructor | ].
      simpl. apply Hthrow;
        [ eapply extends_trans; [ apply extends_app | exact Hext ] | exact HQr ].
  - exists (evs1 ++ evs2). split; [ symmetry; apply app_assoc | ].
    split; [ apply Forall_app; auto | exact Hkeeps2 ].
Qed.

Lemma try_catch_async_keeps :
  forall A (P : Event -> Prop) (Q Q' : Trace -> Result A -> Prop)
         (m : Async A) (handler : Thrown -> Async A) tr0,
    lasting Q ->
    starts_keeping P Q m tr0 ->
    (forall tr a, extends tr0 tr -> Q tr (Return a) -> Q' tr (Return a)) ->
    (forall tr e, extends tr0 tr -> Q tr (Throw e) -> starts_keeping P Q' (handler e) tr) ->
    starts_keeping P Q' (try_catch_async m handler) tr0.
Proof.
  intros A P Q Q' m handler tr0 HQ Hm Hreturn Hhandler.
  unfold starts_keeping, try_catch_async in *.
  destruct (m tr0) as [ t tr1 ]. destruct Hm as (evs1 & -> & Hevs1 & Hkeeps).
  pose proof (then_task_keeps A A P Q Q'
                (fun r => match r with
                          | Return a => ret_async a
                          | Throw e => handler e
                          end) t (tr0 ++ evs1) HQ Hkeeps) as Hthen.
  unfold starts_keeping in Hthen.
  destruct (then_task t _ (tr0 ++ evs1)) as [ t2 tr2 ].
  destruct Hthen as (evs2 & -> & Hevs2 & Hkeeps2).
  - intros tr [ a | e ] Hext HQr.
    + unfold starts_keeping, ret_async. exists [].
      split; [ symmetry; apply app_nil_r | ]. split; [ constructor | ].
      simpl. apply Hreturn;
        [ eapply extends_trans; [ apply extends_app | exact Hext ] | exact HQr ].
    + apply Hhandler;
        [ eapply extends_trans; [ apply extends_app | exact Hext ] | exact HQr ].
  - exists (evs1 ++ evs2). split; [ symmetry; apply app_assoc | ].
    split; [ apply Forall_app; auto | exact Hkeeps2 ].
Qed.




(** The values of calls that return, one for each of [xs]. *)
Lemma add_value_keeps :
  forall A X (P : Event -> Prop) (Q : X -> Trace -> A -> Prop) (x : X) (xs : list X)
         (a : A) (g : Group A) tr0,
    (forall x, lasting (Q x)) ->
    Q x tr0 a ->
    group_keeps P (fun tr r => match r with
                               | Return l => Forall2 (fun x a => Q x tr a) xs l
                               | Throw _ => False
                               end) g tr0 ->
    group_keeps P (fun tr r => match r with
                               | Return l => Forall2 (fun x a => Q x tr a) (x :: xs) l
                               | Throw _ => False
                               end) (add_value a g) tr0.
Proof.
  intros A X P Q x xs a g. induction g as [ r | n resume IH ] using Group_induction;
    intros tr0 HQ Ha Hg.
  - destruct r as [ l | e ]; simpl in *; [ constructor; assumption | contradiction ].
  - cbn [add_value group_keeps] in *. intros i tr Htr. specialize (Hg i tr Htr).
    specialize (IH i tr). destruct (resume i tr) as [ g' tr' ]. cbn [fst] in IH.
    destruct Hg as (evs & -> & Hevs & Hg'). exists evs.
    split; [ reflexivity | ]. split; [ exact Hevs | ].
    apply IH; [ exact HQ | | exact Hg' ].
    apply (HQ x tr0); [ | exact Ha ].
    eapply extends_trans; [ exact Htr | apply extends_app ].
Qed.

Lemma all_lasting :
  forall A X (Q : X -> Trace -> A -> Prop) (xs : list X),
    (forall x, lasting (Q x)) ->
    lasting (fun tr (r : Result (list A)) =>
               match r with
               | Return l => Forall2 (fun x a => Q x tr a) xs l
               | Throw _ => False
               end).
Proof.
  intros A X Q xs HQ tr tr' [ l | e ] Hext H; [ | exact H ].
  eapply Forall2_impl; [ | exact H ]. intros x a Hxa. eapply HQ; eauto.
Qed.

Lemma returns_lasting :
  forall A (Q : Trace -> A -> Prop),
    lasting Q ->
    lasting (fun tr (r : Result A) =>
               match r with Return a => Q tr a | Throw _ => False end).
Proof. intros A Q HQ tr tr' [ a | e ] Hext H; [ eapply HQ; eauto | exact H ]. Qed.

Lemma join_keeps :
  forall A X (P : Event -> Prop) (Q : X -> Trace -> A -> Prop) (x : X) (xs : list X)
         (t : Task A) (g : Group A) tr0,
    (forall x, lasting (Q x)) ->
    keeps P (fun tr r => match r with Return a => Q x tr a | Throw _ => False end) t tr0 ->
    group_keeps P (fun tr r => match r with
                               | Return l => Forall2 (fun x a => Q x tr a) xs l
                               | Throw _ => False
                               end) g tr0 ->
    group_keeps P (fun tr r => match r with
                               | Return l => Forall2 (fun x a => Q x tr a) (x :: xs) l
                               | Throw _ => False
                               end) (join t g) tr0.
Proof.
  intros A X P Q x xs t.
  induction t as [ r | resume IHt ] using Task_induction; intros g tr0 HQ Ht Hg.
  - destruct r as [ a | e ]; simpl in Ht; [ | contradiction ].
    cbn [join]. apply add_value_keeps; assumption.
  - revert tr0 Ht Hg.
    induction g as [ r | n others IHg ] using Group_induction; intros tr0 Ht Hg.
    + destruct r as [ l | e ]; [ | simpl in Hg; contradiction ].
      cbn [join group_keeps]. intros i tr Htr. cbn [keeps] in Ht.
      specialize (Ht tr Htr). specialize (IHt tr).
      destruct (resume tr) as [ t' tr' ]. cbn [fst] in IHt.
      destruct Ht as (evs & -> & Hevs & Ht'). exists evs.
      split; [ reflexivity | ]. split; [ exact Hevs | ].
      apply IHt; [ exact HQ | exact Ht' | ].
      apply (group_keeps_later _ _ _ (AllSettled (Return l)) tr0);
        [ apply all_lasting; exact HQ | exact Hg | ].
      eapply extends_trans; [ exact Htr | apply extends_app ].
    + cbn [join group_keeps]. intros i tr Htr. destruct i as [ | j ].
      * cbn [keeps] in Ht. specialize (Ht tr Htr). specialize (IHt tr).
        destruct (resume tr) as [ t' tr' ]. cbn [fst] in IHt.
        destruct Ht as (evs & -> & Hevs & Ht'). exists evs.
        split; [ reflexivity | ]. split; [ exact Hevs | ].
        apply IHt; [ exact HQ | exact Ht' | ].
        apply (group_keeps_later _ _ _ (SomePending n others) tr0);
          [ apply all_lasting; exact HQ | exact Hg | ].
        eapply extends_trans; [ exact Htr | apply extends_app ].
      * pose proof Hg as Hg0. cbn [group_keeps] in Hg. specialize (Hg j tr Htr).
        specialize (IHg j tr). destruct (others j tr) as [ g' tr' ]. cbn [fst] in IHg.
        destruct Hg as (evs & -> & Hevs & Hg'). exists evs.
        split; [ reflexivity | ]. split; [ exact Hevs | ].
        apply IHg; [ | exact Hg' ].
        apply (keeps_later _ _ _ (Suspended resume) tr0);
          [ apply returns_lasting; apply HQ | exact Ht | ].
        eapply extends_trans; [ exact Htr | apply extends_app ].
Qed.

Lemma start_all_keeps :
  forall A X (P : Event -> Prop) (Q : X -> Trace -> A -> Prop) (f : X -> Async A)
         (xs : list X),
    (forall x, lasting (Q x)) ->
    forall tr,
      (forall x tr',
          In x xs ->
          extends tr tr' ->
          starts_keeping P (fun tr r => match r with
                                        | Return a => Q x tr a
                                        | Throw _ => False
                                        end) (f x) tr') ->
      exists evs,
        snd (start_all (map f xs) tr) = tr ++ evs /\
        Forall P evs /\
        group_keeps P (fun tr r => match r with
                                   | Return l => Forall2 (fun x a => Q x tr a) xs l
                                   | Throw _ => False
                                   end) (fst (start_all (map f xs) tr)) (tr ++ evs).
Proof.
  intros A X P Q f xs HQ. induction xs as [ | x xs IH ]; intros tr Hf.
  - exists []. simpl. rewrite app_nil_r. repeat split; constructor.
  - cbn [map start_all].
    pose proof (Hf x tr (or_introl eq_refl) (extends_refl tr)) as Hx.
    unfold starts_keeping in Hx. destruct (f x tr) as [ t tr1 ].
    destruct Hx as (evs1 & -> & Hevs1 & Ht).
    destruct (IH (tr ++ evs1)
                (fun x' tr' Hin Hext =>
                   Hf x' tr' (or_intror Hin)
                     (extends_trans _ _ _ (extends_app tr evs1) Hext)))
      as (evs2 & Hsnd & Hevs2 & Hg).
    destruct (start_all (map f xs) (tr ++ evs1)) as [ g tr2 ]. cbn [fst snd] in *.
    subst tr2. exists (evs1 ++ evs2). rewrite app_assoc.
    split; [ reflexivity | ]. split; [ apply Forall_app; auto | ].
    apply join_keeps; [ exact HQ | | exact Hg ].
    apply (keeps_later _ _ _ t (tr ++ evs1));
      [ apply returns_lasting; apply HQ | exact Ht | apply extends_app ].
Qed.

Lemma run_group_keeps :
  forall A (P : Event -> Prop) (Q : Trace -> Result (list A) -> Prop)
         (next : Trace -> nat -> nat) (g : Group A) tr,
    group_keeps P Q g tr ->
    exists evs,
      snd (run_group next g tr) = tr ++ evs /\
      Forall P evs /\
      Q (tr ++ evs) (fst (run_group next g tr)).
Proof.
  intros A P Q next g. induction g as [ r | n resume IH ] using Group_induction;
    intros tr Hg.
  - exists []. simpl. rewrite app_nil_r. repeat split; [ constructor | exact Hg ].
  - cbn [run_group]. cbn [group_keeps] in Hg.
    specialize (Hg (next tr n) tr (extends_refl tr)). specialize (IH (next tr n) tr).
    destruct (resume (next tr n) tr) as [ g' tr' ]. cbn [fst] in IH.
    destruct Hg as (evs1 & -> & Hevs1 & Hg').
    destruct (IH _ Hg') as (evs2 & Hsnd & Hevs2 & HQ).
    exists (evs1 ++ evs2). rewrite app_assoc. rewrite Hsnd.
    split; [ reflexivity | ]. split; [ apply Forall_app; auto | exact HQ ].
Qed.

(** What the [map] starts at once: when each call makes its first request
    right when it is started, these requests come first, in the order of
    the calls. *)
Lemma start_all_events :
  forall A X (f : X -> Async A) (first : X -> Event) (xs : list X) tr,
    (forall x tr, snd (f x tr) = tr ++ [first x]) ->
    snd (start_all (map f xs) tr) = tr ++ map first xs.
Proof.
  intros A X f first xs. induction xs as [ | x xs IH ]; intros tr Hf.
  - simpl. symmetry. apply app_nil_r.
  - cbn [map start_all]. specialize (Hf x tr) as Hx. destruct (f x tr) as [ t tr1 ].
    cbn [snd] in Hx. subst tr1. specialize (IH (tr ++ [first x]) Hf).
    destruct (start_all (map f xs) (tr ++ [first x])) as [ g tr2 ]. cbn [snd] in *.
    rewrite IH, <- app_assoc. reflexivity.
Qed.

(** [Promise.all] over calls that never throw: it returns one value for each
    call, in the order of the calls, whatever the order in which the calls
    go on; each value is what [Q] allows for its call, and every event
    satisfies [P]. *)
Lemma Promise_all_keeps :
  forall A X (P : Event -> Prop) (Q : X -> Trace -> A -> Prop) (f : X -> Async A)
         (first : X -> Event) (xs : list X) tr,
    (forall x, lasting (Q x)) ->
    (forall x tr',
        In x xs ->
        extends tr tr' ->
        starts_keeping P (fun tr r => match r with
                                      | Return a => Q x tr a
                                      | Throw _ => False
                                      end) (f x) tr') ->
    (forall x tr, snd (f x tr) = tr ++ [first x]) ->
    exists l evs,
      Promise_all (map f xs) tr = (Return l, tr ++ map first xs ++ evs) /\
      Forall P (map first xs ++ evs) /\
      Forall2 (fun x a => Q x (tr ++ map first xs ++ evs) a) xs l.
Proof.
  intros A X P Q f first xs tr HQ Hf Hfirst. unfold Promise_all.
  destruct (start_all_keeps A X P Q f xs HQ tr Hf) as (evs1 & Hsnd & Hevs1 & Hg).
  pose proof (start_all_events A X f first xs tr Hfirst) as Hstart.
  rewrite Hsnd in Hstart. apply app_inv_head in Hstart. subst evs1.
  destruct (start_all (map f xs) tr) as [ g tr1 ]. cbn [fst snd] in *. subst tr1.
  destruct (run_group_keeps _ P _ settles g _ Hg) as (evs2 & Hrun & Hevs2 & HQg).
  destruct (run_group settles g (tr ++ map first xs)) as [ [ l | e ] tr2 ];
    cbn [fst snd] in *; [ | contradiction ].
  subst tr2. exists l, evs2. rewrite <- app_assoc in HQg |- *.
  split; [ reflexivity | ]. split; [ apply Forall_app; auto | exact HQg ].
Qed.



Lemma Promise_all_nil :
  forall A tr, Promise_all (@nil (Async A)) tr = (Return [], tr).
Proof. reflexivity. Qed.

(** *** The started calls of the client *)






Lemma request_answer :
  forall meth endpoint payload qs tr,
    request meth endpoint payload qs tr =
    (match fetch tr (request_url this endpoint qs) (request_options this meth payload) with
     | Resolved response =>
         if negb (ok response) then Throw (ThrownError (api_error response))
         else if (text response =? "")%string then Return (JObj [])
              else JSON_parse (text response)
     | Rejected t => Throw t
     end, tr ++ [request_event meth endpoint payload qs]).
Proof.
  intros. unfold request, bind, await_fetch, request_event.
  destruct (fetch tr _ _) as [ response | t ]; [ | reflexivity ].
  destruct (negb (ok response)); [ reflexivity | ].
  destruct (text response =? "")%string; reflexivity.
Qed.

(** A started request makes its call at once and settles, when it is
    resumed, with what the transport answered to that call. *)
Lemma request_task_keeps :
  forall (P : Event -> Prop) meth endpoint payload qs start tr,
    P (request_event meth endpoint payload qs) ->
    extends start tr ->
    starts_keeping P
      (fun tr r =>
         exists h,
           extends start h /\
           extends (h ++ [request_event meth endpoint payload qs]) tr /\
           request meth endpoint payload qs h =
           (r, h ++ [request_event meth endpoint payload qs]))
      (request_task meth endpoint payload qs) tr.
Proof.
  intros P meth endpoint payload qs start tr HP Hstart.
  unfold starts_keeping, request_task, bind_async, fetch_task. cbn [then_task].
  exists [request_event meth endpoint payload qs].
  split; [ reflexivity | ]. split; [ repeat constructor; exact HP | ].
  cbn [keeps]. intros tr1 Hext. cbn [then_task].
  pose proof (request_answer meth endpoint payload qs tr) as Hanswer.
  destruct (fetch tr _ _) as [ response | t ].
  - destruct (negb (ok response));
      [ | destruct (text response =? "")%string ];
      (exists []; split; [ symmetry; apply app_nil_r | ]; split; [ constructor | ];
       cbn [keeps]; exists tr; split; [ exact Hstart | ]; split; [ exact Hext | exact Hanswer ]).
  - exists []. split; [ symmetry; apply app_nil_r | ]. split; [ constructor | ].
    cbn [keeps]. exists tr. split; [ exact Hstart | ]. split; [ exact Hext | exact Hanswer ].
Qed.

Lemma retried_outcome_lasting :
  forall meth endpoint payload qs config start,
    lasting (retried_outcome meth endpoint payload qs config start).
Proof.
  intros meth endpoint payload qs config start tr tr' r Hext (h & Hstart & Hh & Hr).
  exists h. split; [ exact Hstart | ]. split; [ eapply extends_trans; eauto | exact Hr ].
Qed.

(** A started call of [requestWithRetry], with rounds to go: its events are
    its own request and its waits, and its outcome is that of one of its
    own attempts. *)
Lemma retry_task_keeps :
  forall (P : Event -> Prop) meth endpoint payload qs config start,
    (forall ev, retry_event meth endpoint payload qs config ev -> P ev) ->
    forall (n : nat) attempt lastError tr,
      0 <= attempt ->
      attempt + Z.of_nat n = maxRetries config ->
      extends start tr ->
      starts_keeping P (retried_outcome meth endpoint payload qs config start)
        (retry_task (S n) meth endpoint payload qs config attempt lastError) tr.
Proof.
  intros P meth endpoint payload qs config start HP n.
  induction n as [ | n IH ]; intros attempt lastError tr Hpos Hn Hstart;
    cbn [retry_task];
    (eapply try_catch_async_keeps;
     [ | apply (request_task_keeps P meth endpoint payload qs start);
         [ apply HP; reflexivity | exact Hstart ] | | ]);
    try (intros tr1 tr2 r Hext (h & Hsh & Hh & Hr); exists h;
         split; [ exact Hsh | ]; split; [ eapply extends_trans; eauto | exact Hr ]);
    try (intros tr1 v Hext (h & Hsh & Hh & Hr); exists h;
         split; [ exact Hsh | ]; split; [ exact Hh | exact Hr ]).
  - intros tr1 error Hext (h & Hsh & Hh & Hr).
    replace (attempt <? maxRetries config) with false
      by (symmetry; apply Z.ltb_ge; lia).
    rewrite andb_false_r. unfold starts_keeping, throw_async. exists [].
    split; [ symmetry; apply app_nil_r | ]. split; [ constructor | ].
    cbn [keeps]. exists h. split; [ exact Hsh | ]. split; [ exact Hh | ].
    exists error, attempt.
    split; [ exact Hr | ]. split; [ lia | ]. split; [ right; lia | reflexivity ].
  - intros tr1 error Hext (h & Hsh & Hh & Hr).
    replace (attempt <? maxRetries config) with true
      by (symmetry; apply Z.ltb_lt; lia).
    rewrite andb_true_r. destruct (isRetryableError error) eqn:Hretryable.
    + change (starts_keeping P (retried_outcome meth endpoint payload qs config start)
                (bind_async (sleep_task (retry_delay tr1 error attempt config))
                   (fun _ => retry_task (S n) meth endpoint payload qs config
                               (attempt + 1) error)) tr1).
      eapply (bind_async_keeps unit JsValue P (fun _ r => r = Return tt)).
      * intros tr2 tr3 r _ Hreturn. exact Hreturn.
      * unfold starts_keeping, sleep_task.
        exists [EvSleep (retry_delay tr1 error attempt config)].
        split; [ reflexivity | ]. split.
        { repeat constructor. apply HP. simpl.
          apply retry_delay_is_retry_wait; [ lia | exact Hretryable ]. }
        cbn [keeps]. intros tr2 _. exists [].
        split; [ symmetry; apply app_nil_r | ]. split; [ constructor | reflexivity ].
      * intros tr2 [] Hext2 _. apply IH; [ lia | lia | ].
        eapply extends_trans; [ exact Hstart | ].
        eapply extends_trans; [ exact Hext | exact Hext2 ].
      * intros tr2 e _ Hreturn. discriminate.
    + unfold starts_keeping, throw_async. exists [].
      split; [ symmetry; apply app_nil_r | ]. split; [ constructor | ].
      cbn [keeps]. exists h. split; [ exact Hsh | ]. split; [ exact Hh | ].
      exists error, attempt.
      split; [ exact Hr | ]. split; [ lia | ].
      split; [ left; exact Hretryable | reflexivity ].
Qed.

(** With the default policy there are rounds to go, so a started call makes
    its first request at once. *)
Lemma requestWithRetry_task_keeps :
  forall (P : Event -> Prop) meth endpoint payload qs start tr,
    (forall ev,
        retry_event meth endpoint payload qs
          (merge_config DEFAULT_RETRY_CONFIG no_override) ev -> P ev) ->
    extends start tr ->
    starts_keeping P
      (retried_outcome meth endpoint payload qs
         (merge_config DEFAULT_RETRY_CONFIG no_override) start)
      (requestWithRetry_task meth endpoint payload qs no_override) tr.
Proof.
  intros P meth endpoint payload qs start tr HP Hstart. unfold requestWithRetry_task.
  apply (retry_task_keeps P meth endpoint payload qs _ start HP 3%nat);
    [ simpl; lia | simpl; lia | exact Hstart ].
Qed.

Lemma requestWithRetry_task_first :
  forall meth endpoint payload qs tr,
    snd (requestWithRetry_task meth endpoint payload qs no_override tr) =
    tr ++ [request_event meth endpoint payload qs].
Proof. reflexivity. Qed.

(** *** The batch executor *)

Lemma bulk_request_task :
  forall operation endpoint item,
    bulk_request operation endpoint item =
    requestWithRetry_task (bulk_method operation) (bulk_path operation endpoint item)
      (bulk_body operation item) None no_override.
Proof. intros [ | | ] endpoint item; reflexivity. Qed.

Lemma bulk_event_request :
  forall operation endpoint item,
    bulk_event operation endpoint item =
    request_event (bulk_method operation) (bulk_path operation endpoint item)
      (bulk_body operation item) None.
Proof. intros [ | | ] endpoint item; reflexivity. Qed.

(** An item's call makes its first request right when it is started. *)
Lemma bulk_item_first :
  forall operation endpoint item tr,
    snd (bulk_item operation endpoint item tr) =
    tr ++ [bulk_event operation endpoint item].
Proof. intros [ | | ] endpoint item tr; reflexivity. Qed.

Lemma item_outcome_lasting :
  forall operation endpoint start item,
    lasting (fun tr result => item_outcome operation endpoint start tr item result).
Proof.
  intros operation endpoint start item tr tr' result Hext (h & Hstart & Hh & Hr).
  exists h. split; [ exact Hstart | ]. split; [ eapply extends_trans; eauto | exact Hr ].
Qed.

(** An item's call never throws: its result is the outcome of one of its
    own requests, and its events are its own. *)
Lemma bulk_item_keeps :
  forall operation endpoint batch start item tr,
    In item batch ->
    extends start tr ->
    starts_keeping (bulk_events_of operation endpoint batch)
      (fun tr r => match r with
                   | Return result => item_outcome operation endpoint start tr item result
                   | Throw _ => False
                   end)
      (bulk_item operation endpoint item) tr.
Proof.
  intros operation endpoint batch start item tr Hin Hstart.
  set (meth := bulk_method operation).
  set (path := bulk_path operation endpoint item).
  set (payload := bulk_body operation item).
  set (config := merge_config DEFAULT_RETRY_CONFIG no_override).
  assert (Hevents : forall ev,
             retry_event meth path payload None config ev ->
             bulk_events_of operation endpoint batch ev).
  { intros [ url options | ms ] Hev; simpl in Hev |- *; [ | exact Hev ].
    exists item. split; [ exact Hin | ]. rewrite bulk_event_request. exact Hev. }
  unfold bulk_item. rewrite bulk_request_task. fold meth path payload.
  eapply (try_catch_async_keeps _ _
            (fun tr r =>
               match r with
               | Return a =>
                   exists v, a = success_result v /\
                             retried_outcome meth path payload None config start tr
                               (Return v)
               | Throw t =>
                   retried_outcome meth path payload None config start tr (Throw t)
               end)).
  - intros tr1 tr2 [ a | t ] Hext.
    + intros (v & Ha & Hv). exists v. split; [ exact Ha | ].
      eapply retried_outcome_lasting; eauto.
    + apply retried_outcome_lasting. exact Hext.
  - eapply bind_async_keeps.
    + apply (retried_outcome_lasting meth path payload None config start).
    + apply requestWithRetry_task_keeps; [ exact Hevents | exact Hstart ].
    + intros tr1 v _ Hv. unfold starts_keeping, ret_async. exists [].
      split; [ symmetry; apply app_nil_r | ]. split; [ constructor | ].
      cbn [keeps]. exists v. split; [ reflexivity | exact Hv ].
    + intros tr1 t _ Ht. exact Ht.
  - intros tr1 a _ (v & -> & h & Hsh & Hh & Hr).
    exists h. split; [ exact Hsh | ].
    split; [ rewrite bulk_event_request; exact Hh | ].
    fold meth path payload. rewrite Hr. reflexivity.
  - intros tr1 t _ (h & Hsh & Hh & error & attempt & Hr & Hattempt & Hwhy & ->).
    unfold starts_keeping, ret_async. exists [].
    split; [ symmetry; apply app_nil_r | ]. split; [ constructor | ].
    cbn [keeps]. exists h. split; [ exact Hsh | ].
    split; [ rewrite bulk_event_request; exact Hh | ].
    fold meth path payload. rewrite Hr. cbn [fst].
    exists attempt. split; [ exact Hattempt | ]. split; [ exact Hwhy | ].
    unfold failure_result, wrapped_error, error_message. reflexivity.
Qed.

Lemma bulk_loop_step :
  forall operation endpoint items i results tr,
    bulk_loop operation endpoint items i results tr =
    if (i <? List.length items)%nat then
      match Promise_all (map (bulk_item operation endpoint)
                           (slice i (i + concurrencyLimit) items)) tr with
      | (Return batchResults, tr') =>
          bulk_loop operation endpoint items (i + concurrencyLimit)%nat
            (results ++ batchResults) tr'
      | (Throw t, tr') => (Throw t, tr')
      end
    else (Return results, tr).
Proof.
  intros operation endpoint items i results tr.
  funelim (bulk_loop operation endpoint items i results tr);
    try clear Heqcall;
    try rewrite inside; try rewrite outside;
    repeat match goal with
           | H : Promise_all _ _ = _ |- _ => rewrite H; clear H
           end;
    reflexivity.
Qed.

(** Within a batch the requests of the items go out first, in the order of
    the items; every item gets its result, in that order, whatever the
    order in which the calls go on: no promise rejects. *)
Lemma Promise_all_bulk_items :
  forall operation endpoint batch start tr,
    extends start tr ->
    exists results evs,
      Promise_all (map (bulk_item operation endpoint) batch) tr =
      (Return results, tr ++ map (bulk_event operation endpoint) batch ++ evs) /\
      Forall (bulk_events_of operation endpoint batch)
        (map (bulk_event operation endpoint) batch ++ evs) /\
      Forall2 (item_outcome operation endpoint start
                 (tr ++ map (bulk_event operation endpoint) batch ++ evs))
        batch results.
Proof.
  intros operation endpoint batch start tr Hstart.
  apply (Promise_all_keeps JsValue DataObject
           (bulk_events_of operation endpoint batch)
           (fun item tr result => item_outcome operation endpoint start tr item result)
           (bulk_item operation endpoint) (bulk_event operation endpoint) batch tr).
  - intros item. apply item_outcome_lasting.
  - intros item tr' Hin Hext. apply bulk_item_keeps; [ exact Hin | ].
    eapply extends_trans; eauto.
  - intros item tr'. apply bulk_item_first.
Qed.

Lemma slice_In :
  forall A (i j : nat) (l : list A) x, In x (slice i j l) -> In x l.
Proof.
  intros A i j l x Hin. unfold slice in Hin.
  rewrite <- (firstn_skipn i l). apply in_or_app. right.
  rewrite <- (firstn_skipn (j - i) (skipn i l)). apply in_or_app. left. exact Hin.
Qed.

Lemma slice_skipn :
  forall A (i n : nat) (l : list A),
    skipn i l = slice i (i + n) l ++ skipn (i + n) l.
Proof.
  intros A i n l. unfold slice. replace (i + n - i)%nat with n by lia.
  rewrite Nat.add_comm, <- skipn_skipn. symmetry. apply firstn_skipn.
Qed.

Lemma bulk_events_of_incl :
  forall operation endpoint batch items ev,
    (forall item, In item batch -> In item items) ->
    bulk_events_of operation endpoint batch ev ->
    bulk_events_of operation endpoint items ev.
Proof.
  intros operation endpoint batch items [ url options | ms ] Hincl Hev; simpl in *;
    [ | exact Hev ].
  destruct Hev as (item & Hin & Hev). exists item. auto.
Qed.

(** The loop over the batches: it returns, with a result for each item from
    [i] on, in order. *)
Lemma bulk_loop_run :
  forall operation endpoint items start (n : nat) i results tr,
    (List.length items - i <= n)%nat ->
    extends start tr ->
    exists rest evs,
      bulk_loop operation endpoint items i results tr =
      (Return (results ++ rest), tr ++ evs) /\
      Forall2 (item_outcome operation endpoint start (tr ++ evs)) (skipn i items) rest /\
      Forall (bulk_events_of operation endpoint items) evs /\
      Forall (fun item => In (bulk_event operation endpoint item) evs) (skipn i items) /\
      exists later,
        evs = map (bulk_event operation endpoint) (slice i (i + concurrencyLimit) items)
              ++ later.
Proof.
  intros operation endpoint items start n.
  induction n as [ | n IH ]; intros i results tr Hn Hstart; rewrite bulk_loop_step.
  - replace (i <? List.length items)%nat with false
      by (symmetry; apply Nat.ltb_ge; lia).
    exists [], []. rewrite !app_nil_r. unfold slice. rewrite skipn_all2 by lia.
    rewrite firstn_nil. repeat split; try constructor. exists []. reflexivity.
  - destruct (i <? List.length items)%nat eqn:Hi.
    + apply Nat.ltb_lt in Hi.
      set (batch := slice i (i + concurrencyLimit) items).
      destruct (Promise_all_bulk_items operation endpoint batch start tr Hstart)
        as (batchResults & evs1 & Hall & Hevs1 & Hbatch).
      rewrite Hall.
      set (started := map (bulk_event operation endpoint) batch) in *.
      destruct (IH (i + concurrencyLimit)%nat (results ++ batchResults)
                  (tr ++ started ++ evs1))
        as (rest & evs2 & Hrun & Hrest & Hevs2 & Hsent & _);
        [ unfold concurrencyLimit; lia
        | eapply extends_trans; [ exact Hstart | apply extends_app ] | ].
      exists (batchResults ++ rest), ((started ++ evs1) ++ evs2).
      rewrite Hrun, <- !app_assoc.
      split; [ reflexivity | ].
      rewrite (slice_skipn _ i concurrencyLimit items). fold batch.
      split; [ | split; [ | split ] ].
      * apply Forall2_app.
        -- eapply Forall2_impl; [ | exact Hbatch ]. intros item result.
           apply item_outcome_lasting. exists evs2. rewrite <- !app_assoc. reflexivity.
        -- rewrite <- !app_assoc in Hrest. exact Hrest.
      * rewrite app_assoc. apply Forall_app. split; [ | exact Hevs2 ].
        eapply Forall_impl; [ | exact Hevs1 ]. intros ev.
        apply bulk_events_of_incl. intros item. apply slice_In.
      * apply Forall_app. split.
        -- apply Forall_forall. intros item Hin. apply in_or_app. left.
           unfold started. apply in_map. exact Hin.
        -- eapply Forall_impl; [ | exact Hsent ]. intros item Hin.
           rewrite app_assoc. apply in_or_app. right. exact Hin.
      * exists (evs1 ++ evs2). reflexivity.
    + exists [], []. apply Nat.ltb_ge in Hi. rewrite !app_nil_r. unfold slice.
      rewrite skipn_all2 by lia. rewrite firstn_nil.
      repeat split; try constructor. exists []. reflexivity.
Qed.

(** [bulkOperation] returns: a result for each item, in order; every item is
    requested, and nothing but the items. *)
Lemma bulkOperation_run :
  forall operation resource items tr,
    exists results evs,
      bulkOperation operation resource items tr = (Return results, tr ++ evs) /\
      Forall2 (item_outcome operation (getResourceEndpoint resource) tr (tr ++ evs))
        items results /\
      Forall (bulk_events_of operation (getResourceEndpoint resource) items) evs /\
      Forall (fun item => In (bulk_event operation (getResourceEndpoint resource) item) evs)
        items /\
      exists later,
        evs = map (bulk_event operation (getResourceEndpoint resource)) (firstn 5 items)
              ++ later.
Proof.
  intros operation resource items tr.
  destruct (bulk_loop_run operation (getResourceEndpoint resource) items tr
              (List.length items) 0%nat [] tr) as (results & evs & Hrun & Hout);
    [ lia | apply extends_refl | ].
  exists results, evs. split; [ exact Hrun | exact Hout ].
Qed.

(** Without items nothing happens. *)
Lemma bulkOperation_nil :
  forall operation resource tr,
    bulkOperation operation resource [] tr = (Return [], tr).
Proof.
  intros. unfold bulkOperation. rewrite bulk_loop_step. reflexivity.
Qed.

(** The request of an update on the wire. *)
Lemma bulk_event_update :
  forall endpoint item,
    bulk_event update endpoint item =
    EvFetch (baseUrl this +++ endpoint +++ "/" +++ js_String (obj_prop "id" item))
      {| method := "PUT";
         headers := [("Authorization", "Bearer " +++ apiKey this);
                     ("Content-Type", "application/json")];
         body := match filter (fun kv => negb (fst kv =? "id")%string) item with
                 | [] => None
                 | _ :: _ =>
                     JSON_stringify
                       (JObj (filter (fun kv => negb (fst kv =? "id")%string) item))
                 end |}.
Proof.
  intros endpoint item.
  unfold bulk_event, request_event, request_url, request_options, request_body.
  change (obj_delete "id" item)
    with (filter (fun kv : string * JsValue => negb (fst kv =? "id")%string) item).
  destruct (filter _ item); reflexivity.
Qed.

(** C7. In a batch update every item is requested with PUT at the endpoint
    followed by a slash and the identifier of the item, and the body of that
    request is the JSON text of the item's entries other than [id], in their
    order and with their values (no body when there is no other entry); the
    run makes no other request. *)
Theorem C7_update_strips_id_and_targets_it :
  forall resource items tr,
    let endpoint := getResourceEndpoint resource in
    let put (item : DataObject) : Event :=
      EvFetch (baseUrl this +++ endpoint +++ "/" +++ js_String (obj_prop "id" item))
        {| method := "PUT";
           headers := [("Authorization", "Bearer " +++ apiKey this);
                       ("Content-Type", "application/json")];
           body := match filter (fun kv => negb (fst kv =? "id")%string) item with
                   | [] => None
                   | _ :: _ =>
                       JSON_stringify
                         (JObj (filter (fun kv => negb (fst kv =? "id")%string) item))
                   end |} in
    exists evs,
      snd (bulkOperation update resource items tr) = tr ++ evs /\
      Forall (fun item => In (put item) evs) items /\
      Forall (fun ev => is_fetch ev = true -> exists item, In item items /\ ev = put item)
        evs.
Proof.
  intros resource items tr endpoint put.
  destruct (bulkOperation_run update resource items tr)
    as (results & evs & Hrun & _ & Hevs & Hsent & _).
  exists evs. rewrite Hrun. split; [ reflexivity | ]. split.
  - eapply Forall_impl; [ | exact Hsent ]. intros item Hin.
    unfold put. rewrite <- bulk_event_update. exact Hin.
  - eapply Forall_impl; [ | exact Hevs ]. intros [ url options | ms ] Hev Hfetch;
      [ | discriminate ].
    destruct Hev as (item & Hin & Hev). exists item. split; [ exact Hin | ].
    unfold put. rewrite <- bulk_event_update. exact Hev.
Qed.


(** *** Fan-out search *)

Lemma search_items_data :
  forall objectType response,
    match response_data response with
    | Return data => map (tag objectType) (to_items data)
    | Throw _ => []
    end = search_items objectType response.
Proof.
  intros objectType response. unfold response_data, read_prop, search_items, js_or.
  destruct (get_prop response "data") as [ d | ]; [ | reflexivity ].
  destruct (if truthy d then d else response); reflexivity.
Qed.


(** The call of a type makes its first request right when it is started. *)
Lemma search_call_first :
  forall query limit objectType tr,
    snd (search_call query limit objectType tr) =
    tr ++ [search_event query limit objectType].
Proof. reflexivity. Qed.

Lemma search_outcome_lasting :
  forall query limit start objectType,
    lasting (fun tr rows => search_outcome query limit start tr objectType rows).
Proof.
  intros query limit start objectType tr tr' rows Hext (h & Hstart & Hh & Hr).
  exists h. split; [ exact Hstart | ]. split; [ eapply extends_trans; eauto | exact Hr ].
Qed.

(** The call of a type never throws: what it returns is taken from the
    outcome of one of its own requests, and its events are its own. *)
Lemma search_call_keeps :
  forall query limit objectTypes start objectType tr,
    In objectType objectTypes ->
    extends start tr ->
    starts_keeping (search_events_of query limit objectTypes)
      (fun tr r => match r with
                   | Return rows => search_outcome query limit start tr objectType rows
                   | Throw _ => False
                   end)
      (search_call query limit objectType) tr.
Proof.
  intros query limit objectTypes start objectType tr Hin Hstart.
  set (path := "/rest/" +++ objectType).
  set (qs := Some (search_qs query limit)).
  set (config := merge_config DEFAULT_RETRY_CONFIG no_override).
  assert (Hevents : forall ev,
             retry_event "GET" path None qs config ev ->
             search_events_of query limit objectTypes ev).
  { intros [ url options | ms ] Hev; simpl in Hev |- *; [ | exact Hev ].
    exists objectType. split; [ exact Hin | exact Hev ]. }
  unfold search_call, search_body. fold path qs.
  eapply (try_catch_async_keeps _ _
            (fun tr r =>
               exists h,
                 extends start h /\
                 extends (h ++ [request_event "GET" path None qs]) tr /\
                 match fst (request "GET" path None qs h) with
                 | Return response =>
                     match r with
                     | Return rows => rows = search_items objectType response
                     | Throw _ => search_items objectType response = []
                     end
                 | Throw _ => exists t, r = Throw t
                 end)).
  - intros tr1 tr2 r Hext (h & Hsh & Hh & Hr). exists h.
    split; [ exact Hsh | ]. split; [ eapply extends_trans; eauto | exact Hr ].
  - eapply bind_async_keeps.
    + apply (retried_outcome_lasting "GET" path None qs config start).
    + apply requestWithRetry_task_keeps; [ exact Hevents | exact Hstart ].
    + intros tr1 response _ (h & Hsh & Hh & Hr).
      unfold starts_keeping, bind_async, lift_async, ret_async. cbn [then_task].
      pose proof (search_items_data objectType response) as Hitems.
      destruct (response_data response) as [ data | t ]; cbn [then_task];
        (exists []; split; [ symmetry; apply app_nil_r | ]; split; [ apply Forall_nil | ];
         cbn [keeps]; exists h; split; [ exact Hsh | ]; split; [ exact Hh | ];
         rewrite Hr; cbn [fst]; first [ exact Hitems | symmetry; exact Hitems ]).
    + intros tr1 t _ (h & Hsh & Hh & error & attempt & Hr & _).
      exists h. split; [ exact Hsh | ]. split; [ exact Hh | ].
      rewrite Hr. cbn [fst]. exists t. reflexivity.
  - intros tr1 rows _ (h & Hsh & Hh & Hr). exists h.
    split; [ exact Hsh | ]. split; [ exact Hh | ]. subst path qs.
    destruct (fst (request "GET" _ None _ h)) as [ response | error ];
      [ exact Hr | ].
    destruct Hr as (t & Ht). discriminate.
  - intros tr1 t _ (h & Hsh & Hh & Hr).
    unfold starts_keeping, ret_async. exists [].
    split; [ symmetry; apply app_nil_r | ]. split; [ constructor | ].
    cbn [keeps]. exists h. split; [ exact Hsh | ]. split; [ exact Hh | ]. subst path qs.
    destruct (fst (request "GET" _ None _ h)) as [ response | error ];
      [ symmetry; exact Hr | reflexivity ].
Qed.

(** The requests of the types go out first, in the order of the types;
    every type gets its contribution, in that order, whatever the order in
    which the calls go on: no promise rejects. *)
Lemma Promise_all_search :
  forall query limit objectTypes tr,
    exists searchResults evs,
      Promise_all (map (search_call query limit) objectTypes) tr =
      (Return searchResults,
       tr ++ map (search_event query limit) objectTypes ++ evs) /\
      Forall (search_events_of query limit objectTypes)
        (map (search_event query limit) objectTypes ++ evs) /\
      Forall2 (search_outcome query limit tr
                 (tr ++ map (search_event query limit) objectTypes ++ evs))
        objectTypes searchResults.
Proof.
  intros query limit objectTypes tr.
  apply (Promise_all_keeps (list JsValue) string
           (search_events_of query limit objectTypes)
           (fun objectType tr' rows => search_outcome query limit tr tr' objectType rows)
           (search_call query limit) (search_event query limit) objectTypes tr).
  - intros objectType. apply search_outcome_lasting.
  - intros objectType tr' Hin Hext. apply search_call_keeps; assumption.
  - intros objectType tr'. apply search_call_first.
Qed.

Lemma searchRecords_run :
  forall query objectTypes limit tr,
    let n := match limit with Some n => n | None => 20 end in
    exists searchResults evs,
      searchRecords query objectTypes limit tr =
      (Return (concat searchResults),
       tr ++ map (search_event query n) objectTypes ++ evs) /\
      Forall (search_events_of query n objectTypes)
        (map (search_event query n) objectTypes ++ evs) /\
      Forall2 (search_outcome query n tr
                 (tr ++ map (search_event query n) objectTypes ++ evs))
        objectTypes searchResults.
Proof.
  intros query objectTypes limit tr n.
  destruct (Promise_all_search query n objectTypes tr)
    as (searchResults & evs & Hall & Hevs & Hout).
  exists searchResults, evs. split; [ | split; assumption ].
  unfold searchRecords, bind, ret. fold n. rewrite Hall. reflexivity.
Qed.







(** *** Field-match lookup *)

Lemma find_by_filter_run :
  forall endpoint fieldName fieldValue tr,
    find_by_filter endpoint fieldName fieldValue tr =
    match requestWithRetry "GET" endpoint None
            (Some (filter_qs fieldName fieldValue)) no_override tr with
    | (Return response, tr1) =>
        match response_data response with
        | Return (JArr (first :: _)) => (Return first, tr1)
        | Return _ => (Return JNull, tr1)
        | Throw t => (Throw t, tr1)
        end
    | (Throw t, tr1) => (Throw t, tr1)
    end.
Proof.
  intros. unfold find_by_filter, bind, lift, ret.
  destruct (requestWithRetry _ _ _ _ _ tr) as [[response | t] tr1]; [ | reflexivity ].
  destruct (response_data response) as [ data | t ]; [ | reflexivity ].
  destruct data as [ | | | | | | [ | first rest ] | ]; reflexivity.
Qed.

Lemma find_by_search_run :
  forall endpoint fieldName fieldValue tr,
    find_by_search endpoint fieldName fieldValue tr =
    match requestWithRetry "GET" endpoint None
            (Some (search_qs fieldValue 10)) no_override tr with
    | (Return response, tr1) =>
        match response_data response with
        | Return (JArr rows) =>
            match array_find (field_matches fieldName fieldValue) rows with
            | Return found => (Return (js_or found JNull), tr1)
            | Throw t => (Throw t, tr1)
            end
        | Return _ => (Return JNull, tr1)
        | Throw t => (Throw t, tr1)
        end
    | (Throw t, tr1) => (Throw t, tr1)
    end.
Proof.
  intros. unfold find_by_search, bind, lift, ret.
  destruct (requestWithRetry _ _ _ _ _ tr) as [[response | t] tr1]; [ | reflexivity ].
  destruct (response_data response) as [ data | t ]; [ | reflexivity ].
  destruct data; reflexivity.
Qed.

Lemma response_data_throws :
  forall response t,
    response_data response = Throw t -> response = JNull \/ response = JUndefined.
Proof.
  intros response t H. unfold response_data, read_prop in H.
  destruct response; simpl in H; auto; try discriminate.
  - destruct (index_of_key _ _); discriminate.
  - destruct (index_of_key _ _); discriminate.
Qed.

Lemma get_prop_none :
  forall v k, get_prop v k = None -> v = JNull \/ v = JUndefined.
Proof.
  intros v k H. destruct v; simpl in H; auto; try discriminate.
  - destruct (k =? "length")%string; [ discriminate | ].
    destruct (index_of_key _ _); discriminate.
  - destruct (k =? "length")%string; [ discriminate | ].
    destruct (index_of_key _ _); discriminate.
Qed.



(** *** The pagination aggregator *)

Lemma requestWithRetry_returns :
  forall meth endpoint payload qs tr v tr1,
    request meth endpoint payload qs tr = (Return v, tr1) ->
    requestWithRetry meth endpoint payload qs no_override tr = (Return v, tr1).
Proof.
  intros * Hreq. unfold requestWithRetry. rewrite retry_loop_step, Hreq. reflexivity.
Qed.

Lemma first_page_limit :
  forall qs, obj_prop "limit" (first_page_qs qs) = effective_limit qs.
Proof.
  intros qs. unfold first_page_qs, effective_limit, obj_prop.
  rewrite obj_get_set_other by discriminate.
  rewrite obj_get_set_same. reflexivity.
Qed.

Lemma page_qs_limit :
  forall qs offset, obj_prop "limit" (page_qs qs offset) = effective_limit qs.
Proof.
  intros qs offset. unfold page_qs, obj_prop.
  rewrite obj_get_set_other by discriminate. apply first_page_limit.
Qed.

Lemma page_qs_offset :
  forall qs offset, obj_prop "offset" (page_qs qs offset) = offset.
Proof.
  intros qs offset. unfold page_qs, obj_prop. rewrite obj_get_set_same. reflexivity.
Qed.

Lemma page_qs_next :
  forall qs offset offset',
    obj_set "offset" offset' (page_qs qs offset) = page_qs qs offset'.
Proof. intros. unfold page_qs. apply obj_set_set. Qed.

Lemma first_page_qs_offset :
  forall qs, first_page_qs qs = page_qs qs (JNum 0).
Proof.
  intros qs. unfold page_qs. unfold first_page_qs at 2.
  rewrite obj_set_set. reflexivity.
Qed.

(** A page is full exactly when its [data] is an array of [limit] items. *)
Lemma is_full_page_iff :
  forall limit response d,
    get_prop response "data" = Some d ->
    (is_full_page limit response = true <->
     exists l, d = JArr l /\ Z.of_nat (List.length l) = limit).
Proof.
  intros limit response d Hd. unfold is_full_page, more_pages. rewrite Hd.
  destruct d as [ | | b | n | | s | l | o ];
    try (split; [ try discriminate; rewrite ?andb_false_r; discriminate
                | intros (l' & Hl & _); discriminate ]).
  simpl. split.
  - intros H. exists l. split; [ reflexivity | ]. apply Z.eqb_eq, H.
  - intros (l' & Hl & Hlen). inversion Hl; subst. apply Z.eqb_eq. reflexivity.
Qed.

Lemma paginate_run :
  forall meth endpoint payload qs limit,
    effective_limit qs = JNum limit ->
    forall fulls last k tr tr' fuel returnData,
      served meth endpoint payload qs limit k tr (fulls ++ [last]) tr' ->
      Forall (fun response => is_full_page limit response = true) fulls ->
      is_full_page limit last = false ->
      get_prop last "data" <> None ->
      (List.length fulls < fuel)%nat ->
      paginate fuel meth endpoint payload (page_qs qs (JNum (Z.of_nat k * limit)))
        returnData tr =
      Some (Return (returnData ++ concat (map page_items (fulls ++ [last]))), tr').
Proof.
  intros meth endpoint payload qs limit Hlimit fulls.
  induction fulls as [ | full fulls IH ];
    intros last k tr tr' fuel returnData Hserved Hfulls Hlast Hread Hfuel;
    (destruct fuel as [ | fuel ]; [ simpl in Hfuel; lia | ]);
    inversion Hserved as [ | k0 tr0 response tr1 pages tr2 Hreq Hrest ]; subst;
    cbn [paginate]; rewrite Hreq; unfold read_prop.
  - inversion Hrest; subst.
    destruct (get_prop last "data") as [ d | ] eqn:Hd; [ | congruence ].
    rewrite page_qs_next, !page_qs_limit, Hlimit.
    unfold is_full_page in Hlast. rewrite Hd in Hlast. rewrite Hlast.
    unfold page_items. simpl. rewrite Hd, app_nil_r. reflexivity.
  - inversion Hfulls as [ | ? ? Hfull Hfulls' ]; subst.
    unfold is_full_page in Hfull.
    destruct (get_prop full "data") as [ d | ] eqn:Hd; [ | discriminate ].
    rewrite page_qs_next, !page_qs_limit, page_qs_offset, Hlimit, Hfull.
    replace (js_add (JNum (Z.of_nat k * limit)) (JNum limit))
      with (JNum (Z.of_nat (S k) * limit))
      by (rewrite Nat2Z.inj_succ; cbn [js_add is_stringish orb to_number];
          f_equal; lia).
    rewrite (IH last (S k) tr1 tr' fuel); auto; [ | simpl in Hfuel; lia ].
    unfold page_items at 2. cbn [app map concat]. rewrite Hd, <- app_assoc.
    reflexivity.
Qed.

(** A page that is [null] ends the run with the TypeError of reading its
    [data]; the pages before it are lost. *)
Lemma paginate_unreadable :
  forall meth endpoint payload qs limit,
    effective_limit qs = JNum limit ->
    forall fulls last k tr tr' fuel returnData,
      served meth endpoint payload qs limit k tr (fulls ++ [last]) tr' ->
      Forall (fun response => is_full_page limit response = true) fulls ->
      get_prop last "data" = None ->
      (List.length fulls < fuel)%nat ->
      paginate fuel meth endpoint payload (page_qs qs (JNum (Z.of_nat k * limit)))
        returnData tr =
      Some (Throw (ThrownError
                     (new_Error ("Cannot read properties of " +++ js_String last
                                 +++ " (reading 'data')"))), tr').
Proof.
  intros meth endpoint payload qs limit Hlimit fulls.
  induction fulls as [ | full fulls IH ];
    intros last k tr tr' fuel returnData Hserved Hfulls Hread Hfuel;
    (destruct fuel as [ | fuel ]; [ simpl in Hfuel; lia | ]);
    inversion Hserved as [ | k0 tr0 response tr1 pages tr2 Hreq Hrest ]; subst;
    cbn [paginate]; rewrite Hreq; unfold read_prop.
  - inversion Hrest; subst. rewrite Hread. reflexivity.
  - inversion Hfulls as [ | ? ? Hfull Hfulls' ]; subst.
    unfold is_full_page in Hfull.
    destruct (get_prop full "data") as [ d | ] eqn:Hd; [ | discriminate ].
    rewrite page_qs_next, !page_qs_limit, page_qs_offset, Hlimit, Hfull.
    replace (js_add (JNum (Z.of_nat k * limit)) (JNum limit))
      with (JNum (Z.of_nat (S k) * limit))
      by (rewrite Nat2Z.inj_succ; cbn [js_add is_stringish orb to_number];
          f_equal; lia).
    apply (IH last (S k) tr1 tr' fuel); auto. simpl in Hfuel. lia.
Qed.

(** C2. With a numeric limit in force ([qs.limit || 200]), the aggregator
    asks for the page at offset 0, then at offset [limit], [2 * limit], and
    so on; it asks for a further page exactly after a page whose [data] is
    an array of [limit] items, and stops at the first page that is not such
    a page.  When [data] can be read from that page (it is not an array, or
    has a number of items other than [limit]) the run returns the items of
    all the pages in the order of the pages; when that page is [null], the
    run throws the TypeError of reading [data] of [null] and returns no
    item at all.  With pages of 200 then 30 items and the default limit, it
    returns the 230 items after two calls of [fetch], for offset 0 and for
    offset 200. *)
Theorem C2_pagination_rounds :
  forall meth endpoint payload qs limit,
    effective_limit qs = JNum limit ->
    (obj_prop "offset" (first_page_qs qs) = JNum 0 /\
     obj_prop "limit" (first_page_qs qs) = JNum limit)
    /\
    (forall fulls last tr tr' fuel,
        served meth endpoint payload qs limit 0 tr (fulls ++ [last]) tr' ->
        Forall (fun response => is_full_page limit response = true) fulls ->
        is_full_page limit last = false ->
        get_prop last "data" <> None ->
        (List.length fulls < fuel)%nat ->
        requestAllItems fuel meth endpoint payload qs tr =
        Some (Return (concat (map page_items (fulls ++ [last]))), tr'))
    /\
    (forall fulls last tr tr' fuel,
        served meth endpoint payload qs limit 0 tr (fulls ++ [last]) tr' ->
        Forall (fun response => is_full_page limit response = true) fulls ->
        get_prop last "data" = None ->
        (List.length fulls < fuel)%nat ->
        (last = JNull \/ last = JUndefined) /\
        requestAllItems fuel meth endpoint payload qs tr =
        Some (Throw (ThrownError
                       (new_Error ("Cannot read properties of " +++ js_String last
                                   +++ " (reading 'data')"))), tr'))
    /\
    (forall response d,
        get_prop response "data" = Some d ->
        (is_full_page limit response = false <->
         isArray d = false \/
         exists l, d = JArr l /\ Z.of_nat (List.length l) <> limit))
    /\
    (forall tr r1 r2 page1 page2 items1 items2 fuel,
        let options := request_options this "GET" None in
        let url0 := (baseUrl this +++ endpoint) +++ "?limit=200&offset=0" in
        let url200 := (baseUrl this +++ endpoint) +++ "?limit=200&offset=200" in
        fetch tr url0 options = Resolved r1 ->
        ok r1 = true -> (text r1 =? "")%string = false ->
        JSON_parse (text r1) = Return page1 ->
        get_prop page1 "data" = Some (JArr items1) ->
        List.length items1 = 200%nat ->
        fetch (tr ++ [EvFetch url0 options]) url200 options = Resolved r2 ->
        ok r2 = true -> (text r2 =? "")%string = false ->
        JSON_parse (text r2) = Return page2 ->
        get_prop page2 "data" = Some (JArr items2) ->
        List.length items2 = 30%nat ->
        (2 <= fuel)%nat ->
        requestAllItems fuel "GET" endpoint None None tr =
        Some (Return (items1 ++ items2),
              tr ++ [EvFetch url0 options; EvFetch url200 options]) /\
        List.length (items1 ++ items2) = 230%nat).
Proof.
  intros meth endpoint payload qs limit Hlimit.
  split; [ | split; [ | split; [ | split ] ] ].
  - split; [ | rewrite first_page_limit; exact Hlimit ].
    rewrite first_page_qs_offset. apply page_qs_offset.
  - intros fulls last tr tr' fuel Hserved Hfulls Hlast Hread Hfuel.
    unfold requestAllItems. rewrite first_page_qs_offset.
    change (JNum 0) with (JNum (Z.of_nat 0 * limit)).
    rewrite (paginate_run meth endpoint payload qs limit Hlimit fulls last 0%nat tr tr');
      auto.
  - intros fulls last tr tr' fuel Hserved Hfulls Hread Hfuel.
    split; [ exact (get_prop_none _ _ Hread) | ].
    unfold requestAllItems. rewrite first_page_qs_offset.
    change (JNum 0) with (JNum (Z.of_nat 0 * limit)).
    apply (paginate_unreadable meth endpoint payload qs limit Hlimit fulls last 0%nat
             tr tr'); auto.
  - intros response d Hd.
    pose proof (is_full_page_iff limit response d Hd) as Hfull.
    destruct (is_full_page limit response).
    + split; [ discriminate | ].
      destruct Hfull as [ Hfull _ ]. destruct (Hfull eq_refl) as (l & -> & Hlen).
      intros [ Harr | (l' & Hl & Hne) ]; [ discriminate | ].
      inversion Hl; subst. contradiction.
    + split; [ intros _ | reflexivity ].
      destruct d as [ | | b | n | | s | l | o ]; try (left; reflexivity).
      right. exists l. split; [ reflexivity | ].
      intros Hlen. destruct Hfull as [ _ Hfull ].
      discriminate Hfull. exists l. auto.
  - intros tr r1 r2 page1 page2 items1 items2 fuel options url0 url200
      Hf1 Hok1 Ht1 Hp1 Hd1 Hl1 Hf2 Hok2 Ht2 Hp2 Hd2 Hl2 Hfuel.
    split; [ | rewrite length_app, Hl1, Hl2; reflexivity ].
    destruct fuel as [ | [ | fuel ] ]; try lia.
    unfold requestAllItems. cbn [paginate].
    assert (Hu0 : request_url this endpoint (Some (first_page_qs None)) = url0)
      by reflexivity.
    rewrite (requestWithRetry_returns "GET" endpoint None (Some (first_page_qs None))
               tr page1 (tr ++ [EvFetch url0 options])).
    2:{ rewrite (request_ok "GET" endpoint None (Some (first_page_qs None)) tr r1 page1);
          auto. }
    unfold read_prop. rewrite Hd1.
    assert (Hmore1 : more_pages (JArr items1) (JNum 200) = true)
      by (unfold more_pages; rewrite Hl1; reflexivity).
    cbn -[request requestWithRetry more_pages]. rewrite Hmore1.
    rewrite (requestWithRetry_returns "GET" endpoint None
               (@Some DataObject [("limit", JNum 200); ("offset", JNum 200)])
               (tr ++ [EvFetch url0 options]) page2
               ((tr ++ [EvFetch url0 options]) ++ [EvFetch url200 options])).
    2:{ rewrite (request_ok "GET" endpoint None
                   (@Some DataObject [("limit", JNum 200); ("offset", JNum 200)])
                   (tr ++ [EvFetch url0 options]) r2 page2); auto. }
    rewrite Hd2.
    assert (Hmore2 : more_pages (JArr items2) (JNum 200) = false)
      by (unfold more_pages; rewrite Hl2; reflexivity).
    cbn -[more_pages]. rewrite Hmore2, <- app_assoc. reflexivity.
Qed.

(** ** Further properties of the code *)

(** *** Objects *)

Lemma obj_set_absent :
  forall k v o, ~ In k (keys o) -> obj_set k v o = o ++ [(k, v)].
Proof.
  intros k v o. induction o as [ | [k1 v1] o IH ]; intros Hnot; simpl; [ reflexivity | ].
  destruct (String.eqb_spec k1 k) as [ -> | Hne ].
  - exfalso. apply Hnot. left. reflexivity.
  - rewrite IH; [ reflexivity | ]. intros Hin. apply Hnot. right. exact Hin.
Qed.

Lemma keys_app : forall a b : DataObject, keys (a ++ b) = keys a ++ keys b.
Proof. intros. unfold keys. apply map_app. Qed.

Lemma keys_obj_set :
  forall k v o k', In k' (keys (obj_set k v o)) <-> k' = k \/ In k' (keys o).
Proof.
  intros k v o k'. induction o as [ | [k1 v1] o IH ]; simpl.
  - intuition.
  - destruct (String.eqb_spec k1 k) as [ -> | Hne ]; simpl; [ | rewrite IH ]; intuition.
Qed.

Lemma keys_obj_delete :
  forall k o k', In k' (keys (obj_delete k o)) <-> k' <> k /\ In k' (keys o).
Proof.
  intros k o k'. unfold obj_delete. induction o as [ | [k1 v1] o IH ]; simpl.
  - intuition.
  - destruct (String.eqb_spec k1 k) as [ -> | Hne ]; simpl; rewrite IH.
    + intuition congruence.
    + intuition congruence.
Qed.

Lemma obj_get_in :
  forall k v (o : DataObject), NoDup (keys o) -> In (k, v) o -> obj_get k o = Some v.
Proof.
  intros k v o. induction o as [ | [k1 v1] o IH ]; intros Hnd Hin; [ destruct Hin | ].
  simpl. inversion Hnd as [ | ? ? Hnot Hnd' ]; subst.
  destruct Hin as [ Heq | Hin ].
  - inversion Heq; subst. rewrite String.eqb_refl. reflexivity.
  - destruct (String.eqb_spec k1 k) as [ -> | Hne ]; [ | auto ].
    exfalso. apply Hnot. apply in_map_iff. exists (k, v). auto.
Qed.

Lemma obj_get_none :
  forall k (o : DataObject), obj_get k o = None <-> ~ In k (keys o).
Proof.
  intros k o. induction o as [ | [k1 v1] o IH ]; simpl.
  - intuition.
  - destruct (String.eqb_spec k1 k) as [ -> | Hne ].
    + split; [ discriminate | intros H; exfalso; apply H; auto ].
    + rewrite IH. intuition.
Qed.

(** Decimal numerals begin with a digit or with the sign. *)
Lemma string_of_Z_head :
  forall n, exists c rest,
    string_of_Z n = String c rest /\
    ((48 <=? nat_of_ascii c) && (nat_of_ascii c <=? 57) = true \/ c = "-"%char)%nat.
Proof.
  intros n. unfold string_of_Z.
  destruct (Z.to_int n) as [ d | d ]; simpl.
  - destruct d; simpl; eexists; eexists; (split; [ reflexivity | left; reflexivity ]).
  - eexists; eexists; (split; [ reflexivity | right; reflexivity ]).
Qed.

(** A key that begins with a letter is no index of an array or a string. *)
Lemma index_of_key_word :
  forall c rest len,
    ((48 <=? nat_of_ascii c) && (nat_of_ascii c <=? 57) = false)%nat ->
    c <> "-"%char ->
    index_of_key (String c rest) len = None.
Proof.
  intros c rest len Hdigit Hsign. unfold index_of_key.
  destruct (find _ (seq 0 len)) as [ i | ] eqn:Hfind; [ | reflexivity ].
  apply find_some in Hfind. destruct Hfind as [ _ Heq ].
  apply String.eqb_eq in Heq. unfold string_of_nat in Heq.
  destruct (string_of_Z_head (Z.of_nat i)) as (c' & rest' & Hhead & Hc).
  rewrite Hhead in Heq. inversion Heq; subst.
  destruct Hc as [ Hc | Hc ]; congruence.
Qed.

(** *** Field transformations *)

(** The order of the keys. *)
Lemma js_ordered_remove :
  forall a k b, js_ordered (a ++ k :: b) = true -> js_ordered (a ++ b) = true.
Proof.
  induction a as [ | x a IH ]; intros k b H; simpl in *.
  - apply andb_true_iff in H. tauto.
  - apply andb_true_iff in H. destruct H as [ Hx Ha ].
    rewrite forallb_app in Hx. simpl in Hx.
    apply andb_true_iff in Hx. destruct Hx as [ Hxa Hxb ].
    apply andb_true_iff in Hxb. destruct Hxb as [ _ Hxb ].
    rewrite forallb_app, Hxa, Hxb. simpl. eapply IH. exact Ha.
Qed.

Lemma js_ordered_before :
  forall a k b k',
    js_ordered (a ++ k :: b) = true -> In k' a -> key_before k' k = true.
Proof.
  induction a as [ | x a IH ]; intros k b k' H Hin; [ contradiction | ].
  simpl in H. apply andb_true_iff in H. destruct H as [ Hx Ha ].
  destruct Hin as [ -> | Hin ]; [ | eapply IH; eauto ].
  rewrite forallb_app in Hx. apply andb_true_iff in Hx. destruct Hx as [ _ Hx ].
  simpl in Hx. apply andb_true_iff in Hx. tauto.
Qed.

Lemma js_ordered_filter :
  forall (f : string * JsValue -> bool) (o : DataObject),
    js_ordered (keys o) = true -> js_ordered (keys (filter f o)) = true.
Proof.
  intros f o. induction o as [ | kv o IH ]; intros H; [ reflexivity | ].
  simpl in H. apply andb_true_iff in H. destruct H as [ Hkv Ho ].
  simpl. destruct (f kv); [ | auto ].
  simpl. rewrite IH by exact Ho. rewrite andb_true_r.
  apply forallb_forall. intros k Hk.
  rewrite forallb_forall in Hkv. apply Hkv.
  unfold keys in *. apply in_map_iff in Hk. destruct Hk as (x & <- & Hx).
  apply filter_In in Hx. apply in_map. tauto.
Qed.

(** A new index goes to the end when every key is a smaller index. *)
Lemma insert_index_last :
  forall n k v (o : DataObject),
    (forall k', In k' (keys o) -> exists n', array_index k' = Some n' /\ n' < n) ->
    insert_index n k v o = o ++ [(k, v)].
Proof.
  intros n k v o. induction o as [ | [k1 v1] o IH ]; intros H; [ reflexivity | ].
  simpl. destruct (H k1 (or_introl eq_refl)) as (n1 & Hk1 & Hlt). rewrite Hk1.
  replace (n1 <? n) with true by (symmetry; apply Z.ltb_lt; exact Hlt).
  rewrite IH; [ reflexivity | ]. intros k' Hin. apply H. right. exact Hin.
Qed.

(** Defining a new key that may stand after all the keys appends it. *)
Lemma obj_define_last :
  forall k v (o : DataObject),
    ~ In k (keys o) ->
    (forall k', In k' (keys o) -> key_before k' k = true) ->
    obj_define k v o = o ++ [(k, v)].
Proof.
  intros k v o Hnot Hbefore. unfold obj_define.
  replace (existsb (String.eqb k) (keys o)) with false.
  2:{ symmetry. apply not_true_is_false. intros Hex. apply Hnot.
      apply existsb_exists in Hex. destruct Hex as (k' & Hin & Heq).
      apply String.eqb_eq in Heq. subst k'. exact Hin. }
  destruct (array_index k) as [ n | ] eqn:Hk; [ | reflexivity ].
  apply insert_index_last. intros k' Hin. specialize (Hbefore k' Hin).
  unfold key_before in Hbefore. rewrite Hk in Hbefore.
  destruct (array_index k') as [ n' | ]; [ | discriminate ].
  exists n'. split; [ reflexivity | apply Z.ltb_lt; exact Hbefore ].
Qed.

(** The loop of [cleanObject]: on the entries of an object it appends the
    entries that are not blank, except an entry for [__proto__], whose
    assignment creates no property. *)
Lemma copy_non_blank_filter :
  forall rest result,
    NoDup (keys result ++ keys rest) ->
    js_ordered (keys result ++ keys rest) = true ->
    ~ In "__proto__" (keys result) ->
    copy_non_blank rest result =
    result ++ filter (fun kv => negb (is_blank (snd kv))
                                && negb (fst kv =? "__proto__")%string) rest.
Proof.
  induction rest as [ | [key value] rest IH ]; intros result Hnd Hord Hproto; simpl.
  - rewrite app_nil_r. reflexivity.
  - assert (Hnot : ~ In key (keys result)).
    { intros Hin. simpl in Hnd. apply NoDup_remove_2 in Hnd. apply Hnd.
      apply in_or_app. left. exact Hin. }
    assert (Hnd' : NoDup (keys result ++ keys rest))
      by (simpl in Hnd; apply NoDup_remove_1 in Hnd; exact Hnd).
    assert (Hord' : js_ordered (keys result ++ keys rest) = true)
      by (simpl in Hord; eapply js_ordered_remove; exact Hord).
    destruct (is_blank value) eqn:Hblank; cbn [negb andb]; [ apply IH; assumption | ].
    unfold obj_assign. destruct (String.eqb_spec key "__proto__") as [ -> | Hkey ].
    + replace (existsb (String.eqb "__proto__") (keys result)) with false.
      2:{ symmetry. apply not_true_is_false. intros Hex. apply Hproto.
          apply existsb_exists in Hex. destruct Hex as (k' & Hin & Heq).
          apply String.eqb_eq in Heq. subst k'. exact Hin. }
      cbn [negb andb]. apply IH; assumption.
    + cbn [negb andb]. rewrite obj_define_last.
      * rewrite IH.
        -- rewrite <- app_assoc. reflexivity.
        -- rewrite keys_app, <- app_assoc. exact Hnd.
        -- rewrite keys_app, <- app_assoc. exact Hord.
        -- rewrite keys_app. intros Hin. apply in_app_or in Hin.
           destruct Hin as [ Hin | [ Heq | [] ] ]; [ exact (Hproto Hin) | ].
           apply Hkey. exact Heq.
      * exact Hnot.
      * intros k' Hin. simpl in Hord. eapply js_ordered_before; eauto.
Qed.

Lemma cleanObject_filter :
  forall obj,
    NoDup (keys obj) ->
    js_ordered (keys obj) = true ->
    cleanObject obj = filter (fun kv => negb (is_blank (snd kv))
                                        && negb (fst kv =? "__proto__")%string) obj.
Proof.
  intros obj Hnd Hord. unfold cleanObject.
  rewrite copy_non_blank_filter; auto.
Qed.

Lemma keys_filter_NoDup :
  forall (f : string * JsValue -> bool) (o : DataObject),
    NoDup (keys o) -> NoDup (keys (filter f o)).
Proof.
  intros f o. induction o as [ | kv o IH ]; intros Hnd; simpl; [ constructor | ].
  inversion Hnd as [ | ? ? Hnot Hnd' ]; subst.
  destruct (f kv); simpl; [ constructor | ]; auto.
  intros Hin. apply Hnot. unfold keys in *. apply in_map_iff in Hin.
  destruct Hin as (x & Hx & Hin). apply filter_In in Hin. destruct Hin as [Hin _].
  apply in_map_iff. exists x. auto.
Qed.

Lemma filter_filter_same :
  forall (A : Type) (f : A -> bool) (l : list A), filter f (filter f l) = filter f l.
Proof.
  intros A f l. induction l as [ | x l IH ]; simpl; [ reflexivity | ].
  destruct (f x) eqn:Hx; simpl; [ rewrite Hx, IH | rewrite IH ]; reflexivity.
Qed.

(** X1. On an object (distinct keys, in the order JavaScript lists them),
    [cleanObject] keeps exactly the entries whose value is not [undefined],
    [null] or the empty string, with their values and in their order,
    except an entry for the key [__proto__], which is never kept: assigning
    to it creates no property.  Nothing blank is left at the top level, a
    nested object is kept as it is even when it holds blank values, and
    cleaning again, or building a filter query from the result as the list
    tools do, changes nothing. *)
Theorem X1_cleanObject_keeps_exactly_the_non_blank_entries :
  forall obj,
    NoDup (keys obj) ->
    js_ordered (keys obj) = true ->
    cleanObject obj =
    filter (fun kv => negb (is_blank (snd kv)) && negb (fst kv =? "__proto__")%string)
      obj /\
    (forall k v,
        In (k, v) (cleanObject obj) <->
        In (k, v) obj /\ is_blank v = false /\ k <> "__proto__") /\
    (forall k o,
        k <> "__proto__" -> In (k, JObj o) obj -> In (k, JObj o) (cleanObject obj)) /\
    cleanObject (cleanObject obj) = cleanObject obj /\
    buildFilterQuery (cleanObject obj) = cleanObject obj.
Proof.
  intros obj Hnd Hord.
  assert (Hclean := cleanObject_filter obj Hnd Hord).
  assert (Hin : forall k v,
             In (k, v) (cleanObject obj) <->
             In (k, v) obj /\ is_blank v = false /\ k <> "__proto__").
  { intros k v. rewrite Hclean, filter_In. cbn [fst snd].
    destruct (is_blank v); destruct (String.eqb_spec k "__proto__");
      cbn [negb andb]; intuition congruence. }
  assert (Hagain : cleanObject (cleanObject obj) = cleanObject obj).
  { rewrite (cleanObject_filter (cleanObject obj)).
    - rewrite Hclean. apply filter_filter_same.
    - rewrite Hclean. apply keys_filter_NoDup. exact Hnd.
    - rewrite Hclean. apply js_ordered_filter. exact Hord. }
  split; [ exact Hclean | ]. split; [ exact Hin | ]. split; [ | split ].
  - intros k o Hk Ho. apply Hin. split; [ exact Ho | ]. split; [ reflexivity | exact Hk ].
  - exact Hagain.
  - exact Hagain.
Qed.

Lemma json_members_non_blank :
  forall o : DataObject,
    Forall (fun kv => is_blank (snd kv) = false) o ->
    map fst (json_members o) = keys o.
Proof.
  induction o as [ | [k v] o IH ]; intros Hall; [ reflexivity | ].
  inversion Hall as [ | ? ? Hv Hrest ]; subst. simpl in Hv.
  cbn [json_members]. destruct (JSON_stringify v) as [ s | ] eqn:Hs.
  - simpl. rewrite IH by exact Hrest. reflexivity.
  - apply JSON_stringify_undefined in Hs. subst v. discriminate.
Qed.

(** X2. A body that went through [cleanObject] is sent whole by the request
    executor: for a method other than GET and DELETE the members of the text
    sent are, in order, the keys of the object, other than [__proto__], that
    have a value other than [undefined], [null] and the empty string, and no
    body is sent when no such key is left. *)
Theorem X2_cleaned_body_is_sent_without_blank_members :
  forall meth obj,
    NoDup (keys obj) ->
    js_ordered (keys obj) = true ->
    existsb (String.eqb (toUpperCase meth)) ["GET"; "DELETE"] = false ->
    let kept :=
      filter (fun kv => negb (is_blank (snd kv)) && negb (fst kv =? "__proto__")%string)
        obj in
    request_body meth (Some (cleanObject obj)) =
    match kept with
    | [] => None
    | _ :: _ => Some (json_object_text (json_members kept))
    end /\
    map fst (json_members kept) = keys kept /\
    Forall (fun kv => is_blank (snd kv) = false /\ fst kv <> "__proto__") kept.
Proof.
  intros meth obj Hnd Hord Hmeth kept.
  assert (Hall : Forall (fun kv => is_blank (snd kv) = false /\ fst kv <> "__proto__")
                   kept).
  { apply Forall_forall. intros kv Hin. apply filter_In in Hin.
    destruct Hin as [ _ Hkv ]. destruct (is_blank (snd kv)); [ discriminate | ].
    destruct (String.eqb_spec (fst kv) "__proto__"); [ discriminate | auto ]. }
  split; [ | split; [ | exact Hall ] ].
  - unfold request_body. rewrite Hmeth, (cleanObject_filter obj Hnd Hord). fold kept.
    destruct kept as [ | kv kept' ]; [ reflexivity | ].
    rewrite JSON_stringify_object. reflexivity.
  - apply json_members_non_blank. eapply Forall_impl; [ | exact Hall ].
    intros kv [ Hkv _ ]. exact Hkv.
Qed.

(** X3. [toLinkObject] answers [undefined] exactly for [undefined] and for
    the empty string.  Otherwise it answers a link object with an empty
    label, no secondary links, and a URL that begins with [http://] or
    [https://]: the given one when it already does, the given one after
    [https://] when it does not; the URL of a link object is left as it is
    when it is given back to [toLinkObject]. *)
Theorem X3_toLinkObject_url_gets_a_protocol_once :
  forall url,
    (toLinkObject url = None <-> url = None \/ url = Some "") /\
    (forall link,
        toLinkObject url = Some link ->
        exists u formatted,
          url = Some u /\
          link = [("primaryLinkLabel", JStr "");
                  ("primaryLinkUrl", JStr formatted);
                  ("secondaryLinks", JArr [])] /\
          prefix "http://" formatted || prefix "https://" formatted = true /\
          formatted =
          (if prefix "http://" u || prefix "https://" u then u else "https://" +++ u) /\
          toLinkObject (Some formatted) = Some link).
Proof.
  intros [ u | ]; (split; [ split | ]).
  - unfold toLinkObject. destruct (String.eqb_spec u ""); [ subst; auto | discriminate ].
  - intros [ H | H ]; [ discriminate | ]. inversion H. reflexivity.
  - intros link Hlink. unfold toLinkObject in Hlink.
    destruct (String.eqb_spec u "") as [ | Hne ]; [ discriminate | ].
    exists u.
    exists (if prefix "http://" u || prefix "https://" u then u else "https://" +++ u).
    split; [ reflexivity | ]. inversion Hlink as [ Heq ]. clear Hlink Heq.
    destruct (prefix "http://" u) eqn:Hhttp;
      [ | destruct (prefix "https://" u) eqn:Hhttps ]; cbn [negb andb orb].
    + split; [ reflexivity | ]. rewrite Hhttp. split; [ reflexivity | ].
      split; [ reflexivity | ]. unfold toLinkObject.
      destruct (String.eqb_spec u ""); [ contradiction | ]. rewrite Hhttp. reflexivity.
    + split; [ reflexivity | ]. rewrite Hhttp, Hhttps. split; [ reflexivity | ].
      split; [ reflexivity | ]. unfold toLinkObject.
      destruct (String.eqb_spec u ""); [ contradiction | ]. rewrite Hhttp, Hhttps.
      reflexivity.
    + split; [ reflexivity | ].
      assert (Hp : prefix "https://" ("https://" +++ u) = true).
      { simpl. destruct u; reflexivity. }
      assert (Hq : prefix "http://" ("https://" +++ u) = false) by reflexivity.
      rewrite Hq, Hp. split; [ reflexivity | ]. split; [ reflexivity | ].
      change (toLinkObject (Some ("https://" +++ u)))
        with (Some [("primaryLinkLabel", JStr "");
                    ("primaryLinkUrl",
                     JStr (if negb (prefix "http://" ("https://" +++ u))
                              && negb (prefix "https://" ("https://" +++ u))
                           then "https://" +++ "https://" +++ u
                           else "https://" +++ u));
                    ("secondaryLinks", JArr [])]).
      rewrite Hq, Hp. reflexivity.
  - intros _. left. reflexivity.
  - intros _. reflexivity.
  - intros link H. discriminate.
Qed.

Lemma obj_prop_delete_same :
  forall k o, obj_prop k (obj_delete k o) = JUndefined.
Proof. intros. unfold obj_prop. rewrite obj_get_delete_same. reflexivity. Qed.

Lemma move_link_frame :
  forall from to transformed k,
    k <> from -> k <> to ->
    obj_get k (move_link from to transformed) = obj_get k transformed.
Proof.
  intros from to transformed k Hfrom Hto. unfold move_link.
  destruct (obj_prop from transformed); try reflexivity.
  rewrite obj_get_delete_other by exact Hfrom.
  destruct (toLinkObject (Some s)); [ | reflexivity ].
  apply obj_get_set_other. exact Hto.
Qed.

Lemma move_link_from_is_no_string :
  forall from to transformed s,
    obj_prop from (move_link from to transformed) <> JStr s.
Proof.
  intros from to transformed s. unfold move_link.
  destruct (obj_prop from transformed) eqn:Hfrom;
    try (rewrite Hfrom; discriminate).
  rewrite obj_prop_delete_same. discriminate.
Qed.

Lemma move_link_to :
  forall from to transformed url,
    from <> to ->
    obj_prop from transformed = JStr url ->
    url <> "" ->
    obj_get to (move_link from to transformed) =
    option_map JObj (toLinkObject (Some url)).
Proof.
  intros from to transformed url Hne Hfrom Hurl. unfold move_link. rewrite Hfrom.
  rewrite obj_get_delete_other by congruence.
  unfold toLinkObject. destruct (String.eqb_spec url ""); [ contradiction | ].
  simpl option_map. apply obj_get_set_same.
Qed.

(** X4. [transformCompanyFields] touches five keys only: every key other
    than [domainName], [linkedinUrl], [xUrl], [linkedinLink] and [xLink]
    keeps its value or its absence.  In the result none of [domainName],
    [linkedinUrl] and [xUrl] holds a string; a string [domainName] has become
    its link object, or is gone when it was empty; a non-empty string
    [linkedinUrl] or [xUrl] has become the link object under [linkedinLink]
    or [xLink]. *)
Theorem X4_transformCompanyFields_turns_urls_into_links :
  forall fields,
    let result := transformCompanyFields fields in
    (forall k,
        ~ In k ["domainName"; "linkedinUrl"; "xUrl"; "linkedinLink"; "xLink"] ->
        obj_get k result = obj_get k fields) /\
    (forall s, obj_prop "domainName" result <> JStr s) /\
    (forall s, obj_prop "linkedinUrl" result <> JStr s) /\
    (forall s, obj_prop "xUrl" result <> JStr s) /\
    (forall url,
        obj_prop "domainName" fields = JStr url ->
        obj_get "domainName" result = option_map JObj (toLinkObject (Some url))) /\
    (forall url,
        obj_prop "linkedinUrl" fields = JStr url -> url <> "" ->
        obj_get "linkedinLink" result = option_map JObj (toLinkObject (Some url))) /\
    (forall url,
        obj_prop "xUrl" fields = JStr url -> url <> "" ->
        obj_get "xLink" result = option_map JObj (toLinkObject (Some url))).
Proof.
  intros fields result.
  set (step1 :=
         match obj_prop "domainName" fields with
         | JStr url =>
             match toLinkObject (Some url) with
             | Some linkObj => obj_set "domainName" (JObj linkObj) fields
             | None => obj_delete "domainName" fields
             end
         | _ => fields
         end).
  assert (Hresult : result =
                    move_link "xUrl" "xLink" (move_link "linkedinUrl" "linkedinLink" step1))
    by reflexivity.
  assert (Hstep1 : forall k, k <> "domainName" -> obj_get k step1 = obj_get k fields).
  { intros k Hk. unfold step1. destruct (obj_prop "domainName" fields); try reflexivity.
    destruct (toLinkObject (Some s)).
    - apply obj_get_set_other. exact Hk.
    - apply obj_get_delete_other. exact Hk. }
  assert (Hdomain : forall url,
             obj_prop "domainName" fields = JStr url ->
             obj_get "domainName" step1 = option_map JObj (toLinkObject (Some url))).
  { intros url Hurl. unfold step1. rewrite Hurl.
    destruct (toLinkObject (Some url)); simpl.
    - apply obj_get_set_same.
    - apply obj_get_delete_same. }
  assert (Hlate : forall k,
             k <> "linkedinUrl" -> k <> "linkedinLink" -> k <> "xUrl" -> k <> "xLink" ->
             obj_get k result = obj_get k step1).
  { intros k H1 H2 H3 H4. rewrite Hresult.
    rewrite move_link_frame by assumption. apply move_link_frame; assumption. }
  split; [ | split; [ | split; [ | split; [ | split; [ | split ] ] ] ] ].
  - intros k Hk. rewrite Hlate, Hstep1; auto; intros ->; apply Hk; simpl; auto 6.
  - intros s. unfold obj_prop. rewrite Hlate by discriminate.
    fold (obj_prop "domainName" step1). unfold step1.
    destruct (obj_prop "domainName" fields) eqn:Hd; try (rewrite Hd; discriminate).
    unfold obj_prop. destruct (toLinkObject (Some s0)).
    + rewrite obj_get_set_same. discriminate.
    + rewrite obj_get_delete_same. discriminate.
  - intros s. rewrite Hresult. unfold obj_prop.
    rewrite move_link_frame by discriminate.
    apply (move_link_from_is_no_string "linkedinUrl" "linkedinLink" step1 s).
  - intros s. rewrite Hresult.
    apply (move_link_from_is_no_string "xUrl" "xLink").
  - intros url Hurl. rewrite Hlate by discriminate. apply Hdomain. exact Hurl.
  - intros url Hurl Hne. rewrite Hresult. rewrite move_link_frame by discriminate.
    apply move_link_to; [ discriminate | | exact Hne ].
    unfold obj_prop in *. rewrite Hstep1 by discriminate. exact Hurl.
  - intros url Hurl Hne. rewrite Hresult.
    apply move_link_to; [ discriminate | | exact Hne ].
    unfold obj_prop in *. rewrite move_link_frame by discriminate.
    rewrite Hstep1 by discriminate. exact Hurl.
Qed.

Lemma copy_direct_keys :
  forall names fields transformed k,
    In k (keys (copy_direct names fields transformed)) ->
    In k names \/ In k (keys transformed).
Proof.
  induction names as [ | field rest IH ]; intros fields transformed k Hk; simpl in Hk.
  - right. exact Hk.
  - apply IH in Hk. destruct Hk as [ Hk | Hk ]; [ left; right; exact Hk | ].
    destruct (is_blank (obj_prop field fields)); [ right; exact Hk | ].
    apply keys_obj_set in Hk. destruct Hk as [ -> | Hk ]; [ left; left | right ]; auto.
Qed.

Lemma copy_direct_other :
  forall names fields transformed k,
    ~ In k names ->
    obj_get k (copy_direct names fields transformed) = obj_get k transformed.
Proof.
  induction names as [ | field rest IH ]; intros fields transformed k Hk; simpl.
  - reflexivity.
  - rewrite IH by (intros H; apply Hk; right; exact H).
    destruct (is_blank (obj_prop field fields)); [ reflexivity | ].
    apply obj_get_set_other. intros ->. apply Hk. left. reflexivity.
Qed.

Lemma copy_direct_field :
  forall names fields transformed k,
    NoDup names -> In k names ->
    obj_get k (copy_direct names fields transformed) =
    if is_blank (obj_prop k fields) then obj_get k transformed
    else Some (obj_prop k fields).
Proof.
  induction names as [ | field rest IH ]; intros fields transformed k Hnd Hk;
    [ contradiction | ].
  inversion Hnd as [ | ? ? Hfresh Hrest ]; subst. simpl. destruct Hk as [ -> | Hk ].
  - rewrite copy_direct_other by exact Hfresh.
    destruct (is_blank (obj_prop k fields)); [ reflexivity | apply obj_get_set_same ].
  - rewrite (IH _ _ _ Hrest Hk).
    destruct (is_blank (obj_prop k fields)); [ | reflexivity ].
    destruct (is_blank (obj_prop field fields)); [ reflexivity | ].
    apply obj_get_set_other. intros ->. contradiction.
Qed.

Lemma non_empty_string_link :
  forall v url,
    non_empty_string v = Some url ->
    link_or_undefined (toLinkObject (Some url)) <> JUndefined /\
    Some (link_or_undefined (toLinkObject (Some url))) =
    option_map JObj (toLinkObject (Some url)).
Proof.
  intros v url H. destruct v; try discriminate. simpl in H.
  destruct (String.eqb_spec s ""); [ discriminate | ]. inversion H; subst.
  unfold toLinkObject. destruct (String.eqb_spec url ""); [ contradiction | ].
  split; [ discriminate | reflexivity ].
Qed.

(** X5. [transformPersonFields] builds its result from nothing: the keys of
    the result are among [name], [emails], [phones], [linkedinLink], [xLink]
    and the five direct fields, so [firstName], [email], [phone], the two URL
    fields and every field the function does not know are not passed on.  A
    direct field is copied exactly when its value is not [undefined], [null]
    or the empty string; [name] is there exactly when the first or the last
    name is truthy, with the empty string for a falsy half; [emails], [phones]
    and the two links are there exactly when the flat field is a non-empty
    string. *)
Theorem X5_transformPersonFields_builds_only_known_fields :
  forall fields,
    let result := transformPersonFields fields in
    (forall k,
        In k (keys result) ->
        In k (["name"; "emails"; "phones"; "linkedinLink"; "xLink"] ++ directFields)) /\
    (forall k,
        In k directFields ->
        obj_get k result =
        if is_blank (obj_prop k fields) then None else Some (obj_prop k fields)) /\
    obj_get "name" result =
    (if truthy (js_or (obj_prop "firstName" fields) (obj_prop "lastName" fields))
     then Some (JObj [("firstName", js_or (obj_prop "firstName" fields) (JStr ""));
                      ("lastName", js_or (obj_prop "lastName" fields) (JStr ""))])
     else None) /\
    obj_get "emails" result =
    option_map
      (fun email => JObj [("primaryEmail", JStr email); ("additionalEmails", JArr [])])
      (non_empty_string (obj_prop "email" fields)) /\
    obj_get "phones" result =
    option_map
      (fun phone => JObj [("primaryPhoneNumber", JStr phone);
                          ("primaryPhoneCountryCode", JStr "");
                          ("primaryPhoneCallingCode", JStr "");
                          ("additionalPhones", JArr [])])
      (non_empty_string (obj_prop "phone" fields)) /\
    obj_get "linkedinLink" result =
    match non_empty_string (obj_prop "linkedinUrl" fields) with
    | Some url => option_map JObj (toLinkObject (Some url))
    | None => None
    end /\
    obj_get "xLink" result =
    match non_empty_string (obj_prop "xUrl" fields) with
    | Some url => option_map JObj (toLinkObject (Some url))
    | None => None
    end.
Proof.
  intros fields result. unfold result, transformPersonFields.
  assert (Hnd : NoDup directFields).
  { unfold directFields. repeat constructor; simpl; intuition discriminate. }
  assert (Hlinkedin := non_empty_string_link (obj_prop "linkedinUrl" fields)).
  assert (Hx := non_empty_string_link (obj_prop "xUrl" fields)).
  destruct (truthy (js_or (obj_prop "firstName" fields) (obj_prop "lastName" fields)));
    destruct (non_empty_string (obj_prop "email" fields)) as [ email | ];
    destruct (non_empty_string (obj_prop "phone" fields)) as [ phone | ];
    destruct (non_empty_string (obj_prop "linkedinUrl" fields)) as [ linkedin | ];
    destruct (non_empty_string (obj_prop "xUrl" fields)) as [ x | ];
    try (destruct (Hlinkedin _ eq_refl) as [ _ Hl ]);
    try (destruct (Hx _ eq_refl) as [ _ Hxl ]);
    (split;
     [ intros k Hk; apply copy_direct_keys in Hk; apply in_or_app;
       destruct Hk as [ Hk | Hk ]; [ right; exact Hk | left ];
       repeat (apply keys_obj_set in Hk; destruct Hk as [ -> | Hk ];
               [ simpl; auto 6 | ]);
       contradiction
     | split;
       [ intros k Hk; rewrite (copy_direct_field _ _ _ _ Hnd Hk);
         destruct (is_blank (obj_prop k fields)); [ | reflexivity ];
         assert (Hother : ~ In k ["name"; "emails"; "phones"; "linkedinLink"; "xLink"])
           by (unfold directFields in Hk; simpl in Hk |- *;
               repeat (destruct Hk as [ <- | Hk ]; [ intuition discriminate | ]);
               contradiction);
         repeat (rewrite obj_get_set_other
                   by (intros ->; apply Hother; simpl; auto 6));
         reflexivity
       | repeat split;
         (rewrite copy_direct_other
            by (unfold directFields; simpl; intuition discriminate));
         repeat (rewrite obj_get_set_other by discriminate);
         rewrite ?obj_get_set_same; try rewrite <- Hl; try rewrite <- Hxl;
         reflexivity ] ]).
Qed.

Lemma get_prop_array_word :
  forall l c rest,
    ((48 <=? nat_of_ascii c) && (nat_of_ascii c <=? 57) = false)%nat ->
    c <> "-"%char ->
    (String c rest =? "length")%string = false ->
    get_prop (JArr l) (String c rest) = Some JUndefined.
Proof.
  intros l c rest Hdigit Hminus Hlength. unfold get_prop. rewrite Hlength.
  rewrite (index_of_key_word c rest _ Hdigit Hminus). reflexivity.
Qed.

Lemma extractItems_returns :
  forall response nestedKey,
    exists items, extractItems response nestedKey = Return items.
Proof.
  intros response nestedKey.
  destruct response as [ | | b | n | | s | l | o ];
    try (exists []; unfold extractItems; simpl; rewrite ?orb_true_r; reflexivity).
  - exists l. unfold extractItems, read_prop.
    rewrite get_prop_array_word by (reflexivity || discriminate). reflexivity.
  - unfold extractItems, read_prop. simpl get_prop. simpl negb. simpl orb. cbv iota.
    destruct (obj_prop "data" o) as [ | | b | n | | s | l | d ] eqn:Hd; simpl;
      try (destruct (obj_prop nestedKey o); eexists; reflexivity);
      try (eexists; reflexivity).
    + destruct b; eexists; reflexivity.
    + destruct (negb (n =? 0)); eexists; reflexivity.
    + destruct (negb (s =? "")%string) ; eexists; reflexivity.
    + destruct (obj_prop nestedKey d); eexists; reflexivity.
Qed.

(** X6. [extractItems] never throws, whatever the response and the key.  It
    answers the response itself when that is an array, the [data] of the
    response when that is an array, the array under [nestedKey] of [data]
    when [data] is an object, the array under [nestedKey] of the response
    when [data] is [undefined] or [null]; a response that is not an object
    gives no items. *)
Theorem X6_extractItems_never_throws_and_unwraps :
  forall response nestedKey,
    (exists items, extractItems response nestedKey = Return items) /\
    (forall items,
        response = JArr items -> extractItems response nestedKey = Return items) /\
    (forall o items,
        response = JObj o -> obj_prop "data" o = JArr items ->
        extractItems response nestedKey = Return items) /\
    (forall o d items,
        response = JObj o -> obj_prop "data" o = JObj d ->
        obj_prop nestedKey d = JArr items ->
        extractItems response nestedKey = Return items) /\
    (forall o items,
        response = JObj o ->
        obj_prop "data" o = JUndefined \/ obj_prop "data" o = JNull ->
        obj_prop nestedKey o = JArr items ->
        extractItems response nestedKey = Return items) /\
    (typeof_object response = false \/ response = JNull ->
     extractItems response nestedKey = Return []).
Proof.
  intros response nestedKey.
  assert (Hdata : forall l, get_prop (JArr l) "data" = Some JUndefined).
  { intros l. apply get_prop_array_word; [ reflexivity | discriminate | reflexivity ]. }
  assert (Hnone : typeof_object response = false \/ response = JNull ->
                  extractItems response nestedKey = Return []).
  { intros [ H | -> ]; [ | reflexivity ]. unfold extractItems. rewrite H.
    rewrite orb_true_r. reflexivity. }
  split; [ | split; [ | split; [ | split; [ | split ] ] ] ]; [ | | | | | exact Hnone ].
  - apply extractItems_returns.
  - intros items ->. unfold extractItems, read_prop. rewrite Hdata. reflexivity.
  - intros o items -> Hd. unfold extractItems, read_prop. simpl. rewrite Hd. reflexivity.
  - intros o d items -> Hd Hnested. unfold extractItems, read_prop. simpl.
    rewrite Hd. simpl. rewrite Hnested. reflexivity.
  - intros o items -> Hd Hnested. unfold extractItems, read_prop. simpl.
    destruct Hd as [ Hd | Hd ]; rewrite Hd; simpl; rewrite Hnested; reflexivity.
Qed.

Lemma map_prop_values :
  forall idField items values,
    map_prop idField items = Return values ->
    forall v, In v values <->
              exists item, In item items /\ get_prop item idField = Some v.
Proof.
  induction items as [ | item rest IH ]; intros values Hmap v; simpl in Hmap.
  - inversion Hmap; subst. simpl. split; [ contradiction | intros [ ? [ [] _ ] ] ].
  - unfold read_prop in Hmap. destruct (get_prop item idField) as [ x | ] eqn:Hx;
      [ | discriminate ].
    destruct (map_prop idField rest) as [ values' | ]; [ | discriminate ].
    inversion Hmap; subst. simpl. rewrite (IH values' eq_refl v). split.
    + intros [ <- | [ item' [ Hin Hget ] ] ].
      * exists item. auto.
      * exists item'. auto.
    + intros [ item' [ [ <- | Hin ] Hget ] ].
      * left. congruence.
      * right. exists item'. auto.
Qed.

Lemma map_prop_throws :
  forall idField items t,
    map_prop idField items = Throw t ->
    exists item, In item items /\ get_prop item idField = None.
Proof.
  induction items as [ | item rest IH ]; intros t Hmap; simpl in Hmap; [ discriminate | ].
  unfold read_prop in Hmap. destruct (get_prop item idField) as [ x | ] eqn:Hx.
  - destruct (map_prop idField rest) as [ | t' ]; [ discriminate | ].
    destruct (IH t' eq_refl) as [ item' [ Hin Hget ] ]. exists item'. simpl. auto.
  - exists item. simpl. auto.
Qed.

Lemma strings_of_In :
  forall values s, In s (strings_of values) <-> In (JStr s) values.
Proof.
  induction values as [ | v rest IH ]; intros s; simpl; [ tauto | ].
  destruct v; simpl; rewrite IH;
    try (split; [ auto | intros [ H | H ]; [ discriminate | exact H ] ]).
  split; intros [ H | H ]; auto; left; congruence.
Qed.

Lemma existsb_eqb_In :
  forall id seen, existsb (String.eqb id) seen = true <-> In id seen.
Proof.
  intros id seen. rewrite existsb_exists. split.
  - intros [ x [ Hin Heq ] ]. apply String.eqb_eq in Heq. subst. exact Hin.
  - intros Hin. exists id. split; [ exact Hin | apply String.eqb_refl ].
Qed.

Lemma set_of_In :
  forall ids seen id,
    In id (set_of seen ids) <-> In id ids /\ ~ In id seen.
Proof.
  induction ids as [ | x rest IH ]; intros seen id; simpl; [ tauto | ].
  destruct (existsb (String.eqb x) seen) eqn:Hseen.
  - apply existsb_eqb_In in Hseen. rewrite IH. split.
    + intros [ Hin Hnot ]. auto.
    + intros [ [ <- | Hin ] Hnot ]; [ contradiction | auto ].
  - assert (Hx : ~ In x seen).
    { intros H. apply existsb_eqb_In in H. congruence. }
    simpl. rewrite IH. simpl. split.
    + intros [ <- | [ Hin Hnot ] ]; [ auto | ]. split; [ auto | tauto ].
    + intros [ [ <- | Hin ] Hnot ]; [ auto | ].
      destruct (String.eqb_spec x id) as [ -> | Hne ]; [ auto | ].
      right. split; [ exact Hin | ]. intros [ H | H ]; auto.
Qed.

Lemma set_of_NoDup :
  forall ids seen, NoDup (set_of seen ids).
Proof.
  induction ids as [ | x rest IH ]; intros seen; simpl; [ constructor | ].
  destruct (existsb (String.eqb x) seen); [ apply IH | ].
  constructor; [ | apply IH ]. rewrite set_of_In. simpl. tauto.
Qed.

(** X7. [uniqueIds] answers every string found under [idField] in an item,
    each one once, and nothing else: an item without the field, or with a
    number or an object there, contributes nothing.  It throws only when
    reading [idField] of an item throws, which is when the item is [null] or
    [undefined]. *)
Theorem X7_uniqueIds_are_the_distinct_string_ids :
  forall items idField,
    match uniqueIds items idField with
    | Return ids =>
        NoDup ids /\
        (forall id,
            In id ids <->
            exists item, In item items /\ get_prop item idField = Some (JStr id)) /\
        Forall (fun item => item <> JNull /\ item <> JUndefined) items
    | Throw _ =>
        exists item, In item items /\ (item = JNull \/ item = JUndefined)
    end.
Proof.
  intros items idField. unfold uniqueIds.
  destruct (map_prop idField items) as [ values | t ] eqn:Hmap.
  - split; [ apply set_of_NoDup | ]. split.
    + intros id. rewrite set_of_In, strings_of_In.
      rewrite (map_prop_values _ _ _ Hmap). simpl. tauto.
    + apply Forall_forall. intros item Hin.
      assert (Hget : exists v, get_prop item idField = Some v).
      { clear - Hmap Hin. revert values Hmap.
        induction items as [ | x rest IH ]; intros values Hmap; [ contradiction | ].
        simpl in Hmap. unfold read_prop in Hmap.
        destruct (get_prop x idField) as [ v | ] eqn:Hx; [ | discriminate ].
        destruct (map_prop idField rest) as [ values' | ]; [ | discriminate ].
        destruct Hin as [ <- | Hin ]; [ exists v; exact Hx | ].
        apply (IH Hin values' eq_refl). }
      destruct Hget as [ v Hget ].
      split; intros ->; discriminate.
  - destruct (map_prop_throws _ _ _ Hmap) as [ item [ Hin Hget ] ].
    exists item. split; [ exact Hin | ].
    destruct item as [ | | b | n | | s | l | o ]; simpl in Hget; auto; try discriminate.
    + destruct (idField =? "length")%string; [ discriminate | ].
      destruct (index_of_key idField (String.length s)); discriminate.
    + destruct (idField =? "length")%string; [ discriminate | ].
      destruct (index_of_key idField (List.length l)); discriminate.
Qed.



(** X9. When the first [k] attempts fail on a retryable error and the next
    one returns, with [k] at most [maxRetries], [requestWithRetry] returns
    what that attempt returned, after [k + 1] requests and [k] waits; the
    failures are not reported. *)
Theorem X9_retry_returns_the_first_success :
  forall meth endpoint payload qs retryConfig (k : nat) tr v final,
    let config := merge_config DEFAULT_RETRY_CONFIG retryConfig in
    Z.of_nat k <= maxRetries config ->
    attempts_recover meth endpoint payload qs config k 0 tr v final ->
    requestWithRetry meth endpoint payload qs retryConfig tr = (Return v, final) /\
    exists evs,
      final = tr ++ evs /\
      map is_fetch evs = attempts_shape k /\
      List.length (fetches evs) = S k /\
      List.length (sleeps evs) = k.
Proof.
  intros meth endpoint payload qs retryConfig k tr v final config Hk Hrecover.
  unfold requestWithRetry. fold config.
  assert (Hgen : forall (k : nat) attempt lastError tr,
             0 <= attempt ->
             attempt + Z.of_nat k <= maxRetries config ->
             attempts_recover meth endpoint payload qs config k attempt tr v final ->
             retry_loop meth endpoint payload qs config attempt lastError tr =
             (Return v, final) /\
             exists evs, final = tr ++ evs /\ map is_fetch evs = attempts_shape k).
  { clear k tr Hk Hrecover.
    induction k as [ | k IH ]; intros attempt lastError tr Hpos Hk Hrecover;
      rewrite retry_loop_step;
      (replace (attempt <=? maxRetries config) with true
        by (symmetry; apply Z.leb_le; lia));
      cbn [attempts_recover] in Hrecover;
      pose proof (request_run meth endpoint payload qs tr) as Hrun.
    - rewrite Hrecover in *. simpl in Hrun. split; [ reflexivity | ].
      exists [request_event meth endpoint payload qs]. split; [ exact Hrun | reflexivity ].
    - destruct (request meth endpoint payload qs tr) as [[v' | error] tr1];
        [ contradiction | ].
      simpl in Hrun. subst tr1. destruct Hrecover as [ Hretryable Hnext ].
      rewrite Hretryable.
      replace (attempt <? maxRetries config) with true
        by (symmetry; apply Z.ltb_lt; lia).
      simpl andb. cbv iota.
      destruct (IH (attempt + 1) error _ ltac:(lia) ltac:(lia) Hnext)
        as (Hloop & evs & Hfinal & Hshape).
      split; [ exact Hloop | ].
      unfold sleep in Hfinal; simpl snd in Hfinal.
      eexists (_ :: _ :: evs). split.
      + rewrite Hfinal, <- !app_assoc. reflexivity.
      + simpl. rewrite Hshape. reflexivity. }
  destruct (Hgen k 0 (ThrownValue JUndefined) tr ltac:(lia) ltac:(lia) Hrecover)
    as (Hloop & evs & Hfinal & Hshape).
  split; [ exact Hloop | ]. exists evs.
  destruct (attempts_shape_counts k evs Hshape) as [ Hfetches Hsleeps ]. auto.
Qed.

Lemma paginate_fails :
  forall meth endpoint payload qs limit,
    effective_limit qs = JNum limit ->
    forall fulls k tr tr1 t tr' fuel returnData,
      served meth endpoint payload qs limit k tr fulls tr1 ->
      Forall (fun response => is_full_page limit response = true) fulls ->
      requestWithRetry meth endpoint payload
        (Some (page_qs qs (JNum (Z.of_nat (k + List.length fulls) * limit))))
        no_override tr1 = (Throw t, tr') ->
      (List.length fulls < fuel)%nat ->
      paginate fuel meth endpoint payload (page_qs qs (JNum (Z.of_nat k * limit)))
        returnData tr = Some (Throw t, tr').
Proof.
  intros meth endpoint payload qs limit Hlimit fulls.
  induction fulls as [ | full fulls IH ];
    intros k tr tr1 t tr' fuel returnData Hserved Hfulls Hthrow Hfuel;
    (destruct fuel as [ | fuel ]; [ simpl in Hfuel; lia | ]);
    inversion Hserved as [ | k0 tr0 response tr2 pages tr3 Hreq Hrest ]; subst;
    cbn [paginate].
  - simpl in Hthrow. rewrite Nat.add_0_r in Hthrow. rewrite Hthrow. reflexivity.
  - rewrite Hreq. unfold read_prop.
    inversion Hfulls as [ | ? ? Hfull Hfulls' ]; subst.
    unfold is_full_page in Hfull.
    destruct (get_prop full "data") as [ d | ] eqn:Hd; [ | discriminate ].
    rewrite page_qs_next, !page_qs_limit, page_qs_offset, Hlimit, Hfull.
    replace (js_add (JNum (Z.of_nat k * limit)) (JNum limit))
      with (JNum (Z.of_nat (S k) * limit))
      by (rewrite Nat2Z.inj_succ; cbn [js_add is_stringish orb to_number];
          f_equal; lia).
    apply (IH (S k) tr2 tr1); auto; [ | simpl in Hfuel; lia ].
    replace (S k + List.length fulls)%nat with (k + List.length (full :: fulls))%nat
      by (simpl; lia).
    exact Hthrow.
Qed.

(** X10. When a round of [requestAllItems] throws after rounds that
    brought full pages, the call throws the error of that round: the items
    of the pages fetched before are not returned, and no further page is
    asked for. *)
Theorem X10_pagination_fails_as_a_whole :
  forall meth endpoint payload qs limit fulls tr tr1 t tr' fuel,
    effective_limit qs = JNum limit ->
    served meth endpoint payload qs limit 0 tr fulls tr1 ->
    Forall (fun response => is_full_page limit response = true) fulls ->
    requestWithRetry meth endpoint payload
      (Some (page_qs qs (JNum (Z.of_nat (List.length fulls) * limit))))
      no_override tr1 = (Throw t, tr') ->
    (List.length fulls < fuel)%nat ->
    requestAllItems fuel meth endpoint payload qs tr = Some (Throw t, tr').
Proof.
  intros meth endpoint payload qs limit fulls tr tr1 t tr' fuel
    Hlimit Hserved Hfulls Hthrow Hfuel.
  unfold requestAllItems. rewrite first_page_qs_offset.
  change (JNum 0) with (JNum (Z.of_nat 0 * limit)).
  apply (paginate_fails meth endpoint payload qs limit Hlimit fulls 0%nat tr tr1);
    auto.
Qed.

(** X11. [requestAllItems] has no bound on the number of rounds: against a
    server that answers every request for a page with a full page, whatever
    the offset, no number of rounds is enough for the call to return. *)
Theorem X11_pagination_has_no_bound_on_rounds :
  forall meth endpoint payload qs limit,
    effective_limit qs = JNum limit ->
    (forall offset tr0,
        exists response tr1,
          requestWithRetry meth endpoint payload (Some (page_qs qs offset))
            no_override tr0 = (Return response, tr1) /\
          is_full_page limit response = true) ->
    forall fuel tr, requestAllItems fuel meth endpoint payload qs tr = None.
Proof.
  intros meth endpoint payload qs limit Hlimit Hfull fuel tr.
  unfold requestAllItems. rewrite first_page_qs_offset.
  generalize (JNum 0) as offset. generalize (@nil JsValue) as returnData.
  revert tr. induction fuel as [ | fuel IH ]; intros tr returnData offset;
    [ reflexivity | ].
  cbn [paginate].
  destruct (Hfull offset tr) as (response & tr1 & Hreq & Hpage). rewrite Hreq.
  unfold is_full_page in Hpage. unfold read_prop.
  destruct (get_prop response "data") as [ d | ]; [ | discriminate ].
  rewrite page_qs_next, !page_qs_limit, Hlimit, Hpage. apply IH.
Qed.

(** The request of an item on the wire. *)
Lemma bulk_event_wire :
  forall operation endpoint item,
    bulk_event operation endpoint item =
    match operation with
    | create =>
        EvFetch (baseUrl this +++ endpoint)
          {| method := "POST";
             headers := [("Authorization", "Bearer " +++ apiKey this);
                         ("Content-Type", "application/json")];
             body := match item with
                     | [] => None
                     | _ :: _ => JSON_stringify (JObj item)
                     end |}
    | update =>
        EvFetch (baseUrl this +++ endpoint +++ "/" +++ js_String (obj_prop "id" item))
          {| method := "PUT";
             headers := [("Authorization", "Bearer " +++ apiKey this);
                         ("Content-Type", "application/json")];
             body := match obj_delete "id" item with
                     | [] => None
                     | _ :: _ => JSON_stringify (JObj (obj_delete "id" item))
                     end |}
    | delete =>
        EvFetch (baseUrl this +++ endpoint +++ "/" +++ js_String (obj_prop "id" item))
          {| method := "DELETE";
             headers := [("Authorization", "Bearer " +++ apiKey this);
                         ("Content-Type", "application/json")];
             body := None |}
    end.
Proof.
  intros operation endpoint item.
  destruct operation; unfold bulk_event, request_event, request_url,
    request_options, request_body; cbn [existsb toUpperCase string_map].
  - destruct item; reflexivity.
  - destruct (obj_delete "id" item); reflexivity.
  - reflexivity.
Qed.

(** The result of an item is a success object or a failure object around
    the item. *)
Lemma item_outcome_shape :
  forall operation endpoint start tr item result,
    item_outcome operation endpoint start tr item result ->
    (exists response, result = JObj [("success", JBool true); ("data", response)]) \/
    (exists error,
        result = JObj [("success", JBool false);
                       ("error", JStr (error_message error));
                       ("item", JObj item)]).
Proof.
  intros operation endpoint start tr item result (h & _ & _ & Hr).
  destruct (fst (request _ _ _ _ h)) as [ response | error ].
  - left. exists response. exact Hr.
  - right. destruct Hr as (attempt & _ & _ & ->).
    exists (ThrownError
              (new_Error ("Twenty CRM API error: "
                          +++ getErrorContext error attempt 3
                          +++ match error with
                              | ThrownError e => message e
                              | ThrownValue _ => "Unknown error"
                              end))).
    reflexivity.
Qed.

(** X12. [bulkOperation] requests every item, the first five before
    anything else and in their order, and every call of [fetch] it makes is
    the request of one of its items, with the two headers of the client:
    for [create] a POST to the endpoint of the resource with the item as it
    is for a body (no body for an item without keys); for [update] a PUT to
    the endpoint followed by the id, with the item without its id; for
    [delete] a DELETE to the endpoint followed by the id, without a body.
    Without items it makes no call at all. *)
Theorem X12_bulk_requests_are_those_of_the_items :
  forall operation resource items tr,
    let endpoint := getResourceEndpoint resource in
    let sent (method : string) (payload : DataObject) : RequestInit :=
      {| method := method;
         headers := [("Authorization", "Bearer " +++ apiKey this);
                     ("Content-Type", "application/json")];
         body := match payload with
                 | [] => None
                 | _ :: _ => JSON_stringify (JObj payload)
                 end |} in
    let wire (item : DataObject) : Event :=
      match operation with
      | create => EvFetch (baseUrl this +++ endpoint) (sent "POST" item)
      | update =>
          EvFetch (baseUrl this +++ endpoint +++ "/" +++ js_String (obj_prop "id" item))
            (sent "PUT" (filter (fun kv => negb (fst kv =? "id")%string) item))
      | delete =>
          EvFetch (baseUrl this +++ endpoint +++ "/" +++ js_String (obj_prop "id" item))
            {| method := "DELETE";
               headers := [("Authorization", "Bearer " +++ apiKey this);
                           ("Content-Type", "application/json")];
               body := None |}
      end in
    exists evs,
      snd (bulkOperation operation resource items tr) = tr ++ evs /\
      (items = [] -> evs = []) /\
      Forall (fun item => In (wire item) evs) items /\
      (exists later, evs = map wire (firstn 5 items) ++ later) /\
      Forall (fun ev => is_fetch ev = true -> exists item, In item items /\ ev = wire item)
        evs.
Proof.
  intros operation resource items tr endpoint sent wire.
  assert (Hwire : forall item, bulk_event operation endpoint item = wire item).
  { intros item. rewrite bulk_event_wire. unfold wire, sent.
    destruct operation; reflexivity. }
  destruct (bulkOperation_run operation resource items tr)
    as (results & evs & Hrun & _ & Hevs & Hsent & later & Hfirst).
  fold endpoint in Hevs, Hsent, Hfirst.
  exists evs. split; [ rewrite Hrun; reflexivity | ]. split; [ | split; [ | split ] ].
  - intros ->. rewrite bulkOperation_nil in Hrun. inversion Hrun as [ [ Hresults Htr ] ].
    apply (app_inv_head tr). rewrite app_nil_r. symmetry. exact Htr.
  - eapply Forall_impl; [ | exact Hsent ]. intros item Hin. rewrite <- Hwire. exact Hin.
  - exists later. rewrite Hfirst. f_equal. apply map_ext. exact Hwire.
  - eapply Forall_impl; [ | exact Hevs ]. intros [ url options | ms ] Hev Hfetch;
      [ | discriminate ].
    destruct Hev as (item & Hin & Hev). exists item. split; [ exact Hin | ].
    rewrite <- Hwire. exact Hev.
Qed.

Lemma Forall2_map_items :
  forall (A B C : Type) (f : A -> B) (P : B -> C -> Prop) (l : list A) (r : list C),
    Forall2 P (map f l) r -> Forall2 (fun a c => P (f a) c) l r.
Proof.
  intros A B C f P l. induction l as [ | a l IH ]; intros r H; simpl in H;
    inversion H; subst; constructor; auto.
Qed.

(** X13. The [bulk_delete] tool never reports an error: whatever happens to
    the requests, its result is the text of one result per id, in the order
    of the ids, each a success object or a failure object around [{ id }],
    and [isError] is not set.  Every call of [fetch] it makes is a DELETE
    without a body to the endpoint of the resource followed by one of the
    ids. *)
Theorem X13_bulk_delete_reports_per_id_and_never_errors :
  forall resourceType ids tr,
    exists results evs,
      bulk_delete_tool resourceType ids tr =
      ({| content_text := JSON_stringify_2 (JArr results); isError := false |},
       tr ++ evs) /\
      List.length results = List.length ids /\
      Forall2 (fun id result =>
                 (exists response,
                     result = JObj [("success", JBool true); ("data", response)]) \/
                 (exists error,
                     result = JObj [("success", JBool false);
                                    ("error", JStr (error_message error));
                                    ("item", JObj [("id", JStr id)])]))
        ids results /\
      Forall (fun ev =>
                is_fetch ev = true ->
                exists id,
                  In id ids /\
                  ev = EvFetch (baseUrl this +++ getResourceEndpoint resourceType
                                +++ "/" +++ id)
                         {| method := "DELETE";
                            headers := [("Authorization", "Bearer " +++ apiKey this);
                                        ("Content-Type", "application/json")];
                            body := None |}) evs.
Proof.
  intros resourceType ids tr.
  destruct (bulkOperation_run delete resourceType
              (map (fun id => [("id", JStr id)]) ids) tr)
    as (results & evs & Hrun & Hout & Hall & _).
  exists results, evs. split.
  - unfold bulk_delete_tool, catching, bind. rewrite Hrun. reflexivity.
  - split.
    + rewrite <- (Forall2_length Hout). apply length_map.
    + split.
      * apply (Forall2_map_items _ _ _ (fun id : string => [("id", JStr id)])
                 (fun (item : DataObject) result =>
                    (exists response,
                        result = JObj [("success", JBool true); ("data", response)]) \/
                    (exists error,
                        result = JObj [("success", JBool false);
                                       ("error", JStr (error_message error));
                                       ("item", JObj item)]))).
        eapply Forall2_impl; [ | exact Hout ]. intros item result.
        apply item_outcome_shape.
      * eapply Forall_impl; [ | exact Hall ]. intros [ url options | ms ] Hev Hfetch;
          [ | discriminate ].
        destruct Hev as (item & Hin & ->).
        apply in_map_iff in Hin. destruct Hin as (id & <- & Hin).
        exists id. split; [ exact Hin | reflexivity ].
Qed.

Lemma get_prop_id_truthy :
  forall item id,
    get_prop item "id" = Some id -> truthy id = true -> exists o, item = JObj o.
Proof.
  intros item id Hget Htruthy.
  assert (Hword : forall len, index_of_key "id" len = None).
  { intros len. apply index_of_key_word; [ reflexivity | discriminate ]. }
  destruct item as [ | | b | n | | s | l | o ]; simpl in Hget;
    try rewrite Hword in Hget; inversion Hget; subst; try discriminate.
  exists o. reflexivity.
Qed.

Lemma missing_ids_none :
  forall items,
    missing_ids items = Return [] <->
    exists objects,
      items = map JObj objects /\
      Forall (fun item => truthy (obj_prop "id" item) = true) objects.
Proof.
  induction items as [ | item rest IH ]; simpl.
  - split; [ intros _; exists []; split; [ reflexivity | constructor ] | reflexivity ].
  - unfold read_prop. split.
    + intros H. destruct (get_prop item "id") as [ id | ] eqn:Hid; [ | discriminate ].
      destruct (missing_ids rest) as [ missing | ]; [ | discriminate ].
      destruct (truthy id) eqn:Htruthy; [ | discriminate ].
      inversion H; subst.
      destruct (proj1 IH eq_refl) as (objects & -> & Hall).
      destruct (get_prop_id_truthy item id Hid Htruthy) as [ o -> ].
      exists (o :: objects). split; [ reflexivity | ].
      constructor; [ | exact Hall ]. simpl in Hid. inversion Hid; subst. exact Htruthy.
    + intros (objects & Hitems & Hall).
      destruct objects as [ | o objects ]; [ discriminate | ].
      inversion Hitems; subst. inversion Hall as [ | ? ? Ho Hrest ]; subst.
      simpl. rewrite Ho.
      rewrite (proj2 IH (ex_intro _ objects (conj eq_refl Hrest))). reflexivity.
Qed.

Lemma map_as_record :
  forall objects, map as_record (map JObj objects) = objects.
Proof.
  induction objects as [ | o objects IH ]; simpl; [ | rewrite IH ]; reflexivity.
Qed.

(** X14. The [bulk_update] tool checks all items before it sends anything.
    When the text parses to an array of objects that all have a truthy [id],
    it runs the batch of updates and answers the text of one result per
    item, without [isError].  In every other case (a text that does not
    parse, a value that is not an array, one item that is no object or has no
    truthy [id]) it makes no request at all, not even for the items that have
    an id, and answers with [isError]. *)
Theorem X14_bulk_update_checks_every_id_before_any_request :
  forall resourceType items_text tr,
    let run := bulk_update_tool resourceType items_text tr in
    (forall items,
        JSON_parse items_text = Return (JArr (map JObj items)) ->
        Forall (fun item => truthy (obj_prop "id" item) = true) items ->
        exists results,
          bulkOperation update resourceType items tr = (Return results, snd run) /\
          fst run = {| content_text := JSON_stringify_2 (JArr results);
                       isError := false |} /\
          List.length results = List.length items) /\
    ((forall items,
         JSON_parse items_text = Return (JArr (map JObj items)) ->
         ~ Forall (fun item => truthy (obj_prop "id" item) = true) items) ->
     snd run = tr /\ isError (fst run) = true).
Proof.
  intros resourceType items_text tr run. unfold run, bulk_update_tool, catching, bind, lift.
  split.
  - intros items Hparse Hids. rewrite Hparse.
    rewrite (proj2 (missing_ids_none (map JObj items))
               (ex_intro _ items (conj eq_refl Hids))).
    change (0 <? List.length (@nil JsValue))%nat with false. cbv beta iota.
    rewrite map_as_record.
    destruct (bulkOperation_run update resourceType items tr)
      as (results & evs & Hrun & Hout & _).
    rewrite Hrun. exists results. simpl.
    split; [ reflexivity | ]. split; [ reflexivity | ].
    symmetry. apply (Forall2_length Hout).
  - intros Hinvalid.
    destruct (JSON_parse items_text) as [ parsed | t ]; [ | split; reflexivity ].
    destruct parsed as [ | | b | n | | s | items | o ]; try (split; reflexivity).
    destruct (missing_ids items) as [ missing | t ] eqn:Hmissing;
      [ | split; reflexivity ].
    destruct missing as [ | item missing ]; [ | split; reflexivity ].
    apply missing_ids_none in Hmissing. destruct Hmissing as (objects & -> & Hall).
    exfalso. exact (Hinvalid objects eq_refl Hall).
Qed.

Lemma findRecordByField_run :
  forall resource fieldName fieldValue tr,
    findRecordByField resource fieldName fieldValue tr =
    match find_by_filter (getResourceEndpoint resource) fieldName fieldValue tr with
    | (Return found, tr1) => (Return found, tr1)
    | (Throw _, tr1) =>
        match find_by_search (getResourceEndpoint resource) fieldName fieldValue tr1 with
        | (Return found, tr2) => (Return found, tr2)
        | (Throw _, tr2) => (Return JNull, tr2)
        end
    end.
Proof.
  intros resource fieldName fieldValue tr. unfold findRecordByField, try_catch.
  destruct (find_by_filter _ fieldName fieldValue tr) as [[found | t] tr1];
    [ reflexivity | ].
  destruct (find_by_search _ fieldName fieldValue tr1) as [[found | t'] tr2];
    reflexivity.
Qed.

Lemma findRecordByField_returns :
  forall resource fieldName fieldValue tr,
    exists found tr',
      findRecordByField resource fieldName fieldValue tr = (Return found, tr').
Proof.
  intros resource fieldName fieldValue tr. rewrite findRecordByField_run.
  destruct (find_by_filter _ fieldName fieldValue tr) as [[found | t] tr1];
    [ eauto | ].
  destruct (find_by_search _ fieldName fieldValue tr1) as [[found | t'] tr2]; eauto.
Qed.

Lemma truthy_has_properties :
  forall v k, truthy v = true -> exists x, get_prop v k = Some x.
Proof.
  intros v k Hv. destruct v as [ | | b | n | | s | l | o ]; try discriminate;
    simpl; eauto.
  - destruct (k =? "length")%string; [ eauto | ].
    destruct (index_of_key k (String.length s)); eauto.
  - destruct (k =? "length")%string; [ eauto | ].
    destruct (index_of_key k (List.length l)); eauto.
Qed.

(** X15. The [upsert_company] tool looks the company up, which never
    throws, and then makes exactly one more request, which is not retried: a
    PUT to [/rest/companies/] followed by the [id] of the record found when
    the lookup found one, a POST to [/rest/companies] otherwise; the body is
    the same in both cases.  When both requests of the lookup fail, the
    lookup answers [null] and the tool creates a company.  When the write
    returns, the result carries [_upsertAction], [updated] or [created];
    when it throws, the tool answers with [isError]. *)
Theorem X15_upsert_company_writes_once_after_the_lookup :
  forall args tr,
    let matchField := js_String (obj_prop "matchField" args) in
    let matchValue := js_String (obj_prop "matchValue" args) in
    let payload := upsert_company_body args in
    let run := upsert_company_tool args tr in
    exists existing tr1 id,
      findRecordByField "company" matchField matchValue tr = (Return existing, tr1) /\
      (truthy existing = true -> get_prop existing "id" = Some id) /\
      let endpoint :=
        if truthy existing then "/rest/companies/" +++ js_String id
        else "/rest/companies" in
      let meth := if truthy existing then "PUT" else "POST" in
      let action := if truthy existing then "updated" else "created" in
      snd run = tr1 ++ [request_event meth endpoint (Some payload) None] /\
      fst run =
      match fst (request meth endpoint (Some payload) None tr1) with
      | Return result =>
          {| content_text :=
               JSON_stringify_2
                 (JObj (obj_set "_upsertAction" (JStr action) (spread result)));
             isError := false |}
      | Throw t =>
          {| content_text := Some ("Error upserting company: " +++ error_text t);
             isError := true |}
      end /\
      (forall t1 tr' t2 tr'',
          requestWithRetry "GET" "/rest/companies" None
            (Some (filter_qs matchField matchValue)) no_override tr = (Throw t1, tr') ->
          requestWithRetry "GET" "/rest/companies" None
            (Some (search_qs matchValue 10)) no_override tr' = (Throw t2, tr'') ->
          existing = JNull /\ meth = "POST" /\ endpoint = "/rest/companies").
Proof.
  intros args tr matchField matchValue payload run.
  destruct (findRecordByField_returns "company" matchField matchValue tr)
    as (existing & tr1 & Hfind).
  assert (Hid : exists id, truthy existing = true -> get_prop existing "id" = Some id).
  { destruct (truthy existing) eqn:Htruthy.
    - destruct (truthy_has_properties existing "id" Htruthy) as [ id Hid ].
      exists id. intros _. exact Hid.
    - exists JUndefined. discriminate. }
  destruct Hid as [ id Hid ].
  exists existing, tr1, id. split; [ exact Hfind | ]. split; [ exact Hid | ].
  intros endpoint meth action.
  assert (Hrun : run =
                 match request meth endpoint (Some payload) None tr1 with
                 | (Return result, tr2) =>
                     (tool_ok (JObj (obj_set "_upsertAction" (JStr action)
                                       (spread result))), tr2)
                 | (Throw t, tr2) =>
                     (tool_error ("Error upserting company: " +++ error_text t), tr2)
                 end).
  { unfold run, upsert_company_tool, catching, bind.
    fold matchField matchValue payload. rewrite Hfind.
    unfold endpoint, meth, action. destruct (truthy existing) eqn:Htruthy.
    - unfold lift, read_prop. rewrite (Hid eq_refl).
      destruct (request "PUT" _ (Some payload) None tr1) as [[result | t] tr2];
        reflexivity.
    - destruct (request "POST" _ (Some payload) None tr1) as [[result | t] tr2];
        reflexivity. }
  pose proof (request_run meth endpoint (Some payload) None tr1) as Hevent.
  split; [ | split ].
  - rewrite Hrun, <- Hevent.
    destruct (request meth endpoint (Some payload) None tr1) as [[result | t] tr2];
      reflexivity.
  - rewrite Hrun.
    destruct (request meth endpoint (Some payload) None tr1) as [[result | t] tr2];
      reflexivity.
  - intros t1 tr' t2 tr'' Hprimary Hfallback.
    rewrite findRecordByField_run, find_by_filter_run in Hfind.
    change (getResourceEndpoint "company") with "/rest/companies" in Hfind.
    rewrite Hprimary, find_by_search_run, Hfallback in Hfind.
    inversion Hfind; subst. unfold meth, endpoint. simpl. auto.
Qed.

Lemma transformNoteFields_filter :
  forall fields,
    transformNoteFields fields =
    filter (fun kv => negb (fst kv =? "body")%string) fields.
Proof.
  intros fields. unfold transformNoteFields.
  destruct (existsb (String.eqb "body") (keys fields)) eqn:Hbody; [ reflexivity | ].
  symmetry. apply forallb_filter_id. apply forallb_forall. intros [ k v ] Hin.
  cbn [fst]. destruct (String.eqb_spec k "body") as [ -> | ]; [ | reflexivity ].
  assert (Hex : existsb (String.eqb "body") (keys fields) = true).
  { apply existsb_exists. exists "body". split; [ | apply String.eqb_refl ].
    apply in_map_iff. exists ("body", v). auto. }
  congruence.
Qed.

Lemma filter_filter_and :
  forall (A : Type) (f g : A -> bool) (l : list A),
    filter g (filter f l) = filter (fun x => f x && g x) l.
Proof.
  intros A f g l. induction l as [ | x l IH ]; [ reflexivity | ].
  simpl. destruct (f x); simpl; [ destruct (g x) | ]; rewrite IH; reflexivity.
Qed.

(** X16. The [create_note] tool makes one request, a POST to [/rest/notes]
    that is not retried.  The body holds the arguments (distinct keys, in
    the order JavaScript lists them) whose value is not [undefined], [null]
    or the empty string, except [body], which is never sent, and
    [__proto__], which [cleanObject] never keeps; when nothing is left (a
    note with an empty title and no position) the POST carries no body at
    all.  An error of the request becomes a result with [isError] and the
    message of the error. *)
Theorem X16_create_note_posts_the_cleaned_fields_once :
  forall args tr,
    NoDup (keys args) ->
    js_ordered (keys args) = true ->
    let sent : DataObject :=
      filter (fun kv => negb (is_blank (snd kv))
                        && negb (fst kv =? "__proto__")%string
                        && negb (fst kv =? "body")%string) args in
    let run := create_note_tool args tr in
    snd run =
    tr ++ [EvFetch (baseUrl this +++ "/rest/notes")
             {| method := "POST";
                headers := [("Authorization", "Bearer " +++ apiKey this);
                            ("Content-Type", "application/json")];
                body := match sent with
                        | [] => None
                        | _ :: _ => JSON_stringify (JObj sent)
                        end |}] /\
    ~ In "body" (keys sent) /\
    Forall (fun kv => is_blank (snd kv) = false) sent /\
    fst run =
    match fst (request "POST" "/rest/notes" (Some sent) None tr) with
    | Return result => {| content_text := JSON_stringify_2 result; isError := false |}
    | Throw t =>
        {| content_text := Some ("Error creating note: " +++ error_text t);
           isError := true |}
    end.
Proof.
  intros args tr Hnd Hord sent run.
  assert (Hsent : transformNoteFields (cleanObject args) = sent).
  { rewrite transformNoteFields_filter, (cleanObject_filter _ Hnd Hord).
    apply filter_filter_and. }
  assert (Hrun : run =
                 match request "POST" "/rest/notes" (Some sent) None tr with
                 | (Return result, tr') => (tool_ok result, tr')
                 | (Throw t, tr') =>
                     (tool_error ("Error creating note: " +++ error_text t), tr')
                 end).
  { unfold run, create_note_tool, catching, bind. rewrite Hsent.
    destruct (request "POST" "/rest/notes" (Some sent) None tr) as [[result | t] tr'];
      reflexivity. }
  pose proof (request_run "POST" "/rest/notes" (Some sent) None tr) as Hevent.
  split; [ | split; [ | split ] ].
  - rewrite Hrun.
    replace (snd match request "POST" "/rest/notes" (Some sent) None tr with
                 | (Return result, tr') => (tool_ok result, tr')
                 | (Throw t, tr') =>
                     (tool_error ("Error creating note: " +++ error_text t), tr')
                 end)
      with (snd (request "POST" "/rest/notes" (Some sent) None tr))
      by (destruct (request "POST" "/rest/notes" (Some sent) None tr)
            as [[result | t] tr']; reflexivity).
    rewrite Hevent. unfold request_event, request_url, request_options, request_body.
    cbn [existsb toUpperCase string_map]. destruct sent; reflexivity.
  - unfold sent, keys. rewrite in_map_iff. intros [ [ k v ] [ Hk Hin ] ].
    simpl in Hk. subst k. apply filter_In in Hin. destruct Hin as [ _ Hkeep ].
    simpl in Hkeep. rewrite andb_false_r in Hkeep. discriminate.
  - apply Forall_forall. intros [ k v ] Hin. apply filter_In in Hin.
    destruct Hin as [ _ Hkeep ]. cbn [fst snd] in *.
    destruct (is_blank v); [ discriminate | reflexivity ].
  - rewrite Hrun.
    destruct (request "POST" "/rest/notes" (Some sent) None tr) as [[result | t] tr'];
      reflexivity.
Qed.

(** When the requests of a type always fail, the type contributes
    nothing. *)
Lemma search_outcome_fails :
  forall query limit start tr objectType rows,
    search_outcome query limit start tr objectType rows ->
    (forall tr0, exists t tr1,
        requestWithRetry "GET" ("/rest/" +++ objectType) None
          (Some (search_qs query limit)) no_override tr0 = (Throw t, tr1)) ->
    rows = [].
Proof.
  intros query limit start tr objectType rows (h & _ & _ & Hr) Hfail.
  destruct (request "GET" ("/rest/" +++ objectType) None
              (Some (search_qs query limit)) h) as [ [ response | error ] tr1 ] eqn:Hreq;
    cbn [fst] in Hr; [ | exact Hr ].
  apply requestWithRetry_returns in Hreq.
  destruct (Hfail h) as (t & tr2 & Hthrow). congruence.
Qed.

(** X17. The [search] tool never reports an error.  It searches the types
    given, or people, companies, opportunities, notes and tasks when none
    are given, with the limit given, or 20 when the limit is absent or 0.
    Every call of [fetch] is the GET of one of these types under [/rest/]
    with the query and the limit.  The result is the text of the list of the
    tagged records, without [isError]; when the request of every type
    fails, it is the text of the empty list, still without [isError]. *)
Theorem X17_search_tool_never_reports_an_error :
  forall query objectTypes limit tr,
    let types :=
      match objectTypes with
      | Some types => types
      | None => ["people"; "companies"; "opportunities"; "notes"; "tasks"]
      end in
    let n :=
      match limit with
      | Some n => if n =? 0 then 20 else n
      | None => 20
      end in
    exists results evs,
      search_tool query objectTypes limit tr =
      ({| content_text := JSON_stringify_2 (JArr results); isError := false |},
       tr ++ evs) /\
      searchRecords query types (Some n) tr = (Return results, tr ++ evs) /\
      Forall (fun ev =>
                is_fetch ev = true ->
                exists objectType,
                  In objectType types /\
                  ev = EvFetch (request_url this ("/rest/" +++ objectType)
                                  (Some [("search", JStr query); ("limit", JNum n)]))
                         {| method := "GET";
                            headers := [("Authorization", "Bearer " +++ apiKey this);
                                        ("Content-Type", "application/json")];
                            body := None |}) evs /\
      ((forall objectType tr0,
           In objectType types ->
           exists t tr1,
             requestWithRetry "GET" ("/rest/" +++ objectType) None
               (Some (search_qs query n)) no_override tr0 = (Throw t, tr1)) ->
       results = [] /\
       fst (search_tool query objectTypes limit tr) =
       {| content_text := Some "[]"; isError := false |}).
Proof.
  intros query objectTypes limit tr types n.
  destruct (searchRecords_run query types (Some n) tr)
    as (searchResults & later & Hrecords & Hevs & Hout).
  cbv zeta in Hrecords, Hevs, Hout.
  set (evs := map (search_event query n) types ++ later) in *.
  assert (Htool : search_tool query objectTypes limit tr =
                  (tool_ok (JArr (concat searchResults)), tr ++ evs)).
  { unfold search_tool, catching, bind.
    change (match objectTypes with
            | Some types0 => types0
            | None => default_objectTypes
            end) with types.
    change (limit_or_20 limit) with n. rewrite Hrecords. reflexivity. }
  exists (concat searchResults), evs.
  split; [ exact Htool | ]. split; [ exact Hrecords | ]. split.
  - eapply Forall_impl; [ | exact Hevs ]. intros [ url options | ms ] Hev Hfetch;
      [ | discriminate ].
    destruct Hev as (objectType & Hin & ->). exists objectType.
    split; [ exact Hin | reflexivity ].
  - intros Hfail.
    assert (Hnone : concat searchResults = []).
    { clear Hrecords Htool Hevs. clearbody evs.
      induction Hout as [ | objectType rows types' rest Hrows Hrest IH ];
        [ reflexivity | ].
      cbn [concat].
      rewrite (search_outcome_fails _ _ _ _ _ _ Hrows
                 (fun tr0 => Hfail objectType tr0 (or_introl eq_refl))).
      apply IH. intros objectType' tr0 Hin. apply Hfail. right. exact Hin. }
    split; [ exact Hnone | ]. rewrite Htool, Hnone. reflexivity.
Qed.

Lemma nested_served_events :
  forall endpoint baseQs k tr pages tr',
    nested_served endpoint baseQs k tr pages tr' ->
    tr' = tr ++ map (fun i => request_event "GET" endpoint None
                                (Some (nested_qs baseQs (Z.of_nat i * nested_limit))))
                  (seq k (List.length pages)).
Proof.
  intros endpoint baseQs k tr pages tr' Hserved.
  induction Hserved as [ k tr | k tr response tr1 pages tr2 Hreq Hrest IH ].
  - simpl. rewrite app_nil_r. reflexivity.
  - pose proof (request_run "GET" endpoint None
                  (Some (nested_qs baseQs (Z.of_nat k * nested_limit))) tr) as Hrun.
    rewrite Hreq in Hrun. simpl in Hrun. subst tr1. rewrite IH, <- app_assoc.
    reflexivity.
Qed.

Lemma next_nested_offset :
  forall k : nat, Z.of_nat k * nested_limit + nested_limit = Z.of_nat (S k) * nested_limit.
Proof. intros k. rewrite Nat2Z.inj_succ. lia. Qed.

Lemma listAllNested_loop_run :
  forall endpoint nestedKey baseQs fulls last k tr tr' fuel all,
    nested_served endpoint baseQs k tr (fulls ++ [last]) tr' ->
    Forall (fun response =>
              (200 <= List.length (nested_items nestedKey response))%nat) fulls ->
    (List.length (nested_items nestedKey last) < 200)%nat ->
    (List.length fulls < fuel)%nat ->
    listAllNested_loop fuel endpoint nestedKey baseQs (Z.of_nat k * nested_limit) all tr =
    Some (Return (all ++ concat (map (nested_items nestedKey) (fulls ++ [last]))), tr').
Proof.
  intros endpoint nestedKey baseQs fulls.
  induction fulls as [ | full fulls IH ];
    intros last k tr tr' fuel all Hserved Hfulls Hlast Hfuel;
    (destruct fuel as [ | fuel ]; [ simpl in Hfuel; lia | ]);
    inversion Hserved as [ | k0 tr0 response tr1 pages tr2 Hreq Hrest ]; subst;
    cbn [listAllNested_loop]; rewrite Hreq.
  - inversion Hrest; subst. unfold nested_items in *.
    destruct (extractItems_returns last nestedKey) as [ items Hitems ].
    rewrite Hitems in *.
    replace (Z.of_nat (List.length items) <? nested_limit) with true
      by (symmetry; apply Z.ltb_lt; unfold nested_limit; lia).
    simpl. rewrite Hitems, app_nil_r. reflexivity.
  - inversion Hfulls as [ | ? ? Hfull Hfulls' ]; subst. unfold nested_items in Hfull.
    destruct (extractItems_returns full nestedKey) as [ items Hitems ].
    rewrite Hitems in *.
    replace (Z.of_nat (List.length items) <? nested_limit) with false
      by (symmetry; apply Z.ltb_ge; unfold nested_limit; lia).
    rewrite next_nested_offset.
    rewrite (IH last (S k) tr1 tr' fuel (all ++ items)); auto;
      [ | simpl in Hfuel; lia ].
    cbn [app map concat]. unfold nested_items at 2. rewrite Hitems, <- app_assoc.
    reflexivity.
Qed.

Lemma listAllNested_loop_fails :
  forall endpoint nestedKey baseQs fulls k tr tr1 t tr' fuel all,
    nested_served endpoint baseQs k tr fulls tr1 ->
    Forall (fun response =>
              (200 <= List.length (nested_items nestedKey response))%nat) fulls ->
    request "GET" endpoint None
      (Some (nested_qs baseQs (Z.of_nat (k + List.length fulls) * nested_limit))) tr1 =
    (Throw t, tr') ->
    (List.length fulls < fuel)%nat ->
    listAllNested_loop fuel endpoint nestedKey baseQs (Z.of_nat k * nested_limit) all tr =
    Some (Throw t, tr').
Proof.
  intros endpoint nestedKey baseQs fulls.
  induction fulls as [ | full fulls IH ];
    intros k tr tr1 t tr' fuel all Hserved Hfulls Hthrow Hfuel;
    (destruct fuel as [ | fuel ]; [ simpl in Hfuel; lia | ]);
    inversion Hserved as [ | k0 tr0 response tr2 pages tr3 Hreq Hrest ]; subst;
    cbn [listAllNested_loop].
  - simpl in Hthrow. rewrite Nat.add_0_r in Hthrow. rewrite Hthrow. reflexivity.
  - rewrite Hreq. inversion Hfulls as [ | ? ? Hfull Hfulls' ]; subst.
    unfold nested_items in Hfull.
    destruct (extractItems_returns full nestedKey) as [ items Hitems ].
    rewrite Hitems in *.
    replace (Z.of_nat (List.length items) <? nested_limit) with false
      by (symmetry; apply Z.ltb_ge; unfold nested_limit; lia).
    rewrite next_nested_offset.
    apply (IH (S k) tr2 tr1); auto; [ | simpl in Hfuel; lia ].
    replace (S k + List.length fulls)%nat with (k + List.length (full :: fulls))%nat
      by (simpl; lia).
    exact Hthrow.
Qed.

(** X18. [listAllNested] asks for pages of 200 at offsets 0, 200, 400, ...,
    each with one request; a [limit] or an [offset] in the query it is given
    is replaced, every other key is kept.  It goes on after every page that
    brought at least 200 items and returns after the first page that brought
    fewer, with the items of all the pages in the order of the pages. *)
Theorem X18_listAllNested_reads_pages_of_200 :
  forall endpoint nestedKey baseQs fulls last tr tr' fuel,
    nested_served endpoint baseQs 0 tr (fulls ++ [last]) tr' ->
    Forall (fun response =>
              (200 <= List.length (nested_items nestedKey response))%nat) fulls ->
    (List.length (nested_items nestedKey last) < 200)%nat ->
    (List.length fulls < fuel)%nat ->
    listAllNested fuel endpoint nestedKey baseQs tr =
    Some (Return (concat (map (nested_items nestedKey) (fulls ++ [last]))), tr') /\
    tr' = tr ++ map (fun k => request_event "GET" endpoint None
                                (Some (nested_qs baseQs (Z.of_nat k * 200))))
                  (seq 0 (S (List.length fulls))) /\
    (forall offset,
        obj_prop "limit" (nested_qs baseQs offset) = JNum 200 /\
        obj_prop "offset" (nested_qs baseQs offset) = JNum offset /\
        forall k, k <> "limit" -> k <> "offset" ->
                  obj_get k (nested_qs baseQs offset) = obj_get k baseQs).
Proof.
  intros endpoint nestedKey baseQs fulls last tr tr' fuel Hserved Hfulls Hlast Hfuel.
  split; [ | split ].
  - unfold listAllNested.
    apply (listAllNested_loop_run endpoint nestedKey baseQs fulls last 0%nat tr tr' fuel []);
      assumption.
  - rewrite (nested_served_events _ _ _ _ _ _ Hserved), length_app, Nat.add_comm.
    reflexivity.
  - intros offset. unfold nested_qs, obj_prop. split; [ | split ].
    + rewrite obj_get_set_other by discriminate. rewrite obj_get_set_same. reflexivity.
    + rewrite obj_get_set_same. reflexivity.
    + intros k Hlimit Hoffset. rewrite !obj_get_set_other by assumption. reflexivity.
Qed.

(** X19. [listAllNested] does not retry and does not wrap: when the request
    of a page throws, after pages that brought at least 200 items each, the
    call throws that very error, which for a response that is not ok is the
    error with the status code; the items of the pages before are not
    returned, and the events of the call are its requests alone, one per
    page, with no wait between them. *)
Theorem X19_listAllNested_fails_with_the_error_of_the_request :
  forall endpoint nestedKey baseQs fulls tr tr1 t tr' fuel,
    nested_served endpoint baseQs 0 tr fulls tr1 ->
    Forall (fun response =>
              (200 <= List.length (nested_items nestedKey response))%nat) fulls ->
    request "GET" endpoint None
      (Some (nested_qs baseQs (Z.of_nat (List.length fulls) * 200))) tr1 = (Throw t, tr') ->
    (List.length fulls < fuel)%nat ->
    listAllNested fuel endpoint nestedKey baseQs tr = Some (Throw t, tr') /\
    tr' = tr ++ map (fun k => request_event "GET" endpoint None
                                (Some (nested_qs baseQs (Z.of_nat k * 200))))
                  (seq 0 (S (List.length fulls))) /\
    (forall r,
        fetch tr1
          (request_url this endpoint
             (Some (nested_qs baseQs (Z.of_nat (List.length fulls) * 200))))
          (request_options this "GET" None) = Resolved r ->
        ok r = false ->
        t = ThrownError (api_error r) /\ statusCode (api_error r) = Some (status r)).
Proof.
  intros endpoint nestedKey baseQs fulls tr tr1 t tr' fuel Hserved Hfulls Hthrow Hfuel.
  split; [ | split ].
  - unfold listAllNested.
    apply (listAllNested_loop_fails endpoint nestedKey baseQs fulls 0%nat tr tr1);
      assumption.
  - pose proof (request_throw_run _ _ _ _ _ _ _ Hthrow) as Htr'.
    rewrite Htr', (nested_served_events _ _ _ _ _ _ Hserved), <- app_assoc.
    f_equal. rewrite seq_S, map_app. reflexivity.
  - intros r Hfetch Hok.
    rewrite (request_not_ok _ _ _ _ _ _ Hfetch Hok) in Hthrow.
    inversion Hthrow. split; reflexivity.
Qed.

(** X20. [get_messages_by_company] stops at the first empty step: when the
    people of the company carry no string [id], it answers the empty list
    after the requests for the people alone; when the participant rows of
    these people carry no string [messageId], it answers the empty list
    without asking for any message.  In both cases [isError] is not set. *)
Theorem X20_messages_by_company_stops_at_the_first_empty_step :
  forall fuel companyId args tr people tr1,
    listAllNested fuel "/rest/people" "people" (eqFilter "companyId" companyId) tr =
    Some (Return people, tr1) ->
    (uniqueIds people "id" = Return [] ->
     get_messages_by_company fuel companyId args tr =
     Some ({| content_text := Some "[]"; isError := false |}, tr1)) /\
    (forall personIds participants tr2,
        uniqueIds people "id" = Return personIds ->
        listParticipantRowsByPersonIds fuel "/rest/messageParticipants"
          "messageParticipants" personIds tr1 = Some (Return participants, tr2) ->
        uniqueIds participants "messageId" = Return [] ->
        get_messages_by_company fuel companyId args tr =
        Some ({| content_text := Some "[]"; isError := false |}, tr2)).
Proof.
  intros fuel companyId args tr people tr1 Hpeople.
  assert (Hrows : forall personIds participants tr2,
             uniqueIds people "id" = Return personIds ->
             listParticipantRowsByPersonIds fuel "/rest/messageParticipants"
               "messageParticipants" personIds tr1 = Some (Return participants, tr2) ->
             uniqueIds participants "messageId" = Return [] ->
             get_messages_by_company fuel companyId args tr =
             Some ({| content_text := Some "[]"; isError := false |}, tr2)).
  { intros personIds participants tr2 Hids Hparticipants Hmessages.
    unfold get_messages_by_company, catching_looping, bind_looping,
      getPeopleIdsByCompany, bind_looping, looping, lift.
    rewrite Hpeople, Hids, Hparticipants, Hmessages. reflexivity. }
  split; [ | exact Hrows ].
  intros Hids. apply (Hrows [] [] tr1 Hids); reflexivity.
Qed.

End Client.

(** *** The base URL *)

(** C8. When the configured URL ends in exactly one slash (what precedes
    the final slash does not end in a slash), the client drops that slash
    and the request URL is the rest followed by the endpoint and the query:
    there is no doubled slash where the two meet. *)
Theorem C8_single_trailing_slash_is_not_doubled :
  forall b key endpoint qs,
    last_is_slash b = false ->
    let this := constructor {| apiUrl := b +++ "/"; credentials_apiKey := key |} in
    baseUrl this = b /\
    request_url this endpoint qs =
    (b +++ endpoint) +++ match qs with
                         | Some q => query_suffix (query_params q)
                         | None => ""
                         end /\
    doubled_slash_at (String.length (baseUrl this)) (request_url this endpoint qs) = false.
Proof.
  intros b key endpoint qs Hb this.
  assert (Hbase : baseUrl this = b) by apply strip_trailing_slash_append.
  split; [ exact Hbase | ]. split.
  - rewrite request_url_suffix, Hbase. reflexivity.
  - rewrite request_url_suffix, Hbase, append_assoc, doubled_slash_at_join, Hb.
    reflexivity.
Qed.

(** ** Scripted runs *)

Lemma mockFetch_always :
  forall always tr url options, Mock.mockFetch [] always tr url options = always.
Proof.
  intros. unfold Mock.mockFetch. destruct (List.length (fetches tr)); reflexivity.
Qed.

Lemma C1_witness_blank_query_key_is_dropped :
  ~ In "city"
      (map fst (query_params
                  [("search", JStr "acme"); ("city", JStr ""); ("limit", JNum 10)])).
Proof.
  destruct (@C1_query_drops_blank_body_drops_undefined
              (Mock.runtime [] (Resolved (Mock.mockResponse (JObj []) 200)) [JObj []])
              Mock.client "GET" "/rest/companies" None
              (Some [("search", JStr "acme"); ("city", JStr ""); ("limit", JNum 10)]) [])
    as (_ & Hqs & _).
  destruct (Hqs _ eq_refl) as [_ Hkeys].
  intros Hin. apply Hkeys in Hin. destruct Hin as (v & Hin & Hv).
  simpl in Hin. destruct Hin as [ H | [ H | [ H | [] ] ] ];
    inversion H; subst; discriminate.
Defined.

(** With a body holding an empty string and a [null], both keys are sent. *)
Lemma C1_counterexample_blank_body_values_are_sent :
  let payload : DataObject := [("name", JStr ""); ("note", JNull)] in
  is_blank (JStr "") = true /\
  is_blank JNull = true /\
  snd (@request (Mock.runtime [] (Resolved (Mock.mockResponse (JObj []) 200)) [JObj []])
         Mock.client "POST" "/rest/companies" (Some payload) None []) =
  [EvFetch "https://crm.example.com/rest/companies"
     {| method := "POST";
        headers := [("Authorization", "Bearer test-key");
                    ("Content-Type", "application/json")];
        body := Some ("{" +++ dq +++ "name" +++ dq +++ ":" +++ dq +++ dq +++ ","
                      +++ dq +++ "note" +++ dq +++ ":null}") |}] /\
  map fst (json_members payload) = ["name"; "note"].
Proof. vm_compute. repeat split. Qed.

(** Three items in pages of two: two requests and the three items; and a
    [null] for the second page: the TypeError, and the first page is lost. *)
Lemma C2_witness_three_items_in_pages_of_two :
  effective_limit (Some [("limit", JNum 2)]) = JNum 2 /\
  (exists tr',
      @requestAllItems
        (Mock.runtime [Resolved (Mock.mockResponse (Mock.page [JNum 1; JNum 2]) 200)]
           (Resolved (Mock.mockResponse (Mock.page [JNum 3]) 200))
           [Mock.page [JNum 1; JNum 2]; Mock.page [JNum 3]])
        Mock.client 2 "GET" "/rest/companies" None (Some [("limit", JNum 2)]) [] =
      Some (Return [JNum 1; JNum 2; JNum 3], tr') /\
      Mock.urls tr' = ["https://crm.example.com/rest/companies?limit=2&offset=0";
                       "https://crm.example.com/rest/companies?limit=2&offset=2"]) /\
  (exists tr',
      @requestAllItems
        (Mock.runtime [Resolved (Mock.mockResponse (Mock.page [JNum 1; JNum 2]) 200)]
           (Resolved (Mock.mockResponse JNull 200))
           [Mock.page [JNum 1; JNum 2]; JNull])
        Mock.client 2 "GET" "/rest/companies" None (Some [("limit", JNum 2)]) [] =
      Some (Throw (ThrownError
                     (new_Error "Cannot read properties of null (reading 'data')")),
            tr')).
Proof.
  split; [ reflexivity | ]. split.
  - eexists. split.
    + refine (proj1 (proj2
                (@C2_pagination_rounds
                   (Mock.runtime
                      [Resolved (Mock.mockResponse (Mock.page [JNum 1; JNum 2]) 200)]
                      (Resolved (Mock.mockResponse (Mock.page [JNum 3]) 200))
                      [Mock.page [JNum 1; JNum 2]; Mock.page [JNum 3]])
                   Mock.client "GET" "/rest/companies" None (Some [("limit", JNum 2)]) 2
                   eq_refl))
                [Mock.page [JNum 1; JNum 2]] (Mock.page [JNum 3]) [] _ 2%nat _ _ _ _ _).
      * eapply served_page; [ vm_compute; reflexivity | ].
        eapply served_page; [ vm_compute; reflexivity | ].
        apply served_none.
      * repeat constructor.
      * reflexivity.
      * discriminate.
      * simpl. lia.
    + reflexivity.
  - eexists.
    refine (proj2 (proj1 (proj2 (proj2
              (@C2_pagination_rounds
                 (Mock.runtime
                    [Resolved (Mock.mockResponse (Mock.page [JNum 1; JNum 2]) 200)]
                    (Resolved (Mock.mockResponse JNull 200))
                    [Mock.page [JNum 1; JNum 2]; JNull])
                 Mock.client "GET" "/rest/companies" None (Some [("limit", JNum 2)]) 2
                 eq_refl)))
              [Mock.page [JNum 1; JNum 2]] JNull [] _ 2%nat _ _ _ _)).
    + eapply served_page; [ vm_compute; reflexivity | ].
      eapply served_page; [ vm_compute; reflexivity | ].
      apply served_none.
    + repeat constructor.
    + reflexivity.
    + simpl. lia.
Defined.

(** With limit 2 and a first page of 3 items, the aggregator stops after
    one request although [data] is an array that is not shorter than the
    limit. *)
Lemma C2_counterexample_longer_page_ends_the_run :
  let rows := [JNum 1; JNum 2; JNum 3] in
  @requestAllItems
    (Mock.runtime [] (Resolved (Mock.mockResponse (Mock.page rows) 200)) [Mock.page rows])
    Mock.client 5 "GET" "/rest/companies" None (Some [("limit", JNum 2)]) [] =
  Some (Return rows,
        [EvFetch "https://crm.example.com/rest/companies?limit=2&offset=0"
           Mock.get_options]) /\
  get_prop (Mock.page rows) "data" = Some (JArr rows) /\
  isArray (JArr rows) = true /\
  ~ (Z.of_nat (List.length rows) < 2).
Proof.
  repeat split; try (vm_compute; reflexivity). simpl. lia.
Qed.







(** An update of two records, the first of which is answered 503 once: both
    requests go out before the retry, each a PUT to the path of its record
    with the record without its [id]. *)
Lemma C7_witness_update_acme :
  let rt :=
    Mock.runtime [Resolved (Mock.mockErrorResponse 503 "Unavailable" [])]
      (Resolved (Mock.mockResponse (Mock.page []) 200)) [Mock.page []] in
  let put (id : string) (text : string) : Event :=
    EvFetch ("https://crm.example.com/rest/companies/" +++ id)
      {| method := "PUT";
         headers := [("Authorization", "Bearer test-key");
                     ("Content-Type", "application/json")];
         body := Some text |} in
  let acme := put "123" ("{" +++ dq +++ "name" +++ dq +++ ":"
                         +++ dq +++ "Updated Acme" +++ dq +++ "}") in
  let globex := put "456" ("{" +++ dq +++ "employees" +++ dq +++ ":12}") in
  exists evs,
    snd (@bulkOperation rt Mock.client update "company"
           [[("id", JStr "123"); ("name", JStr "Updated Acme")];
            [("employees", JNum 12); ("id", JStr "456")]] []) = evs /\
    evs = [acme; globex; EvSleep 1000; acme] /\
    In acme evs /\ In globex evs /\
    Forall (fun ev => is_fetch ev = true -> ev = acme \/ ev = globex) evs.
Proof.
  intros rt put acme globex.
  destruct (@C7_update_strips_id_and_targets_it rt Mock.client "company"
              [[("id", JStr "123"); ("name", JStr "Updated Acme")];
               [("employees", JNum 12); ("id", JStr "456")]] [])
    as (evs & Hevs & Hsent & Hall).
  change ([] ++ evs) with evs in Hevs.
  exists evs. split; [ exact Hevs | ].
  split; [ rewrite <- Hevs; vm_compute; reflexivity | ].
  inversion Hsent as [ | ? ? Hacme Hrest ]; subst.
  inversion Hrest as [ | ? ? Hglobex _ ]; subst.
  split; [ exact Hacme | ]. split; [ exact Hglobex | ].
  eapply Forall_impl; [ | exact Hall ]. intros ev Hev Hfetch.
  destruct (Hev Hfetch) as (item & [ <- | [ <- | [] ] ] & ->);
    [ left | right ]; reflexivity.
Defined.

Lemma C8_witness_one_trailing_slash :
  last_is_slash "https://crm.example.com" = false /\
  request_url
    (constructor {| apiUrl := "https://crm.example.com/"; credentials_apiKey := "key" |})
    "/rest/companies" None = "https://crm.example.com/rest/companies" /\
  doubled_slash_at
    (String.length
       (baseUrl (constructor {| apiUrl := "https://crm.example.com/";
                                credentials_apiKey := "key" |})))
    (request_url
       (constructor {| apiUrl := "https://crm.example.com/"; credentials_apiKey := "key" |})
       "/rest/companies" None) = false.
Proof.
  split; [ reflexivity | ].
  destruct (C8_single_trailing_slash_is_not_doubled "https://crm.example.com" "key"
              "/rest/companies" None eq_refl) as (_ & Hurl & Hjoin).
  split; [ exact Hurl | exact Hjoin ].
Defined.

(** A configured URL that ends in two slashes keeps one of them, which
    meets the slash of the endpoint. *)
Lemma C8_counterexample_two_trailing_slashes :
  let this :=
    constructor {| apiUrl := "https://crm.example.com//"; credentials_apiKey := "key" |} in
  last_is_slash "https://crm.example.com//" = true /\
  first_is_slash "/rest/companies" = true /\
  request_url this "/rest/companies" None = "https://crm.example.com//rest/companies" /\
  doubled_slash_at (String.length (baseUrl this))
    (request_url this "/rest/companies" None) = true.
Proof. vm_compute. repeat split. Qed.





(** ** The scenarios of tests/client.test.ts on the model *)

Example test_builds_URL_with_query_params :
  Mock.urls
    (snd (@request (Mock.runtime [] (Resolved (Mock.mockResponse (Mock.page []) 200))
                      [Mock.page []])
            Mock.client "GET" "/rest/companies" None
            (Some [("search", JStr "acme"); ("limit", JNum 10)]) [])) =
  ["https://crm.example.com/rest/companies?search=acme&limit=10"].
Proof. vm_compute. reflexivity. Qed.

Example test_omits_body_for_GET_and_DELETE :
  request_body "GET" (Some [("name", JStr "Acme")]) = None /\
  request_body "DELETE" (Some [("extra", JStr "data")]) = None /\
  request_body "delete" (Some [("extra", JStr "data")]) = None /\
  request_body "POST" (Some [("name", JStr "Acme")]) =
  Some ("{" +++ dq +++ "name" +++ dq +++ ":" +++ dq +++ "Acme" +++ dq +++ "}").
Proof. vm_compute. repeat split. Qed.

Example test_returns_empty_object_for_empty_response :
  fst (@request
         (Mock.runtime []
            (Resolved {| ok := true; status := 200; text := ""; entries := [] |}) [])
         Mock.client "DELETE" "/rest/companies/123" None None []) =
  Return (JObj []).
Proof. vm_compute. reflexivity. Qed.

Example test_retries_on_429 :
  Mock.observed
    (@requestWithRetry
       (Mock.runtime [Resolved (Mock.mockErrorResponse 429 "Rate limited" [])]
          (Resolved (Mock.mockResponse (Mock.page []) 200)) [Mock.page []])
       Mock.client "GET" "/rest/companies/123" None None
       {| maxRetries_opt := None; baseDelayMs_opt := Some 1;
          maxDelayMs_opt := Some 10; jitterFactor_opt := None |} []) =
  (Return (Mock.page []),
   ["https://crm.example.com/rest/companies/123";
    "https://crm.example.com/rest/companies/123"]).
Proof. vm_compute. reflexivity. Qed.

Example test_does_not_retry_on_401 :
  Mock.urls
    (snd (@requestWithRetry
            (Mock.runtime [] (Resolved (Mock.mockErrorResponse 401 "Unauthorized" [])) [])
            Mock.client "GET" "/rest/companies" None None no_override [])) =
  ["https://crm.example.com/rest/companies"].
Proof. vm_compute. reflexivity. Qed.

Example test_paginates_until_fewer_items_than_limit :
  @requestAllItems
    (Mock.runtime [Resolved (Mock.mockResponse (Mock.page (Mock.numbered 200)) 200)]
       (Resolved (Mock.mockResponse (Mock.page (Mock.numbered 30)) 200))
       [Mock.page (Mock.numbered 200); Mock.page (Mock.numbered 30)])
    Mock.client 3 "GET" "/rest/companies" None None [] =
  Some (Return (Mock.numbered 200 ++ Mock.numbered 30),
        [EvFetch "https://crm.example.com/rest/companies?limit=200&offset=0"
           Mock.get_options;
         EvFetch "https://crm.example.com/rest/companies?limit=200&offset=200"
           Mock.get_options]).
Proof. vm_compute. reflexivity. Qed.

Example test_stops_after_single_page_if_fewer_items :
  @requestAllItems
    (Mock.runtime [] (Resolved (Mock.mockResponse (Mock.page (Mock.numbered 2)) 200))
       [Mock.page (Mock.numbered 2)])
    Mock.client 3 "GET" "/rest/companies" None None [] =
  Some (Return (Mock.numbered 2),
        [EvFetch "https://crm.example.com/rest/companies?limit=200&offset=0"
           Mock.get_options]).
Proof. vm_compute. reflexivity. Qed.

Example test_falls_back_to_search_if_filter_fails :
  Mock.observed
    (@findRecordByField
       (Mock.runtime [Resolved (Mock.mockErrorResponse 400 "Filter not supported" [])]
          (Resolved (Mock.mockResponse (Mock.page [Mock.company 123 "Acme"]) 200))
          [Mock.page [Mock.company 123 "Acme"]])
       Mock.client "company" "name" "Acme" []) =
  (Return (Mock.company 123 "Acme"),
   ["https://crm.example.com/rest/companies?filter=%7B%22name%22%3A%7B%22eq%22%3A%22Acme%22%7D%7D&limit=1";
    "https://crm.example.com/rest/companies?search=Acme&limit=10"]).
Proof. vm_compute. reflexivity. Qed.

Example test_returns_null_when_both_filter_and_search_fail :
  fst (@findRecordByField
         (Mock.runtime [] (Resolved (Mock.mockErrorResponse 500 "Server error" [])) [])
         Mock.client "company" "name" "Acme" []) = Return JNull.
Proof. vm_compute. reflexivity. Qed.

Example test_processes_delete_operations :
  Mock.observed
    (@bulkOperation
       (Mock.runtime [] (Resolved (Mock.mockResponse (JObj []) 200)) [JObj []])
       Mock.client delete "company" [[("id", JStr "123")]; [("id", JStr "456")]] []) =
  (Return [success_result (JObj []); success_result (JObj [])],
   ["https://crm.example.com/rest/companies/123";
    "https://crm.example.com/rest/companies/456"]).
Proof. vm_compute. reflexivity. Qed.

Example test_returns_error_for_failed_items :
  fst (@bulkOperation
         (Mock.runtime [] (Resolved (Mock.mockErrorResponse 400 "Bad request" [])) [])
         Mock.client create "company" [[("name", JStr "Bad")]] []) =
  Return [JObj [("success", JBool false);
                ("error", JStr "Twenty CRM API error: Twenty CRM API error (400): Bad request");
                ("item", JObj [("name", JStr "Bad")])]].
Proof. vm_compute. reflexivity. Qed.

(** ** Scripted runs for the further properties *)

Lemma X1_witness_blank_company_fields_are_dropped :
  let obj : DataObject :=
    [("7", JStr "x"); ("name", JStr "Acme"); ("address", JStr "");
     ("__proto__", JObj [("admin", JBool true)]); ("employees", JNull);
     ("industry", JUndefined); ("custom", JObj [("note", JStr "")])] in
  NoDup (keys obj) /\
  js_ordered (keys obj) = true /\
  cleanObject obj =
  [("7", JStr "x"); ("name", JStr "Acme"); ("custom", JObj [("note", JStr "")])].
Proof.
  intros obj.
  assert (Hnd : NoDup (keys obj)).
  { repeat constructor; simpl; intuition discriminate. }
  assert (Hord : js_ordered (keys obj) = true) by (vm_compute; reflexivity).
  split; [ exact Hnd | ]. split; [ exact Hord | ].
  exact (proj1 (X1_cleanObject_keeps_exactly_the_non_blank_entries obj Hnd Hord)).
Defined.

Lemma X2_witness_post_of_a_cleaned_note :
  let obj : DataObject :=
    [("title", JStr "Call"); ("position", JNull); ("__proto__", JStr "x")] in
  NoDup (keys obj) /\
  js_ordered (keys obj) = true /\
  existsb (String.eqb (toUpperCase "post")) ["GET"; "DELETE"] = false /\
  request_body "post" (Some (cleanObject obj)) =
  Some ("{" +++ dq +++ "title" +++ dq +++ ":" +++ dq +++ "Call" +++ dq +++ "}").
Proof.
  intros obj.
  assert (Hnd : NoDup (keys obj)).
  { repeat constructor; simpl; intuition discriminate. }
  assert (Hord : js_ordered (keys obj) = true) by (vm_compute; reflexivity).
  split; [ exact Hnd | ]. split; [ exact Hord | ]. split; [ reflexivity | ].
  exact (proj1 (X2_cleaned_body_is_sent_without_blank_members "post" obj Hnd Hord
                  eq_refl)).
Defined.

Lemma X3_witness_bare_domain_gets_https :
  toLinkObject (Some "acme.com") =
  Some [("primaryLinkLabel", JStr ""); ("primaryLinkUrl", JStr "https://acme.com");
        ("secondaryLinks", JArr [])] /\
  exists u formatted,
    Some "acme.com" = Some u /\
    [("primaryLinkLabel", JStr ""); ("primaryLinkUrl", JStr "https://acme.com");
     ("secondaryLinks", JArr [])] =
    [("primaryLinkLabel", JStr ""); ("primaryLinkUrl", JStr formatted);
     ("secondaryLinks", JArr [])] /\
    prefix "http://" formatted || prefix "https://" formatted = true /\
    formatted =
    (if prefix "http://" u || prefix "https://" u then u else "https://" +++ u) /\
    toLinkObject (Some formatted) =
    Some [("primaryLinkLabel", JStr ""); ("primaryLinkUrl", JStr "https://acme.com");
          ("secondaryLinks", JArr [])].
Proof.
  split; [ reflexivity | ].
  exact (proj2 (X3_toLinkObject_url_gets_a_protocol_once (Some "acme.com")) _ eq_refl).
Defined.

Lemma X4_witness_company_with_two_urls :
  obj_prop "domainName"
    [("name", JStr "Acme"); ("domainName", JStr "acme.com");
     ("linkedinUrl", JStr "https://linkedin.com/company/acme")] = JStr "acme.com" /\
  "https://linkedin.com/company/acme" <> "" /\
  obj_get "domainName"
    (transformCompanyFields
       [("name", JStr "Acme"); ("domainName", JStr "acme.com");
        ("linkedinUrl", JStr "https://linkedin.com/company/acme")]) =
  option_map JObj (toLinkObject (Some "acme.com")) /\
  obj_get "linkedinLink"
    (transformCompanyFields
       [("name", JStr "Acme"); ("domainName", JStr "acme.com");
        ("linkedinUrl", JStr "https://linkedin.com/company/acme")]) =
  option_map JObj (toLinkObject (Some "https://linkedin.com/company/acme")).
Proof.
  split; [ reflexivity | ]. split; [ discriminate | ].
  destruct (X4_transformCompanyFields_turns_urls_into_links
              [("name", JStr "Acme"); ("domainName", JStr "acme.com");
               ("linkedinUrl", JStr "https://linkedin.com/company/acme")])
    as (_ & _ & _ & _ & Hdomain & Hlinkedin & _).
  split; [ exact (Hdomain _ eq_refl) | ].
  apply (Hlinkedin _ eq_refl). discriminate.
Defined.

Lemma X5_witness_flat_email_is_not_passed_on :
  ~ In "email"
      (keys (transformPersonFields
               [("firstName", JStr "Ada"); ("email", JStr "ada@example.com");
                ("nickname", JStr "A"); ("city", JStr "London")])) /\
  obj_get "city"
    (transformPersonFields
       [("firstName", JStr "Ada"); ("email", JStr "ada@example.com");
        ("nickname", JStr "A"); ("city", JStr "London")]) = Some (JStr "London").
Proof.
  destruct (X5_transformPersonFields_builds_only_known_fields
              [("firstName", JStr "Ada"); ("email", JStr "ada@example.com");
               ("nickname", JStr "A"); ("city", JStr "London")])
    as (Hkeys & Hdirect & _).
  split.
  - intros Hin. apply Hkeys in Hin. simpl in Hin. intuition discriminate.
  - apply (Hdirect "city"). simpl. auto.
Defined.

Lemma X6_witness_people_under_data :
  obj_prop "data" [("data", JObj [("people", JArr [JObj [("id", JStr "p-1")]])])] =
  JObj [("people", JArr [JObj [("id", JStr "p-1")]])] /\
  obj_prop "people" [("people", JArr [JObj [("id", JStr "p-1")]])] =
  JArr [JObj [("id", JStr "p-1")]] /\
  extractItems (JObj [("data", JObj [("people", JArr [JObj [("id", JStr "p-1")]])])])
    "people" = Return [JObj [("id", JStr "p-1")]].
Proof.
  split; [ reflexivity | ]. split; [ reflexivity | ].
  exact (proj1 (proj2 (proj2 (proj2
           (X6_extractItems_never_throws_and_unwraps
              (JObj [("data", JObj [("people", JArr [JObj [("id", JStr "p-1")]])])])
              "people"))))
           _ _ _ eq_refl eq_refl eq_refl).
Defined.

Lemma X7_witness_repeated_and_numeric_ids :
  NoDup ["a"; "b"] /\
  (forall id,
      In id ["a"; "b"] <->
      exists item,
        In item [JObj [("id", JStr "a")]; JObj [("id", JNum 1)]; JObj [("id", JStr "b")];
                 JObj [("id", JStr "a")]; JObj []] /\
        get_prop item "id" = Some (JStr id)) /\
  Forall (fun item => item <> JNull /\ item <> JUndefined)
    [JObj [("id", JStr "a")]; JObj [("id", JNum 1)]; JObj [("id", JStr "b")];
     JObj [("id", JStr "a")]; JObj []].
Proof.
  exact (X7_uniqueIds_are_the_distinct_string_ids
           [JObj [("id", JStr "a")]; JObj [("id", JNum 1)]; JObj [("id", JStr "b")];
            JObj [("id", JStr "a")]; JObj []] "id").
Defined.


Lemma X9_witness_retries_on_429 :
  Z.of_nat 1 <=
  maxRetries
    (merge_config
       (@DEFAULT_RETRY_CONFIG
          (Mock.runtime [Resolved (Mock.mockErrorResponse 429 "Rate limited" [])]
             (Resolved (Mock.mockResponse (JObj [("data", JObj [("id", JStr "123")])]) 200))
             [JObj [("data", JObj [("id", JStr "123")])]]))
       {| maxRetries_opt := None; baseDelayMs_opt := Some 1;
          maxDelayMs_opt := Some 10; jitterFactor_opt := None |}) /\
  @requestWithRetry
    (Mock.runtime [Resolved (Mock.mockErrorResponse 429 "Rate limited" [])]
       (Resolved (Mock.mockResponse (JObj [("data", JObj [("id", JStr "123")])]) 200))
       [JObj [("data", JObj [("id", JStr "123")])]])
    Mock.client "GET" "/rest/companies/123" None None
    {| maxRetries_opt := None; baseDelayMs_opt := Some 1;
       maxDelayMs_opt := Some 10; jitterFactor_opt := None |} [] =
  (Return (JObj [("data", JObj [("id", JStr "123")])]),
   [EvFetch "https://crm.example.com/rest/companies/123" Mock.get_options;
    EvSleep 1;
    EvFetch "https://crm.example.com/rest/companies/123" Mock.get_options]).
Proof.
  split; [ simpl; lia | ].
  refine (proj1
            (@X9_retry_returns_the_first_success
               (Mock.runtime [Resolved (Mock.mockErrorResponse 429 "Rate limited" [])]
                  (Resolved (Mock.mockResponse
                               (JObj [("data", JObj [("id", JStr "123")])]) 200))
                  [JObj [("data", JObj [("id", JStr "123")])]])
               Mock.client "GET" "/rest/companies/123" None None
               {| maxRetries_opt := None; baseDelayMs_opt := Some 1;
                  maxDelayMs_opt := Some 10; jitterFactor_opt := None |}
               1%nat [] _ _ _ _)).
  - simpl. lia.
  - vm_compute. split; reflexivity.
Defined.

Lemma X10_witness_second_page_fails :
  effective_limit (Some [("limit", JNum 2)]) = JNum 2 /\
  exists t tr',
    @requestAllItems
      (Mock.runtime [Resolved (Mock.mockResponse (Mock.page [JNum 1; JNum 2]) 200)]
         (Resolved (Mock.mockErrorResponse 400 "Bad request" []))
         [Mock.page [JNum 1; JNum 2]])
      Mock.client 5 "GET" "/rest/companies" None (Some [("limit", JNum 2)]) [] =
    Some (Throw t, tr').
Proof.
  split; [ reflexivity | ].
  eexists. eexists.
  eapply (@X10_pagination_fails_as_a_whole
            (Mock.runtime [Resolved (Mock.mockResponse (Mock.page [JNum 1; JNum 2]) 200)]
               (Resolved (Mock.mockErrorResponse 400 "Bad request" []))
               [Mock.page [JNum 1; JNum 2]])
            Mock.client "GET" "/rest/companies" None (Some [("limit", JNum 2)]) 2
            [Mock.page [JNum 1; JNum 2]] []).
  - reflexivity.
  - eapply served_page; [ vm_compute; reflexivity | apply served_none ].
  - repeat constructor.
  - vm_compute. reflexivity.
  - simpl. lia.
Defined.

Lemma X11_witness_server_that_ignores_the_offset :
  effective_limit (Some [("limit", JNum 1)]) = JNum 1 /\
  @requestAllItems
    (Mock.runtime [] (Resolved (Mock.mockResponse (Mock.page [JNum 7]) 200))
       [Mock.page [JNum 7]])
    Mock.client 1000 "GET" "/rest/companies" None (Some [("limit", JNum 1)]) [] = None.
Proof.
  split; [ reflexivity | ].
  apply (@X11_pagination_has_no_bound_on_rounds
           (Mock.runtime [] (Resolved (Mock.mockResponse (Mock.page [JNum 7]) 200))
              [Mock.page [JNum 7]])
           Mock.client "GET" "/rest/companies" None (Some [("limit", JNum 1)]) 1 eq_refl).
  intros offset tr0. exists (Mock.page [JNum 7]). eexists. split; [ | reflexivity ].
  apply requestWithRetry_returns.
  apply (@request_ok
           (Mock.runtime [] (Resolved (Mock.mockResponse (Mock.page [JNum 7]) 200))
              [Mock.page [JNum 7]])
           Mock.client "GET" "/rest/companies" None _ tr0
           (Mock.mockResponse (Mock.page [JNum 7]) 200)).
  - apply mockFetch_always.
  - reflexivity.
  - reflexivity.
  - vm_compute. reflexivity.
Defined.

(** Two people to create, the first of which is answered 503 once: both
    requests go out before the retry of the first. *)
Lemma X12_witness_two_creates_and_a_retry :
  let rt :=
    Mock.runtime [Resolved (Mock.mockErrorResponse 503 "Unavailable" [])]
      (Resolved (Mock.mockResponse (JObj []) 200)) [JObj []] in
  let post (text : string) : Event :=
    EvFetch "https://crm.example.com/rest/people"
      {| method := "POST";
         headers := [("Authorization", "Bearer test-key");
                     ("Content-Type", "application/json")];
         body := Some text |} in
  let ann := post ("{" +++ dq +++ "city" +++ dq +++ ":" +++ dq +++ "Oslo" +++ dq +++ "}") in
  let bob := post ("{" +++ dq +++ "city" +++ dq +++ ":" +++ dq +++ "Rome" +++ dq +++ "}") in
  exists evs,
    snd (@bulkOperation rt Mock.client create "person"
           [[("city", JStr "Oslo")]; [("city", JStr "Rome")]] []) = evs /\
    evs = [ann; bob; EvSleep 1000; ann] /\
    In ann evs /\ In bob evs /\
    Forall (fun ev => is_fetch ev = true -> ev = ann \/ ev = bob) evs.
Proof.
  intros rt post ann bob.
  destruct (@X12_bulk_requests_are_those_of_the_items rt Mock.client create "person"
              [[("city", JStr "Oslo")]; [("city", JStr "Rome")]] [])
    as (evs & Hevs & _ & Hsent & _ & Hall).
  change ([] ++ evs) with evs in Hevs.
  exists evs. split; [ exact Hevs | ].
  split; [ rewrite <- Hevs; vm_compute; reflexivity | ].
  inversion Hsent as [ | ? ? Hann Hrest ]; subst.
  inversion Hrest as [ | ? ? Hbob _ ]; subst.
  split; [ exact Hann | ]. split; [ exact Hbob | ].
  eapply Forall_impl; [ | exact Hall ]. intros ev Hev Hfetch.
  destruct (Hev Hfetch) as (item & [ <- | [ <- | [] ] ] & ->);
    [ left | right ]; reflexivity.
Defined.

(** A resource named as a member that every object inherits gets the text
    of that member for an endpoint, not a path under [/rest/]. *)
Example getResourceEndpoint_of_an_inherited_member :
  getResourceEndpoint "company" = "/rest/companies" /\
  getResourceEndpoint "webhooks" = "/rest/webhooks" /\
  getResourceEndpoint "constructor" = "function Object() { [native code] }".
Proof. repeat split. Qed.

Lemma X13_witness_every_delete_fails :
  exists results evs,
    @bulk_delete_tool
      (Mock.runtime [] (Resolved (Mock.mockErrorResponse 404 "Not found" [])) [])
      Mock.client "company" ["123"; "456"] [] =
    ({| content_text := JSON_stringify_2 (JArr results); isError := false |},
     [] ++ evs) /\
    List.length results = 2%nat.
Proof.
  destruct (@X13_bulk_delete_reports_per_id_and_never_errors
              (Mock.runtime [] (Resolved (Mock.mockErrorResponse 404 "Not found" [])) [])
              Mock.client "company" ["123"; "456"] [])
    as (results & evs & Hrun & Hlength & _).
  exists results, evs. split; [ exact Hrun | exact Hlength ].
Defined.

Lemma X14_witness_items_with_and_without_id :
  (@JSON_parse
     (Mock.runtime [] (Resolved (Mock.mockResponse (JObj []) 200))
        [JArr [JObj [("id", JStr "1"); ("name", JStr "A")]]; JObj []])
     (match JSON_stringify (JArr [JObj [("id", JStr "1"); ("name", JStr "A")]]) with
      | Some s => s
      | None => ""
      end) = Return (JArr (map JObj [[("id", JStr "1"); ("name", JStr "A")]])) /\
   Forall (fun item => truthy (obj_prop "id" item) = true)
     [[("id", JStr "1"); ("name", JStr "A")]] /\
   exists results,
     fst (@bulk_update_tool
            (Mock.runtime [] (Resolved (Mock.mockResponse (JObj []) 200))
               [JArr [JObj [("id", JStr "1"); ("name", JStr "A")]]; JObj []])
            Mock.client "company"
            (match JSON_stringify (JArr [JObj [("id", JStr "1"); ("name", JStr "A")]]) with
             | Some s => s
             | None => ""
             end) []) =
     {| content_text := JSON_stringify_2 (JArr results); isError := false |} /\
     List.length results = 1%nat) /\
  ((forall items,
       @JSON_parse
         (Mock.runtime [] (Resolved (Mock.mockResponse (JObj []) 200))
            [JArr [JObj [("id", JStr "1"); ("name", JStr "A")]; JObj [("name", JStr "B")]]])
         (match JSON_stringify
                  (JArr [JObj [("id", JStr "1"); ("name", JStr "A")];
                         JObj [("name", JStr "B")]]) with
          | Some s => s
          | None => ""
          end) = Return (JArr (map JObj items)) ->
       ~ Forall (fun item => truthy (obj_prop "id" item) = true) items) /\
   snd (@bulk_update_tool
          (Mock.runtime [] (Resolved (Mock.mockResponse (JObj []) 200))
             [JArr [JObj [("id", JStr "1"); ("name", JStr "A")]; JObj [("name", JStr "B")]]])
          Mock.client "company"
          (match JSON_stringify
                   (JArr [JObj [("id", JStr "1"); ("name", JStr "A")];
                          JObj [("name", JStr "B")]]) with
           | Some s => s
           | None => ""
           end) []) = [] /\
   isError
     (fst (@bulk_update_tool
             (Mock.runtime [] (Resolved (Mock.mockResponse (JObj []) 200))
                [JArr [JObj [("id", JStr "1"); ("name", JStr "A")];
                       JObj [("name", JStr "B")]]])
             Mock.client "company"
             (match JSON_stringify
                      (JArr [JObj [("id", JStr "1"); ("name", JStr "A")];
                             JObj [("name", JStr "B")]]) with
              | Some s => s
              | None => ""
              end) [])) = true).
Proof.
  split.
  - assert (Hparse :
      @JSON_parse
        (Mock.runtime [] (Resolved (Mock.mockResponse (JObj []) 200))
           [JArr [JObj [("id", JStr "1"); ("name", JStr "A")]]; JObj []])
        (match JSON_stringify (JArr [JObj [("id", JStr "1"); ("name", JStr "A")]]) with
         | Some s => s
         | None => ""
         end) = Return (JArr (map JObj [[("id", JStr "1"); ("name", JStr "A")]])))
      by (vm_compute; reflexivity).
    assert (Hids : Forall (fun item => truthy (obj_prop "id" item) = true)
                     [[("id", JStr "1"); ("name", JStr "A")]])
      by (repeat constructor).
    split; [ exact Hparse | ]. split; [ exact Hids | ].
    destruct (proj1
                (@X14_bulk_update_checks_every_id_before_any_request
                   (Mock.runtime [] (Resolved (Mock.mockResponse (JObj []) 200))
                      [JArr [JObj [("id", JStr "1"); ("name", JStr "A")]]; JObj []])
                   Mock.client "company" _ [])
                _ Hparse Hids)
      as (results & _ & Hfst & Hlength).
    exists results. split; [ exact Hfst | exact Hlength ].
  - assert (Hinvalid :
      forall items,
        @JSON_parse
          (Mock.runtime [] (Resolved (Mock.mockResponse (JObj []) 200))
             [JArr [JObj [("id", JStr "1"); ("name", JStr "A")];
                    JObj [("name", JStr "B")]]])
          (match JSON_stringify
                   (JArr [JObj [("id", JStr "1"); ("name", JStr "A")];
                          JObj [("name", JStr "B")]]) with
           | Some s => s
           | None => ""
           end) = Return (JArr (map JObj items)) ->
        ~ Forall (fun item => truthy (obj_prop "id" item) = true) items).
    { intros items Hparse Hall. vm_compute in Hparse.
      destruct items as [ | first [ | second rest ] ]; try discriminate.
      inversion Hparse; subst. inversion Hall as [ | ? ? _ Hrest ]; subst.
      inversion Hrest as [ | ? ? Hsecond _ ]; subst. discriminate. }
    split; [ exact Hinvalid | ].
    exact (proj2
             (@X14_bulk_update_checks_every_id_before_any_request
                (Mock.runtime [] (Resolved (Mock.mockResponse (JObj []) 200))
                   [JArr [JObj [("id", JStr "1"); ("name", JStr "A")];
                          JObj [("name", JStr "B")]]])
                Mock.client "company" _ [])
             Hinvalid).
Defined.

(** Both requests of the lookup are answered 404, so the company is
    created; the custom field named by a number comes first in the body, as
    JavaScript lists it. *)
Lemma X15_witness_failed_lookup_creates :
  let rt := Mock.runtime [] (Resolved (Mock.mockErrorResponse 404 "Not found" [])) [] in
  let args : DataObject :=
    [("matchField", JStr "name"); ("matchValue", JStr "Acme");
     ("name", JStr "Acme"); ("domainName", JStr "acme.com");
     ("customFields", JObj [("2024", JStr "x"); ("tier", JStr "gold")])] in
  upsert_company_body args =
  [("2024", JStr "x"); ("name", JStr "Acme");
   ("domainName", JObj [("primaryLinkLabel", JStr "");
                        ("primaryLinkUrl", JStr "https://acme.com");
                        ("secondaryLinks", JArr [])]);
   ("tier", JStr "gold")] /\
  exists tr1,
    @findRecordByField rt Mock.client "company" "name" "Acme" [] = (Return JNull, tr1) /\
    snd (@upsert_company_tool rt Mock.client args []) =
    tr1 ++ [@request_event Mock.client "POST" "/rest/companies"
              (Some (upsert_company_body args)) None] /\
    fst (@upsert_company_tool rt Mock.client args []) =
    {| content_text :=
         Some "Error upserting company: Twenty CRM API error (404): Not found";
       isError := true |}.
Proof.
  intros rt args. split; [ vm_compute; reflexivity | ].
  destruct (@X15_upsert_company_writes_once_after_the_lookup rt Mock.client args [])
    as (existing & tr1 & id & Hfind & _ & Hsnd & Hfst & Hfail).
  assert (Hnull : existing = JNull).
  { assert (Hfound := Hfind). vm_compute in Hfound.
    injection Hfound as Hexisting _. symmetry. exact Hexisting. }
  subst existing. exists tr1. split; [ exact Hfind | ].
  split; [ exact Hsnd | ]. vm_compute. reflexivity.
Defined.

Lemma X16_witness_note_with_an_empty_title :
  let args : DataObject := [("title", JStr ""); ("body", JStr "Minutes")] in
  NoDup (keys args) /\
  js_ordered (keys args) = true /\
  snd (@create_note_tool
         (Mock.runtime [] (Resolved (Mock.mockResponse (JObj []) 200)) [JObj []])
         Mock.client args []) =
  [EvFetch "https://crm.example.com/rest/notes"
     {| method := "POST";
        headers := [("Authorization", "Bearer test-key");
                    ("Content-Type", "application/json")];
        body := None |}].
Proof.
  intros args.
  assert (Hnd : NoDup (keys args)).
  { repeat constructor; simpl; intuition discriminate. }
  assert (Hord : js_ordered (keys args) = true) by (vm_compute; reflexivity).
  split; [ exact Hnd | ]. split; [ exact Hord | ].
  exact (proj1
           (@X16_create_note_posts_the_cleaned_fields_once
              (Mock.runtime [] (Resolved (Mock.mockResponse (JObj []) 200)) [JObj []])
              Mock.client args [] Hnd Hord)).
Defined.

Lemma X17_witness_every_search_fails :
  fst (@search_tool
         (Mock.runtime [] (Resolved (Mock.mockErrorResponse 404 "Not found" [])) [])
         Mock.client "acme" None None []) =
  {| content_text := Some "[]"; isError := false |}.
Proof.
  destruct (@X17_search_tool_never_reports_an_error
              (Mock.runtime [] (Resolved (Mock.mockErrorResponse 404 "Not found" [])) [])
              Mock.client "acme" None None [])
    as (results & evs & _ & _ & _ & Hfail).
  apply Hfail. intros objectType tr0 _. eexists. eexists.
  unfold requestWithRetry.
  apply (@retry_loop_gives_up
           (Mock.runtime [] (Resolved (Mock.mockErrorResponse 404 "Not found" [])) [])
           Mock.client "GET" ("/rest/" +++ objectType) None
           (Some (search_qs "acme" 20)) _ 0 _ tr0
           (ThrownError (api_error (Mock.mockErrorResponse 404 "Not found" [])))).
  - simpl. lia.
  - apply (@request_not_ok
             (Mock.runtime [] (Resolved (Mock.mockErrorResponse 404 "Not found" [])) [])).
    + apply mockFetch_always.
    + reflexivity.
  - reflexivity.
Defined.

Lemma X18_witness_two_pages_of_people :
  @listAllNested
    (Mock.runtime [Resolved (Mock.mockResponse (Mock.page (Mock.numbered 200)) 200)]
       (Resolved (Mock.mockResponse (Mock.page (Mock.numbered 30)) 200))
       [Mock.page (Mock.numbered 200); Mock.page (Mock.numbered 30)])
    Mock.client 5 "/rest/people" "people" [("filter", JStr "companyId[eq]:c-1")] [] =
  Some (Return (Mock.numbered 200 ++ Mock.numbered 30),
        [EvFetch
           "https://crm.example.com/rest/people?filter=companyId%5Beq%5D%3Ac-1&limit=200&offset=0"
           Mock.get_options;
         EvFetch
           "https://crm.example.com/rest/people?filter=companyId%5Beq%5D%3Ac-1&limit=200&offset=200"
           Mock.get_options]).
Proof.
  refine (eq_trans
            (proj1
               (@X18_listAllNested_reads_pages_of_200
                  (Mock.runtime
                     [Resolved (Mock.mockResponse (Mock.page (Mock.numbered 200)) 200)]
                     (Resolved (Mock.mockResponse (Mock.page (Mock.numbered 30)) 200))
                     [Mock.page (Mock.numbered 200); Mock.page (Mock.numbered 30)])
                  Mock.client "/rest/people" "people"
                  [("filter", JStr "companyId[eq]:c-1")]
                  [Mock.page (Mock.numbered 200)] (Mock.page (Mock.numbered 30)) []
                  _ 5%nat _ _ _ _))
            _).
  - eapply nested_page; [ vm_compute; reflexivity | ].
    eapply nested_page; [ vm_compute; reflexivity | ].
    apply nested_none.
  - constructor; [ apply Nat.leb_le; vm_compute; reflexivity | constructor ].
  - apply Nat.ltb_lt. vm_compute. reflexivity.
  - simpl. lia.
  - vm_compute. reflexivity.
Defined.

Lemma X19_witness_first_page_is_refused :
  @listAllNested
    (Mock.runtime [] (Resolved (Mock.mockErrorResponse 500 "Server error" [])) [])
    Mock.client 5 "/rest/people" "people" [("filter", JStr "companyId[eq]:c-1")] [] =
  Some (Throw (ThrownError (api_error (Mock.mockErrorResponse 500 "Server error" []))),
        [EvFetch
           "https://crm.example.com/rest/people?filter=companyId%5Beq%5D%3Ac-1&limit=200&offset=0"
           Mock.get_options]).
Proof.
  refine (proj1
            (@X19_listAllNested_fails_with_the_error_of_the_request
               (Mock.runtime [] (Resolved (Mock.mockErrorResponse 500 "Server error" [])) [])
               Mock.client "/rest/people" "people" [("filter", JStr "companyId[eq]:c-1")]
               [] [] [] _ _ 5%nat _ _ _ _)).
  - apply nested_none.
  - constructor.
  - vm_compute. reflexivity.
  - simpl. lia.
Defined.

Lemma X20_witness_company_without_people :
  @get_messages_by_company
    (Mock.runtime [] (Resolved (Mock.mockResponse (Mock.page []) 200)) [Mock.page []])
    Mock.client 5 "c-1" {| limit_arg := None; returnAll_arg := None |} [] =
  Some ({| content_text := Some "[]"; isError := false |},
        [EvFetch
           "https://crm.example.com/rest/people?filter=companyId%5Beq%5D%3Ac-1&limit=200&offset=0"
           Mock.get_options]).
Proof.
  refine (proj1
            (@X20_messages_by_company_stops_at_the_first_empty_step
               (Mock.runtime [] (Resolved (Mock.mockResponse (Mock.page []) 200))
                  [Mock.page []])
               Mock.client 5%nat "c-1" {| limit_arg := None; returnAll_arg := None |}
               [] [] _ _) _).
  - vm_compute. reflexivity.
  - reflexivity.
Defined.
